(** * Manor home exercise: scraping phase and loader phase

    A shallow embedding of [phase1_scraping.py] and [phase2_load.py].

    - Python [str] values are [string]s (sequences of code points below 256;
      within that range [\d] is exactly [0-9]).
    - Python [int] is [Z] (or [N] where the code only produces naturals).
    - SQL tables are lists of rows when the order or a [UNIQUE] constraint
      matters, and [gmap]s keyed by their primary key otherwise.
    - A Python exception is the [Raise] branch of [result]. *)

From Stdlib Require Import ZArith NArith Ascii String List Lia Bool.
From Stdlib Require Import DecimalString DecimalN DecimalPos.
From stdpp Require Import base option list gmap strings sorting.

Local Open Scope Z_scope.

(** Let [simpl] unfold string concatenation on a literal prefix. *)
#[local] Arguments String.append !_ _ / : simpl nomatch.

(* ===================================================================== *)
(** * Exceptions *)
(* ===================================================================== *)

Inductive exn : Type :=
| IntegrityError (msg : string)      (* sqlite3: UNIQUE / PRIMARY KEY violated *)
| UnicodeDecodeError (pos : nat)     (* bytes.decode, strict error handler      *)
| ProgrammingError (msg : string)    (* psycopg2: bad DDL (duplicate column ...) *)
| DataError (msg : string)           (* psycopg2: a cast of a staged value failed *)
| ValueError (msg : string)          (* zipfile: timestamp before 1980           *)
| StructError (msg : string)         (* struct.pack: field does not fit          *)
| KeyError (key : string)            (* a keyword argument that was not passed   *)
| IndexError (msg : string)          (* a positional argument that was not passed *)
| AttributeError (msg : string).     (* a submodule that was not imported        *)

Inductive result (A : Type) : Type :=
| Ok (a : A)
| Raise (e : exn).
Arguments Ok {A} a.
Arguments Raise {A} e.

Definition bind {A B} (r : result A) (k : A -> result B) : result B :=
  match r with
  | Ok a => k a
  | Raise e => Raise e
  end.

Notation "'let/r' x := r 'in' k" := (bind r (fun x => k))
  (at level 10, x name, r at level 100, k at level 200,
   format "'[v' 'let/r'  x  :=  r  'in' '/' k ']'").

Definition is_ok {A} (r : result A) : bool :=
  match r with Ok _ => true | Raise _ => false end.

(* ===================================================================== *)
(** * Text helpers shared by both phases *)
(* ===================================================================== *)

Module Text.

Definition code (c : ascii) : N := N_of_ascii c.

Definition in_range (lo hi : N) (c : ascii) : bool :=
  (N.leb lo (code c)) && (N.leb (code c) hi).

(** [\d] restricted to code points below 256. *)
Definition is_digit (c : ascii) : bool := in_range 48 57 c.
Definition is_upper (c : ascii) : bool := in_range 65 90 c.
Definition is_lower (c : ascii) : bool := in_range 97 122 c.

(** [str.lower] on one character of [A-Za-z0-9_]. *)
Definition lower (c : ascii) : ascii :=
  if is_upper c then ascii_of_N (code c + 32) else c.

Definition underscore : ascii := "_"%char.
Definition newline : ascii := ascii_of_N 10.

Fixpoint map_string (f : ascii -> ascii) (s : string) : string :=
  match s with
  | EmptyString => EmptyString
  | String c r => String (f c) (map_string f r)
  end.

Fixpoint rev_string (acc s : string) : string :=
  match s with
  | EmptyString => acc
  | String c r => rev_string (String c acc) r
  end.

Fixpoint all_string (p : ascii -> bool) (s : string) : bool :=
  match s with
  | EmptyString => true
  | String c r => p c && all_string p r
  end.

(** Longest prefix of characters satisfying [p]. *)
Fixpoint take_while (p : ascii -> bool) (s : string) : string :=
  match s with
  | EmptyString => EmptyString
  | String c r => if p c then String c (take_while p r) else EmptyString
  end.

Fixpoint drop_while (p : ascii -> bool) (s : string) : string :=
  match s with
  | EmptyString => EmptyString
  | String c r => if p c then drop_while p r else s
  end.

(** [str(n)] for a natural [n]. *)
Definition str_of_N (n : N) : string := NilEmpty.string_of_uint (N.to_uint n).

(** [str(z)] for an [int]. *)
Definition str_of_Z (z : Z) : string :=
  if z <? 0 then String "-"%char (str_of_N (Z.to_N (- z)))
  else str_of_N (Z.to_N z).

(** [f"{z:02d}"]: the sign, then the digits zero-padded so that the whole
    field is at least two characters wide. *)
Definition fmt_02d (z : Z) : string :=
  if z <? 0 then str_of_Z z
  else let d := str_of_N (Z.to_N z) in
       if (String.length d <? 2)%nat then String "0"%char d else d.

(** [f"{z:04d}"]. *)
Definition fmt_04d (z : Z) : string :=
  if z <? 0 then
    let d := str_of_N (Z.to_N (- z)) in
    String "-"%char (String.string_of_list_ascii
        (repeat "0"%char (3 - String.length d)) +:+ d)
  else let d := str_of_N (Z.to_N z) in
       String.string_of_list_ascii (repeat "0"%char (4 - String.length d)) +:+ d.

(** [int(s)] on a string of decimal digits, most significant first. *)
Fixpoint int_of_digits (acc : N) (s : string) : N :=
  match s with
  | EmptyString => acc
  | String c r => int_of_digits (10 * acc + (code c - 48)) r
  end.

(** [re.search(r"(\d+)$", s)]: [$] matches at the very end and also just
    before a newline that is the last character; the leftmost match is the
    whole run of digits that ends there.  [None] when that run is empty. *)
Definition strip_final_newline_rev (r : string) : string :=
  match r with
  | String c r' => if Ascii.eqb c newline then r' else r
  | EmptyString => r
  end.

Definition trailing_digits (s : string) : option string :=
  let r := strip_final_newline_rev (rev_string EmptyString s) in
  match take_while is_digit r with
  | EmptyString => None
  | d => Some (rev_string EmptyString d)
  end.

End Text.

(* ===================================================================== *)
(** * Phase 1: the token registry ([types] table of the manifest database) *)
(* ===================================================================== *)

Module TokenRegistry.
Import Text.

(** [MAX_TYPES = 25] *)
Definition MAX_TYPES : Z := 25.

Definition is_underscore (c : ascii) : bool := Ascii.eqb c underscore.

(** The class [[A-Za-z0-9_]]. *)
Definition is_word (c : ascii) : bool :=
  is_upper c || is_lower c || is_digit c || is_underscore c.

(** [re.sub(r"_+", "_", s)]: an underscore followed by another one is dropped. *)
Fixpoint collapse_underscores (s : string) : string :=
  match s with
  | EmptyString => EmptyString
  | String c r =>
      if is_underscore c then
        match r with
        | String c' _ =>
            if is_underscore c' then collapse_underscores r
            else String c (collapse_underscores r)
        | EmptyString => String c EmptyString
        end
      else String c (collapse_underscores r)
  end.

(** [s.strip("_")] *)
Definition strip_underscores (s : string) : string :=
  let s1 := drop_while is_underscore s in
  rev_string EmptyString
    (drop_while is_underscore (rev_string EmptyString s1)).

Definition sanitize_token (token : string) : string :=
  let s := map_string lower
             (map_string (fun c => if is_word c then c else underscore) token) in
  let s := strip_underscores (collapse_underscores s) in
  let s := match s with EmptyString => "table"%string | _ => s end in
  match s with
  | String c _ => if is_digit c then ("t_" +:+ s)%string else s
  | EmptyString => s
  end.

(** One row of [types(token PRIMARY KEY, canonical UNIQUE NOT NULL,
    first_seen, overflow)]. *)
Record TypeRow : Type := mkTypeRow {
  token : string;
  canonical : string;
  first_seen : string;
  overflow : Z
}.

(** The table, in insertion order. *)
Abbreviation types_table := (list TypeRow).

(** [SELECT canonical FROM types WHERE token=?], [fetchone()]. *)
Fixpoint select_canonical (con : types_table) (tok : string) : option string :=
  match con with
  | [] => None
  | r :: rest =>
      if String.eqb (token r) tok then Some (canonical r)
      else select_canonical rest tok
  end.

(** The larger of two names in SQLite's default (byte-wise) text order. *)
Definition max_text (a b : string) : string :=
  match String.compare a b with
  | Lt => b
  | _ => a
  end.

(** [SELECT canonical FROM types ORDER BY canonical DESC LIMIT 1]. *)
Fixpoint select_max_canonical (con : types_table) : option string :=
  match con with
  | [] => None
  | r :: rest =>
      match select_max_canonical rest with
      | None => Some (canonical r)
      | Some m => Some (max_text (canonical r) m)
      end
  end.

(** [INSERT INTO types ... VALUES (?,?,?,?)] under the two constraints. *)
Definition insert_type (con : types_table) (r : TypeRow) : result types_table :=
  if existsb (fun r' => String.eqb (token r') (token r)) con then
    Raise (IntegrityError "UNIQUE constraint failed: types.token")
  else if existsb (fun r' => String.eqb (canonical r') (canonical r)) con then
    Raise (IntegrityError "UNIQUE constraint failed: types.canonical")
  else Ok (con ++ [r]).

(** [(int(m.group(1)) if m else 0) + 1] for the highest name [row[0]],
    and [1] for an empty table. *)
Definition bucket_index (name : string) : Z :=
  match trailing_digits name with
  | Some d => Z.of_N (int_of_digits 0 d)
  | None => 0
  end.

Definition next_idx (con : types_table) : Z :=
  match select_max_canonical con with
  | Some name => bucket_index name + 1
  | None => 1
  end.

Definition canonical_name (idx : Z) : string := ("table_" +:+ fmt_02d idx)%string.

Definition overflow_flag (idx : Z) : Z := if MAX_TYPES <? idx then 1 else 0.

(** What one call returns: the bucket, the table after the call, and the
    lines written to stderr. *)
Record Resolved : Type := mkResolved {
  bucket : string;
  table_after : types_table;
  warnings : list string
}.

(** [get_or_alloc_type(con, token)]; [now] is [datetime.utcnow().isoformat()]
    at the time of the call. *)
Definition get_or_alloc_type (con : types_table) (now : string) (tok : string)
  : result Resolved :=
  let tok := sanitize_token tok in
  match select_canonical con tok with
  | Some c => Ok (mkResolved c con [])
  | None =>
      let idx := next_idx con in
      let c := canonical_name idx in
      let ovf := overflow_flag idx in
      let/r con' := insert_type con (mkTypeRow tok c now ovf) in
      Ok (mkResolved c con'
            (if ovf =? 0 then []
             else [("[WARN] Discovered more than " +:+ str_of_Z MAX_TYPES +:+
                    " unique table types; new token '" +:+ tok +:+
                    "' assigned '" +:+ c +:+ "'.")%string]))
  end.

(** Registry states the program can produce: starting from the empty table
    ([init_db] on a fresh database), any number of calls that returned.  A
    call that raised left the table as it was. *)
Inductive reachable : types_table -> Prop :=
| reach_init : reachable []
| reach_call con now tok r :
    reachable con ->
    get_or_alloc_type con now tok = Ok r ->
    reachable (table_after r).

(** Tables that later calls can turn [con] into. *)
Inductive later : types_table -> types_table -> Prop :=
| later_refl con : later con con
| later_call con con' now tok r :
    later con con' ->
    get_or_alloc_type con' now tok = Ok r ->
    later con (table_after r).

(** Resolve a list of tokens one after the other, collecting the buckets;
    the first exception aborts. *)
Fixpoint resolve_all (con : types_table) (now : string) (toks : list string)
  : result (list string * types_table) :=
  match toks with
  | [] => Ok ([], con)
  | t :: rest =>
      let/r r := get_or_alloc_type con now t in
      let/r out := resolve_all (table_after r) now rest in
      Ok (bucket r :: fst out, snd out)
  end.

(** The shape of the tables the program builds: the row inserted by the
    [i]-th allocation carries the [i]-th name and its flag, and there are at
    most 100 rows. *)
Definition nth_row_ok (i : nat) (r : TypeRow) : Prop :=
  canonical r = canonical_name (Z.of_nat (S i)) /\
  overflow r = overflow_flag (Z.of_nat (S i)).

Definition well_formed (con : types_table) : Prop :=
  (length con <= 100)%nat /\
  forall i r, con !! i = Some r -> nth_row_ok i r.

Definition names_upto (n : nat) : list string :=
  map (fun i => canonical_name (Z.of_nat i)) (seq 1 n).

(** [select_max_canonical] seen on the column of names alone. *)
Fixpoint max_of_names (l : list string) : option string :=
  match l with
  | [] => None
  | a :: rest =>
      match max_of_names rest with
      | None => Some a
      | Some m => Some (max_text a m)
      end
  end.

Definition same_name (a b : option string) : bool :=
  match a, b with
  | Some x, Some y => String.eqb x y
  | None, None => true
  | _, _ => false
  end.

(** The name the [ORDER BY canonical DESC] query returns on a table of [n]
    rows: the text order puts ["table_100"] below ["table_99"]. *)
Definition highest_name (n : nat) : option string :=
  match n with
  | O => None
  | _ => Some (canonical_name (Z.of_nat (Nat.min n 99)))
  end.

(** The table a fresh database holds after resolving [toks] in order. *)
Definition table_of_tokens (now : string) (toks : list string) : types_table :=
  match resolve_all [] now toks with
  | Ok (_, con) => con
  | Raise _ => []
  end.

(** Distinct raw tokens used to exercise the registry. *)
Definition sample_tokens (n : nat) : list string :=
  map (fun i => ("tok" +:+ str_of_N (N.of_nat i))%string) (seq 1 n).

End TokenRegistry.

(* ===================================================================== *)
(** * Phase 1: the manifest and the completion check *)
(* ===================================================================== *)

Module Manifest.

(** [@dataclass Task]: unit of work for a single (id, year, month). *)
Record Task : Type := mkTask {
  id : string;
  yyyy : Z;
  mm : Z
}.

(** One row of [manifest], without its key columns.  [None] is SQL [NULL]. *)
Record ManifestRow : Type := mkManifestRow {
  status : string;
  attempts : Z;
  error : option string;
  zip_path : option string;
  zip_sha256 : option string;
  created_at : string;
  updated_at : string
}.

Definition task_key (t : Task) : string * Z * Z := (id t, yyyy t, mm t).

(** The files present on disk. *)
Definition filesystem : Type := gset string.

Definition path_exists (fs : filesystem) (p : string) : bool := bool_decide (p ∈ fs).

(** [set_status(con, t, status, error=, zip_path=, zip_sha256=)]: the attempt
    counter is read first, then the row is upserted; [created_at] survives a
    conflict because the [DO UPDATE] clause leaves it out. *)
Definition set_status (con : gmap (string * Z * Z) ManifestRow) (now : string)
    (t : Task) (st : string) (err path sha : option string)
  : gmap (string * Z * Z) ManifestRow :=
  let n := match con !! task_key t with
           | Some row => attempts row
           | None => 0
           end + 1 in
  match con !! task_key t with
  | Some row =>
      <[task_key t := mkManifestRow st n err path sha (created_at row) now]> con
  | None =>
      <[task_key t := mkManifestRow st n err path sha now now]> con
  end.

(** Truthiness of [row[1]]: [None] and the empty string are false. *)
Definition truthy (s : option string) : bool :=
  match s with
  | Some EmptyString => false
  | Some _ => true
  | None => false
  end.

(** [already_ok(con, t)] =
    [bool(row and row[0] == "ok" and row[1] and Path(row[1]).exists())]. *)
Definition already_ok (con : gmap (string * Z * Z) ManifestRow) (fs : filesystem)
    (t : Task) : bool :=
  match con !! task_key t with
  | None => false
  | Some row =>
      String.eqb (status row) "ok" && truthy (zip_path row) &&
      match zip_path row with
      | Some p => path_exists fs p
      | None => false
      end
  end.

Section ProcessTask.
(** Steps 1 to 4 of [process_task] (download, validate, persist the raw
    archive, walk the members): they touch the registry and the disk,
    never the manifest, and either raise or hand back the final path of
    the archive and its sha256.  What they changed before raising stays. *)
Context {World : Type}.
Variable acquire : Task -> World -> filesystem ->
                   result (string * string) * World * filesystem.
(** [str(e)] *)
Variable str_exn : exn -> string.

Definition process_task (con : gmap (string * Z * Z) ManifestRow)
    (w : World) (fs : filesystem) (now : string) (t : Task)
  : gmap (string * Z * Z) ManifestRow * World * filesystem :=
  if already_ok con fs t then (con, w, fs)
  else
    match acquire t w fs with
    | (Ok (final, sha), w', fs') =>
        (set_status con now t "ok" None (Some final) (Some sha), w', fs')
    | (Raise e, w', fs') =>
        (set_status con now t "failed" (Some (str_exn e)) None None, w', fs')
    end.
End ProcessTask.

End Manifest.

(* ===================================================================== *)
(** * Phase 1: decoding a member's bytes *)
(* ===================================================================== *)

Module Decode.
Local Open Scope N_scope.

(** A decoded text: a list of Unicode code points. *)
Definition text : Type := list N.

Inductive errors_mode : Type := strict | replace.

Definition REPLACEMENT : N := 65533.  (* U+FFFD *)

Definition byte_in (lo hi : N) (b : N) : bool := N.leb lo b && N.leb b hi.

Definition is_cont (b : N) : bool := byte_in 128 191 b.

(** Allowed range of the second byte after lead byte [b0] of a sequence of
    three or four bytes (no overlong forms, no surrogates, nothing above
    U+10FFFF). *)
Definition second_range (b0 : N) : N * N :=
  if N.eqb b0 224 then (160, 191)
  else if N.eqb b0 237 then (128, 159)
  else if N.eqb b0 240 then (144, 191)
  else if N.eqb b0 244 then (128, 143)
  else (128, 191).

Definition second_ok (b0 b1 : N) : bool :=
  byte_in (fst (second_range b0)) (snd (second_range b0)) b1.

(** What the error handler does with an ill-formed subsequence that starts
    at byte offset [pos]: [strict] raises, [replace] emits U+FFFD and lets
    the decoder go on after it. *)
Definition on_error (mode : errors_mode) (pos : nat) (rest : result text)
  : result text :=
  match mode with
  | strict => Raise (UnicodeDecodeError pos)
  | replace => let/r t := rest in Ok (REPLACEMENT :: t)
  end.

(** [bytes.decode("utf-8", errors=mode)].  An ill-formed subsequence ends at
    the first byte that cannot continue it (or at the end of the input). *)
Fixpoint utf8_decode_from (mode : errors_mode) (pos : nat) (bs : list N)
  : result text :=
  match bs with
  | [] => Ok []
  | b0 :: r0 =>
      if N.ltb b0 128 then
        let/r t := utf8_decode_from mode (pos + 1)%nat r0 in Ok (b0 :: t)
      else if byte_in 194 223 b0 then
        match r0 with
        | b1 :: r1 =>
            if is_cont b1 then
              let/r t := utf8_decode_from mode (pos + 2)%nat r1 in
              Ok (((b0 - 192) * 64 + (b1 - 128)) :: t)
            else on_error mode pos (utf8_decode_from mode (pos + 1)%nat r0)
        | [] => on_error mode pos (Ok [])
        end
      else if byte_in 224 239 b0 then
        match r0 with
        | b1 :: r1 =>
            if second_ok b0 b1 then
              match r1 with
              | b2 :: r2 =>
                  if is_cont b2 then
                    let/r t := utf8_decode_from mode (pos + 3)%nat r2 in
                    Ok (((b0 - 224) * 4096 + (b1 - 128) * 64 + (b2 - 128)) :: t)
                  else on_error mode pos (utf8_decode_from mode (pos + 2)%nat r1)
              | [] => on_error mode pos (Ok [])
              end
            else on_error mode pos (utf8_decode_from mode (pos + 1)%nat r0)
        | [] => on_error mode pos (Ok [])
        end
      else if byte_in 240 244 b0 then
        match r0 with
        | b1 :: r1 =>
            if second_ok b0 b1 then
              match r1 with
              | b2 :: r2 =>
                  if is_cont b2 then
                    match r2 with
                    | b3 :: r3 =>
                        if is_cont b3 then
                          let/r t := utf8_decode_from mode (pos + 4)%nat r3 in
                          Ok (((b0 - 240) * 262144 + (b1 - 128) * 4096
                               + (b2 - 128) * 64 + (b3 - 128)) :: t)
                        else on_error mode pos (utf8_decode_from mode (pos + 3)%nat r2)
                    | [] => on_error mode pos (Ok [])
                    end
                  else on_error mode pos (utf8_decode_from mode (pos + 2)%nat r1)
              | [] => on_error mode pos (Ok [])
              end
            else on_error mode pos (utf8_decode_from mode (pos + 1)%nat r0)
        | [] => on_error mode pos (Ok [])
        end
      else on_error mode pos (utf8_decode_from mode (pos + 1)%nat r0)
  end.

Definition utf8_decode (mode : errors_mode) (raw : list N) : result text :=
  utf8_decode_from mode 0 raw.

(** A result that is a value or a [UnicodeDecodeError], nothing else. *)
Definition decode_outcome {A} (r : result A) : Prop :=
  match r with
  | Ok _ => True
  | Raise (UnicodeDecodeError _) => True
  | Raise _ => False
  end.


Section Normalize.
(** The decoding table of the [cp1255] codec (a constant of Python's
    standard library): the code point of each byte, [None] where the code
    page leaves the byte undefined. *)
Variable cp1255_table : N -> option N.

(** [bytes.decode("cp1255")]: a charmap codec with the strict handler. *)
Fixpoint cp1255_decode_from (pos : nat) (bs : list N) : result text :=
  match bs with
  | [] => Ok []
  | b :: r =>
      match cp1255_table b with
      | Some cp => let/r t := cp1255_decode_from (pos + 1)%nat r in Ok (cp :: t)
      | None => Raise (UnicodeDecodeError pos)
      end
  end.

Definition cp1255_decode (raw : list N) : result text := cp1255_decode_from 0 raw.

(** [try ... except UnicodeDecodeError]: other exceptions pass through. *)
Definition except_UnicodeDecodeError {A} (r : result A) (handler : result A)
  : result A :=
  match r with
  | Raise (UnicodeDecodeError _) => handler
  | _ => r
  end.

(** The decoding step of [normalize_and_write_csv]. *)
Definition decode_text (raw_bytes : list N) : result text :=
  except_UnicodeDecodeError (utf8_decode strict raw_bytes)
    (except_UnicodeDecodeError (cp1255_decode raw_bytes)
       (utf8_decode replace raw_bytes)).
End Normalize.

End Decode.

(* ===================================================================== *)
(** * Phase 1: the fabricated archive of the dry-run mode *)
(* ===================================================================== *)

Module Fabricate.
Import Text Manifest.
Local Open Scope N_scope.

(** [time.localtime(time.time())[:6]] *)
Record date_time : Type := mkDateTime {
  year : N; month : N; day : N; hour : N; minute : N; second : N
}.

(** A member as [zipfile] keeps it in its [ZipInfo] list, with its payload. *)
Record ZipInfo : Type := mkZipInfo {
  filename : string;
  zi_date_time : date_time;
  data : list N
}.

(** [ZipInfo.__init__] ends the file name at the first null character. *)
Fixpoint until_nul (s : string) : string :=
  match s with
  | EmptyString => EmptyString
  | String c r => if code c =? 0 then EmptyString else String c (until_nul r)
  end.

(** [str.encode("utf-8")] for code points below 256. *)
Definition utf8_encode_char (c : ascii) : list N :=
  let cp := code c in
  if cp <? 128 then [cp] else [192 + cp / 64; 128 + cp mod 64].

Fixpoint utf8_encode (s : string) : list N :=
  match s with
  | EmptyString => []
  | String c r => utf8_encode_char c ++ utf8_encode r
  end.

(** [struct.pack("<H", n)] and [struct.pack("<L", n)]. *)
Definition le16 (n : N) : result (list N) :=
  if n <? 65536 then Ok [n mod 256; n / 256]
  else Raise (StructError "ushort format requires 0 <= number <= 65535").

Definition le32 (n : N) : result (list N) :=
  if n <? 4294967296 then
    Ok [n mod 256; n / 256 mod 256; n / 65536 mod 256; n / 16777216]
  else Raise (StructError "argument out of range").

(** The two timestamp fields of a header:
    [dosdate = (dt[0] - 1980) << 9 | dt[1] << 5 | dt[2]],
    [dostime = dt[3] << 11 | dt[4] << 5 | (dt[5] // 2)]. *)
Definition dosdate (dt : date_time) : N :=
  N.lor (N.lor (N.shiftl (year dt - 1980) 9) (N.shiftl (month dt) 5)) (day dt).

Definition dostime (dt : date_time) : N :=
  N.lor (N.lor (N.shiftl (hour dt) 11) (N.shiftl (minute dt) 5)) (second dt / 2).

(** [ZipInfo._encodeFilenameFlags]: ASCII when possible, else UTF-8 with
    flag bit 11 set. *)
Definition encode_filename (name : string) : list N * N :=
  if all_string (fun c => code c <? 128) name
  then (utf8_encode name, 0)
  else (utf8_encode name, 2048).

Definition ZIP_DEFLATED : N := 8.
Definition DEFAULT_VERSION : N := 20.

Fixpoint concat_results (l : list (result (list N))) : result (list N) :=
  match l with
  | [] => Ok []
  | r :: rest =>
      let/r a := r in
      let/r b := concat_results rest in
      Ok (a ++ b)
  end.

Section Archive.
(** Python's [random.Random]: the generator seeded from a string, and
    [_randbelow], on which [randint] and [choice] are built. *)
Context {Gen : Type}.
Variable seed : string -> Gen.
Variable randbelow : Gen -> N -> N * Gen.
(** zlib: the raw deflate stream of a payload, and its CRC-32. *)
Variable deflate : list N -> list N.
Variable crc32 : list N -> N.
(** [ZipInfo.create_system]: 0 on Windows, 3 elsewhere. *)
Variable create_system : N.

(** [rng.randint(a, b)] = [a + rng._randbelow(b - a + 1)] *)
Definition randint (g : Gen) (a b : N) : N * Gen :=
  let (k, g') := randbelow g (b - a + 1) in (a + k, g').

(** [rng.choice(seq)] = [seq[rng._randbelow(len(seq))]] *)
Definition choice (g : Gen) (l : list string) : string * Gen :=
  let (k, g') := randbelow g (N.of_nat (length l)) in
  (nth (N.to_nat k) l EmptyString, g').

(** [[f"token_{i:02d}" for i in range(1, 36)]] *)
Definition tokens : list string :=
  map (fun i => ("token_" +:+ fmt_02d (Z.of_nat i))%string) (seq 1 35).

(** One [csv.writer] row of fields that need no quoting. *)
Definition csv_row (fields : list string) : string :=
  (String.concat "," fields +:+ String (ascii_of_N 13) (String (ascii_of_N 10) ""))%string.

(** The three data rows: [[f"A{i}", f"B{i}", rng.randint(1, 100)]]. *)
Fixpoint data_rows (g : Gen) (i : N) (n : nat) : string * Gen :=
  match n with
  | O => (EmptyString, g)
  | S n' =>
      let (v, g1) := randint g 1 100 in
      let (rest, g2) := data_rows g1 (i + 1) n' in
      ((csv_row [("A" +:+ str_of_N i)%string; ("B" +:+ str_of_N i)%string;
                 str_of_N v] +:+ rest)%string, g2)
  end.

(** The body of the [for _ in range(count)] loop, [k] members already
    written; [clock k] is what the wall clock reads when member [k] is
    written ([ZipFile.writestr] called with a name builds the member's
    [ZipInfo] with [date_time=time.localtime(time.time())[:6]]). *)
Fixpoint write_members (clock : nat -> date_time) (t : Task) (g : Gen)
    (k : nat) (count : nat) : list ZipInfo :=
  match count with
  | O => []
  | S count' =>
      let (tok, g1) := choice g tokens in
      let name := (id t +:+ "_" +:+ str_of_Z (yyyy t) +:+ "-" +:+
                   fmt_02d (mm t) +:+ "_" +:+ tok +:+ ".csv")%string in
      let (rows, g2) := data_rows g1 0 3 in
      let sio := (csv_row ["col_a"; "col_b"; "value"]%string +:+ rows)%string in
      mkZipInfo (until_nul name) (clock k) (utf8_encode sio)
        :: write_members clock t g2 (S k) count'
  end.

(** The members the archive is built from. *)
Definition fabricate_members (clock : nat -> date_time) (t : Task) : list ZipInfo :=
  let g := seed (id t +:+ "-" +:+ str_of_Z (yyyy t) +:+ "-" +:+ str_of_Z (mm t))%string in
  let (count, g1) := randint g 1 3 in
  write_members clock t g1 0 (N.to_nat count).

(** [ZipInfo(...)] refuses a year before 1980. *)
Definition check_date_time (dt : date_time) : result unit :=
  if year dt <? 1980 then
    Raise (ValueError "ZIP does not support timestamps before 1980")
  else Ok tt.

(** The fields shared by the local header and the central directory:
    flags, method, time, date, CRC, compressed size, size, name length,
    extra length. *)
Definition common_fields (zi : ZipInfo) : result (list N) :=
  let (name, flags) := encode_filename (filename zi) in
  concat_results
    [le16 flags; le16 ZIP_DEFLATED;
     le16 (dostime (zi_date_time zi)); le16 (dosdate (zi_date_time zi));
     le32 (crc32 (data zi));
     le32 (N.of_nat (length (deflate (data zi))));
     le32 (N.of_nat (length (data zi)));
     le16 (N.of_nat (length name)); le16 0].

(** Local file header ([<4s2B4HL2L2H]), name and compressed payload. *)
Definition local_entry (zi : ZipInfo) : result (list N) :=
  let/r _ := check_date_time (zi_date_time zi) in
  let/r f := common_fields zi in
  Ok ([80; 75; 3; 4; DEFAULT_VERSION; 0] ++ f
      ++ fst (encode_filename (filename zi)) ++ deflate (data zi)).

(** Central directory record ([<4s4B4HL2L5H2L]) of the member whose local
    header starts at [offset]. *)
Definition central_entry (zi : ZipInfo) (offset : N) : result (list N) :=
  let/r f := common_fields zi in
  let/r off := le32 offset in
  Ok ([80; 75; 1; 2; DEFAULT_VERSION; create_system; DEFAULT_VERSION; 0] ++ f
      ++ [0; 0; 0; 0; 0; 0]          (* comment length, disk start, internal attr *)
      ++ [0; 0; 128; 1]              (* external attr: 0o600 << 16 *)
      ++ off
      ++ fst (encode_filename (filename zi))).

(** The local entries in order, and the offset at which each one starts. *)
Fixpoint write_local (zis : list ZipInfo) (offset : N)
  : result (list N * list N) :=
  match zis with
  | [] => Ok ([], [])
  | zi :: rest =>
      let/r e := local_entry zi in
      let/r out := write_local rest (offset + N.of_nat (length e)) in
      Ok (e ++ fst out, offset :: snd out)
  end.

(** The central directory written when the archive is closed. *)
Fixpoint write_central (zis : list ZipInfo) (offsets : list N) : result (list N) :=
  match zis, offsets with
  | zi :: rest, off :: offs =>
      let/r e := central_entry zi off in
      let/r out := write_central rest offs in
      Ok (e ++ out)
  | _, _ => Ok []
  end.

(** End of central directory record ([<4s4H2LH]). *)
Definition end_record (count cd_size cd_offset : N) : result (list N) :=
  let/r c := le16 count in
  let/r sz := le32 cd_size in
  let/r off := le32 cd_offset in
  Ok ([80; 75; 5; 6; 0; 0; 0; 0] ++ c ++ c ++ sz ++ off ++ [0; 0]).

(** [buf.getvalue()] after the [with zipfile.ZipFile(buf, "w", ...)] block. *)
Definition zip_bytes (zis : list ZipInfo) : result (list N) :=
  let/r loc := write_local zis 0 in
  let/r cd := write_central zis (snd loc) in
  let/r eocd := end_record (N.of_nat (length zis)) (N.of_nat (length cd))
                  (N.of_nat (length (fst loc))) in
  Ok (fst loc ++ cd ++ eocd).

(** [fabricate_zip_bytes(t)] *)
Definition fabricate_zip_bytes (clock : nat -> date_time) (t : Task)
  : result (list N) :=
  zip_bytes (fabricate_members clock t).

(** What reaches the archive of a clock reading: whether [zipfile] accepts
    the year, and the two packed fields (seconds in steps of two). *)
Definition dos_stamp (dt : date_time) : bool * N * N :=
  (year dt <? 1980, dosdate dt, dostime dt).

(** Two members that agree on everything that is written out. *)
Definition same_entry (a b : ZipInfo) : Prop :=
  filename a = filename b /\ data a = data b /\
  dos_stamp (zi_date_time a) = dos_stamp (zi_date_time b).

(** [download_zip(t)]: in dry-run mode the archive is fabricated, otherwise
    it is fetched (the retry loop around [requests.get]). *)
Variable fetch : Task -> result (list N).

Definition download_zip (DRY_RUN : bool) (clock : nat -> date_time) (t : Task)
  : result (list N) :=
  if DRY_RUN then fabricate_zip_bytes clock t else fetch t.
End Archive.

End Fabricate.

(* ===================================================================== *)
(** * Phase 2: type inference *)
(* ===================================================================== *)

Module Infer.
Import Text.
Local Open Scope N_scope.

(** A parser consumes a prefix and returns what it read and the rest.  The
    patterns below are the pieces [datetime.strptime] compiles a format
    into; in each alternation a later alternative is a proper prefix of an
    earlier one followed by a digit, so taking the first alternative that
    matches is what the backtracking matcher ends up with. *)
Definition parser : Type := string -> option (N * string).

Definition digit_val (c : ascii) : N := code c - 48.

(** One character in the range [lo]..[hi] (both digits). *)
Definition digit_in (lo hi : N) : parser := fun s =>
  match s with
  | String c r => if in_range lo hi c then Some (digit_val c, r) else None
  | EmptyString => None
  end.

(** Two-digit alternative such as [3[0-1]]. *)
Definition two (lo1 hi1 lo2 hi2 : N) : parser := fun s =>
  match digit_in lo1 hi1 s with
  | Some (a, r) =>
      match digit_in lo2 hi2 r with
      | Some (b, r') => Some (10 * a + b, r')
      | None => None
      end
  | None => None
  end.

Definition orelse (p q : parser) : parser := fun s =>
  match p s with
  | Some x => Some x
  | None => q s
  end.

Definition lit (c : ascii) : parser := fun s =>
  match s with
  | String c' r => if Ascii.eqb c c' then Some (0, r) else None
  | EmptyString => None
  end.

(** [\s] on code points below 256. *)
Definition is_space (c : ascii) : bool :=
  in_range 9 13 c || in_range 28 32 c || N.eqb (code c) 133 || N.eqb (code c) 160.

(** [\s+] *)
Definition spaces1 : parser := fun s =>
  match s with
  | String c r => if is_space c then Some (0, drop_while is_space r) else None
  | EmptyString => None
  end.

(** [%Y]: [\d\d\d\d] *)
Definition dir_Y : parser := fun s =>
  match two 48 57 48 57 s with
  | Some (a, r) =>
      match two 48 57 48 57 r with
      | Some (b, r') => Some (100 * a + b, r')
      | None => None
      end
  | None => None
  end.

(** [%m]: [1[0-2]|0[1-9]|[1-9]] *)
Definition dir_m : parser :=
  orelse (two 49 49 48 50) (orelse (two 48 48 49 57) (digit_in 49 57)).

(** [%d]: [3[0-1]|[1-2]\d|0[1-9]|[1-9]| [1-9]] *)
Definition dir_d : parser :=
  orelse (two 51 51 48 49)
    (orelse (two 49 50 48 57)
       (orelse (two 48 48 49 57)
          (orelse (digit_in 49 57)
             (fun s => match lit " "%char s with
                       | Some (_, r) => digit_in 49 57 r
                       | None => None
                       end)))).

(** [%H]: [2[0-3]|[0-1]\d|\d] *)
Definition dir_H : parser :=
  orelse (two 50 50 48 51) (orelse (two 48 49 48 57) (digit_in 48 57)).

(** [%M]: [[0-5]\d|\d] *)
Definition dir_M : parser := orelse (two 48 53 48 57) (digit_in 48 57).

(** [%S]: [6[0-1]|[0-5]\d|\d] *)
Definition dir_S : parser :=
  orelse (two 54 54 48 49) (orelse (two 48 53 48 57) (digit_in 48 57)).

(** Run the parsers in sequence and collect their values. *)
Fixpoint seq_parsers (ps : list parser) (s : string) : option (list N * string) :=
  match ps with
  | [] => Some ([], s)
  | p :: rest =>
      match p s with
      | Some (v, r) =>
          match seq_parsers rest r with
          | Some (vs, r') => Some (v :: vs, r')
          | None => None
          end
      | None => None
      end
  end.

(** The whole string must be consumed ("unconverted data remains"). *)
Definition parse_all (ps : list parser) (s : string) : option (list N) :=
  match seq_parsers ps s with
  | Some (vs, EmptyString) => Some vs
  | _ => None
  end.

Definition is_leap (y : N) : bool :=
  (N.eqb (y mod 4) 0) && (negb (N.eqb (y mod 100) 0) || N.eqb (y mod 400) 0).

Definition days_in_month (y m : N) : N :=
  if N.eqb m 2 then (if is_leap y then 29 else 28)
  else if N.eqb m 4 || N.eqb m 6 || N.eqb m 9 || N.eqb m 11 then 30
  else 31.

(** What the [datetime] constructor accepts. *)
Definition valid_datetime (y m d hh mi ss : N) : bool :=
  N.leb 1 y && N.leb y 9999 && N.leb 1 m && N.leb m 12 &&
  N.leb 1 d && N.leb d (days_in_month y m) &&
  N.leb hh 23 && N.leb mi 59 && N.leb ss 59.

(** [dt.datetime.strptime(v, fmt)] does not raise, for each of the four
    formats of the loop. *)
Definition strptime_Ymd_dash (v : string) : bool :=
  match parse_all [dir_Y; lit "-"; dir_m; lit "-"; dir_d] v with
  | Some [y; _; m; _; d] => valid_datetime y m d 0 0 0
  | _ => false
  end.

Definition strptime_Ymd_HMS (v : string) : bool :=
  match parse_all [dir_Y; lit "-"; dir_m; lit "-"; dir_d; spaces1;
                   dir_H; lit ":"; dir_M; lit ":"; dir_S] v with
  | Some [y; _; m; _; d; _; hh; _; mi; _; ss] => valid_datetime y m d hh mi ss
  | _ => false
  end.

Definition strptime_Ymd_slash (v : string) : bool :=
  match parse_all [dir_Y; lit "/"; dir_m; lit "/"; dir_d] v with
  | Some [y; _; m; _; d] => valid_datetime y m d 0 0 0
  | _ => false
  end.

Definition strptime_dmY_slash (v : string) : bool :=
  match parse_all [dir_d; lit "/"; dir_m; lit "/"; dir_Y] v with
  | Some [d; _; m; _; y] => valid_datetime y m d 0 0 0
  | _ => false
  end.

(** The inner [for fmt in (...)] loop: [ok] after trying the formats. *)
Definition matches_date (v : string) : bool :=
  strptime_Ymd_dash v || strptime_Ymd_HMS v || strptime_Ymd_slash v
  || strptime_dmY_slash v.

Definition is_sign (c : ascii) : bool :=
  Ascii.eqb c "-"%char || Ascii.eqb c "+"%char.

(** [[-+]?] *)
Definition skip_sign (v : string) : string :=
  match v with
  | String c r => if is_sign c then r else v
  | EmptyString => v
  end.

(** [\d+] to the end of the string. *)
Definition digits1 (s : string) : bool :=
  match s with
  | EmptyString => false
  | _ => all_string is_digit s
  end.

(** [re.fullmatch(r"[-+]?\d+", v)] *)
Definition matches_int (v : string) : bool := digits1 (skip_sign v).

(** [re.fullmatch(r"[-+]?\d+(\.\d+)?", v)] *)
Definition matches_num (v : string) : bool :=
  let s := skip_sign v in
  match take_while is_digit s with
  | EmptyString => false
  | _ =>
      match drop_while is_digit s with
      | EmptyString => true
      | String c frac => Ascii.eqb c "."%char && digits1 frac
      end
  end.

(** The [for v in values] loop of [infer_type] with its three flags. *)
Fixpoint infer_loop (ints nums dates : bool) (values : list string) : string :=
  match values with
  | [] =>
      if ints then "bigint"
      else if nums then "numeric"
      else if dates then "timestamp"
      else "text"
  | v :: rest =>
      if String.eqb v "" then infer_loop ints nums dates rest
      else
        let ints := if ints then matches_int v else false in
        let nums := if nums then matches_num v else false in
        let dates := if dates then matches_date v else false in
        if negb (ints || nums || dates) then "text"
        else infer_loop ints nums dates rest
  end%string.

(** [infer_type(values)] *)
Definition infer_type (values : list string) : string :=
  match values with
  | [] => "text"
  | _ => infer_loop true true true values
  end.

(** Every non-empty value of the sample matches the class [p]. *)
Definition every_value (p : string -> bool) (values : list string) : bool :=
  forallb (fun v => String.eqb v "" || p v) values.

End Infer.

(* ===================================================================== *)
(** * Phase 2: the loader (lineage, staging, schema evolution, merge) *)
(* ===================================================================== *)

Module Loader.
Import Text Infer.

(** One row of [lineage.files]. *)
Record FileRecord : Type := mkFileRecord {
  file_id : Z;
  rel_path : string;
  f_table_name : string;
  f_entity_id : string;
  f_yyyy : Z;
  f_mm : Z;
  f_filename : string;
  file_sha256 : string
}.

(** One row of [staging.rows].  [rec] is the JSON object of the CSV record:
    for each field the text [rec ->> field] (SQL [NULL] for a JSON null). *)
Record StagedRow : Type := mkStagedRow {
  row_id : Z;
  s_file_id : Z;
  row_num : Z;
  s_table_name : string;
  s_entity_id : string;
  s_yyyy : Z;
  s_mm : Z;
  rec : gmap string (option string)
}.

(** One row of a canonical table [public.table_xx].  A cell is the text
    taken from the staged record together with the type it was cast to;
    columns without a cell are [NULL]. *)
Record CanonicalRow : Type := mkCanonicalRow {
  src_file_id : Z;
  src_row_num : Z;
  batch_id : string;
  entity_id : string;
  c_yyyy : Z;
  c_mm : Z;
  cells : list (string * (option string * string))
}.

(** A canonical table: its columns (name, type) in creation order and its
    rows in insertion order.  The tables of schema [public] are those
    [ensure_canonical_table] made: they carry the six lineage columns and no
    constraint besides their [NOT NULL]. *)
Record Table : Type := mkTable {
  columns : list (string * string);
  rows : list CanonicalRow
}.

(** One row of [lineage.schema_registry], without its key
    [(table_name, column_name)]. *)
Record RegistryEntry : Type := mkRegistryEntry {
  data_type : string;
  version : Z;
  added_at : string
}.

(** The database as the open transaction sees it.  [tables] is keyed by the
    name under which the engine keeps the table. *)
Record Db : Type := mkDb {
  files : list FileRecord;
  files_seq : Z;                       (* last value of the [file_id] sequence *)
  staging : list StagedRow;
  staging_seq : Z;                     (* last value of the [row_id] sequence  *)
  tables : gmap string Table;          (* schema [public]                      *)
  schema_registry : gmap (string * string) RegistryEntry
}.

Definition empty_db : Db := mkDb [] 0 [] 0 ∅ ∅.

Definition set_files (db : Db) fs sq : Db :=
  mkDb fs sq (staging db) (staging_seq db) (tables db) (schema_registry db).
Definition set_staging (db : Db) st sq : Db :=
  mkDb (files db) (files_seq db) st sq (tables db) (schema_registry db).
Definition set_tables (db : Db) (ts : gmap string Table) : Db :=
  mkDb (files db) (files_seq db) (staging db) (staging_seq db) ts (schema_registry db).
Definition set_registry (db : Db) (rg : gmap (string * string) RegistryEntry) : Db :=
  mkDb (files db) (files_seq db) (staging db) (staging_seq db) (tables db) rg.
(** The lineage and meta columns every canonical table starts with. *)
Definition reserved : list string :=
  ["src_file_id"; "src_row_num"; "batch_id"; "entity_id"; "yyyy"; "mm"]%string.

Definition is_reserved (key : string) : bool :=
  existsb (String.eqb key) reserved.

Definition base_columns : list (string * string) :=
  [("src_file_id", "bigint"); ("src_row_num", "int"); ("batch_id", "uuid");
   ("entity_id", "text"); ("yyyy", "int"); ("mm", "int")]%string.

(** [register_file]: [INSERT ... ON CONFLICT (file_sha256) DO NOTHING
    RETURNING file_id], then the [SELECT] by hash when nothing came back.
    The sequence advances even when the insert is skipped. *)
Definition register_file (db : Db) (rel table_name entity : string) (y m : Z)
    (fname sha : string) : Z * Db :=
  let nextval := files_seq db + 1 in
  match List.find (fun f => String.eqb (file_sha256 f) sha) (files db) with
  | Some f => (file_id f, set_files db (files db) nextval)
  | None =>
      (nextval,
       set_files db
         (files db ++ [mkFileRecord nextval rel table_name entity y m fname sha])
         nextval)
  end.

(** [SELECT 1 FROM staging.rows WHERE file_id=%s LIMIT 1], [fetchone()]. *)
Definition has_staged_rows (db : Db) (fid : Z) : bool :=
  existsb (fun r => s_file_id r =? fid) (staging db).

Definition staged_rows_of (db : Db) (fid : Z) : list StagedRow :=
  List.filter (fun r => s_file_id r =? fid) (staging db).

(** [load_csv_to_staging]: the records of the [DictReader], numbered from 1;
    the batches of 10000 only group the inserts. *)
Fixpoint stage_records (fid : Z) (table_name entity : string) (y m : Z)
    (i : Z) (seq : Z) (records : list (gmap string (option string)))
  : list StagedRow :=
  match records with
  | [] => []
  | r :: rest =>
      mkStagedRow (seq + 1) fid i table_name entity y m r
        :: stage_records fid table_name entity y m (i + 1) (seq + 1) rest
  end.

Definition load_csv_to_staging (db : Db) (fid : Z) (table_name entity : string)
    (y m : Z) (records : list (gmap string (option string))) : Z * Db :=
  let new := stage_records fid table_name entity y m 1 (staging_seq db) records in
  (Z.of_nat (length new),
   set_staging db (staging db ++ new) (staging_seq db + Z.of_nat (length new))).

(** ** A table name spliced into a statement

    [ensure_canonical_table] and the [INSERT] of the merge put the name
    into the statement text as it is ([public.{table_name}]), so the engine
    reads it as an unquoted identifier: a letter, an underscore or a
    character above ASCII, then letters, digits, underscores, dollar signs
    and characters above ASCII; folded to lower case on [A-Z] and cut to 63
    bytes of UTF-8.  Any other text makes the statement, or the
    [idx_{table_name}_meta] of the index statement after it, fail to parse
    (text crafted to be well-formed SQL in every place it is spliced into
    is left out). *)
Definition ident_start (c : ascii) : bool :=
  is_upper c || is_lower c || Ascii.eqb c "_" || (128 <=? code c)%N.

Definition ident_cont (c : ascii) : bool :=
  ident_start c || is_digit c || Ascii.eqb c "$".

Definition is_identifier (s : string) : bool :=
  match s with
  | String c r => ident_start c && all_string ident_cont r
  | EmptyString => false
  end.

(** The first characters of [s] that fit into [n] bytes of UTF-8. *)
Fixpoint clip_bytes (n : nat) (s : string) : string :=
  match s with
  | EmptyString => EmptyString
  | String c r =>
      let w := if (code c <? 128)%N then 1%nat else 2%nat in
      if (w <=? n)%nat then String c (clip_bytes (n - w) r) else EmptyString
  end.

Definition relation_name (table_name : string) : result string :=
  if is_identifier table_name
  then Ok (clip_bytes 63 (map_string lower table_name))
  else Raise (ProgrammingError "syntax error").

(** [ensure_canonical_table]: [CREATE TABLE IF NOT EXISTS public.{table_name}]
    and the index on it. *)
Definition ensure_canonical_table (db : Db) (table_name : string) : result Db :=
  let/r rel := relation_name table_name in
  match tables db !! rel with
  | Some _ => Ok db
  | None => Ok (set_tables db (<[rel := mkTable base_columns []]> (tables db)))
  end.

(** [discover_keys_for_file]: the distinct field names of the file's staged
    records (the order of a [SELECT DISTINCT] is the engine's choice). *)
Definition discover_keys_for_file (db : Db) (fid : Z) : list string :=
  elements (foldr (fun r acc => dom (rec r) ∪ acc) (∅ : gset string)
              (staged_rows_of db fid)).

(** [sample_types_for_keys]: at most 500 rows that have the key, the [NULL]s
    dropped, then [infer_type]. *)
Definition sample_values (db : Db) (fid : Z) (k : string) : list string :=
  omap (fun r => default None (rec r !! k))
    (take 500 (List.filter (fun r => bool_decide (is_Some (rec r !! k)))
                 (staged_rows_of db fid))).

Definition sample_types_for_keys (db : Db) (fid : Z) (keys : list string)
  : gmap string string :=
  foldl (fun types k => <[k := infer_type (sample_values db fid k)]> types) ∅ keys.

Definition column_names (t : Table) : list string := map fst (columns t).

(** ** [psycopg2.sql]

    The module imports [psycopg2] and [psycopg2.extras] and names
    [psycopg2.sql] by attribute.  The attribute is there once the submodule
    has been imported in the process, which [extras.execute_values] does
    when it is called.  [sql_loaded] tells whether the submodule is
    loaded. *)
Definition psycopg2_sql (sql_loaded : bool) : result unit :=
  if sql_loaded then Ok tt
  else Raise (AttributeError "module 'psycopg2' has no attribute 'sql'").

Inductive Composable : Type :=
| SQL (text : string)
| Identifier (name : string).

(** What the first key that needs a column runs into: the missing
    attribute, or the keyword argument [format] looks for. *)
Definition first_error (sql_loaded : bool) : exn :=
  if sql_loaded then KeyError "t"
  else AttributeError "module 'psycopg2' has no attribute 'sql'".

(** A replacement field of a template: [{}], [{0}] or [{name}]. *)
Inductive field : Type :=
| Auto
| Index (n : nat)
| Named (name : string).

(** [psycopg2.sql.SQL(template).format] with positional arguments [args]
    and keyword arguments [kwargs], the template
    given as the literal texts and fields [string.Formatter.parse] splits
    it into.  A field with a name is looked up in [kwargs]. *)
Fixpoint sql_format (template : list (string * field)) (autonum : option nat)
    (args : list Composable) (kwargs : gmap string Composable)
  : result (list Composable) :=
  match template with
  | [] => Ok []
  | (pre, fld) :: rest =>
      let lit := match pre with EmptyString => [] | _ => [SQL pre] end in
      match fld with
      | Index n =>
          match autonum with
          | Some (S _) =>
              Raise (ValueError
                       "cannot switch from automatic field numbering to manual")
          | _ =>
              match args !! n with
              | Some a =>
                  let/r rv := sql_format rest None args kwargs in
                  Ok (lit ++ a :: rv)
              | None => Raise (IndexError "tuple index out of range")
              end
          end
      | Auto =>
          match autonum with
          | None =>
              Raise (ValueError
                       "cannot switch from manual field numbering to automatic")
          | Some i =>
              match args !! i with
              | Some a =>
                  let/r rv := sql_format rest (Some (S i)) args kwargs in
                  Ok (lit ++ a :: rv)
              | None => Raise (IndexError "tuple index out of range")
              end
          end
      | Named name =>
          match kwargs !! name with
          | Some a =>
              let/r rv := sql_format rest autonum args kwargs in
              Ok (lit ++ a :: rv)
          | None => Raise (KeyError name)
          end
      end
  end.

(** ["ALTER TABLE public.{t} ADD COLUMN {c} {}"] *)
Definition ALTER_TEMPLATE : list (string * field) :=
  [("ALTER TABLE public.", Named "t"); (" ADD COLUMN ", Named "c");
   (" ", Auto)]%string.

(** What executing [ALTER TABLE public."t" ADD COLUMN "c" dt] does (both
    names quoted, so kept as given). *)
Definition alter_table_add_column (db : Db) (table_name c dt : string) : result Db :=
  match tables db !! table_name with
  | None => Raise (ProgrammingError "relation does not exist")
  | Some t =>
      if String.eqb c "" then
        Raise (ProgrammingError "zero-length delimited identifier")
      else if existsb (String.eqb c) (column_names t) then
        Raise (ProgrammingError "column already exists")
      else Ok (set_tables db
                 (<[table_name := mkTable (columns t ++ [(c, dt)]) (rows t)]>
                    (tables db)))
  end.

(** [INSERT INTO lineage.schema_registry ... ON CONFLICT
    (table_name, column_name) DO UPDATE SET data_type=EXCLUDED.data_type]. *)
Definition record_column (db : Db) (now table_name c dt : string) (v : Z) : Db :=
  match schema_registry db !! (table_name, c) with
  | Some e =>
      set_registry db
        (<[(table_name, c) := mkRegistryEntry dt (version e) (added_at e)]>
           (schema_registry db))
  | None =>
      set_registry db
        (<[(table_name, c) := mkRegistryEntry dt v now]> (schema_registry db))
  end.

(** [SELECT column_name FROM information_schema.columns WHERE
    table_schema='public' AND table_name=%s]: the name is a parameter here,
    compared as given with the name the engine keeps. *)
Definition existing_columns (db : Db) (table_name : string) : list string :=
  match tables db !! table_name with
  | Some t => column_names t
  | None => []
  end.

(** A key the loop wants a column for. *)
Definition needs_column (existing : list string) (key : string) : bool :=
  negb (is_reserved key) && negb (existsb (String.eqb key) existing).

(** The [for key in keys] loop of [ensure_columns]; [existing] was read
    once, before the loop, and [version] is the local set to 1.  The
    statement is built, by [format] with three positional arguments,
    before [cur.execute] is called with it. *)
Fixpoint ensure_columns_loop (db : Db) (sql_loaded : bool) (now table_name : string)
    (existing : list string) (v : Z) (keys : list string)
    (sample_types : gmap string string) : result Db :=
  match keys with
  | [] => Ok db
  | key :: rest =>
      if is_reserved key then
        ensure_columns_loop db sql_loaded now table_name existing v rest sample_types
      else if existsb (String.eqb key) existing then
        ensure_columns_loop db sql_loaded now table_name existing v rest sample_types
      else
        let dt := default "text"%string (sample_types !! key) in
        let/r _ := psycopg2_sql sql_loaded in
        let/r _ := sql_format ALTER_TEMPLATE (Some 0%nat)
                     [Identifier table_name; Identifier key; SQL dt] ∅ in
        let/r db1 := alter_table_add_column db table_name key dt in
        let db2 := record_column db1 now table_name key dt v in
        ensure_columns_loop db2 sql_loaded now table_name existing v rest sample_types
  end.

(** [ensure_columns(cur, table_name, keys, sample_types)] *)
Definition ensure_columns (db : Db) (sql_loaded : bool) (now table_name : string)
    (keys : list string) (sample_types : gmap string string) : result Db :=
  let existing := existing_columns db table_name in
  let version := 1 in
  ensure_columns_loop db sql_loaded now table_name existing version keys
    sample_types.

Section Engine.
(** What the store does with the statement of the merge:
    - [json_key c] is the key text that [extras.Json(c)] renders into
      [r.rec ->> ...];
    - [cast_ok ty s] tells whether the text [s] can be cast to [ty];
    - [assign_ok ty col_ty] tells whether a value of type [ty] can be
      stored in a column of type [col_ty]. *)
Variable json_key : string -> string.
Variable cast_ok : string -> string -> bool.
Variable assign_ok : string -> string -> bool.

Definition column_type (t : Table) (c : string) : option string :=
  snd <$> List.find (fun p => String.eqb (fst p) c) (columns t).

(** One projected value [(r.rec ->> key)::ty] headed for column [c]. *)
Definition project_cell (t : Table) (types : gmap string string)
    (r : StagedRow) (c : string) : result (string * (option string * string)) :=
  let ty := default "text"%string (types !! c) in
  match column_type t c with
  | None => Raise (ProgrammingError "column does not exist")
  | Some col_ty =>
      if negb (assign_ok ty col_ty) then
        Raise (ProgrammingError "column and expression types differ")
      else
        match default None (rec r !! json_key c) with
        | None => Ok (c, (None, ty))
        | Some s =>
            if cast_ok ty s then Ok (c, (Some s, ty))
            else Raise (DataError "invalid input syntax")
        end
  end.

Fixpoint project_cells (t : Table) (types : gmap string string)
    (r : StagedRow) (cols : list string)
  : result (list (string * (option string * string))) :=
  match cols with
  | [] => Ok []
  | c :: rest =>
      let/r x := project_cell t types r c in
      let/r xs := project_cells t types r rest in
      Ok (x :: xs)
  end.

(** The [INSERT INTO public.t (...) SELECT ... FROM staging.rows r WHERE
    r.file_id = %s]: one canonical row per staged row of the file. *)
Fixpoint project_rows (t : Table) (types : gmap string string)
    (batch : string) (cols : list string) (rs : list StagedRow)
  : result (list CanonicalRow) :=
  match rs with
  | [] => Ok []
  | r :: rest =>
      let/r cs := project_cells t types r cols in
      let/r out := project_rows t types batch cols rest in
      Ok (mkCanonicalRow (s_file_id r) (row_num r) batch (s_entity_id r)
            (s_yyyy r) (s_mm r) cs :: out)
  end.

(** [merge_file_into_canonical(cur, table_name, file_id, batch_id)]; both
    branches of [if cols:] wrap their statement in [psycopg2.sql.SQL]. *)
Definition merge_file_into_canonical (db : Db) (sql_loaded : bool)
    (now table_name : string) (fid : Z) (batch : string) : result Db :=
  let keys := discover_keys_for_file db fid in
  let types := sample_types_for_keys db fid keys in
  let/r db1 := ensure_columns db sql_loaded now table_name keys types in
  let cols := List.filter (fun k => negb (is_reserved k)) keys in
  let/r _ := psycopg2_sql sql_loaded in
  let/r rel := relation_name table_name in
  match tables db1 !! rel with
  | None => Raise (ProgrammingError "relation does not exist")
  | Some t =>
      let/r new := project_rows t types batch cols (staged_rows_of db1 fid) in
      Ok (set_tables db1
            (<[rel := mkTable (columns t) (rows t ++ new)]> (tables db1)))
  end.

(** A normalized file as the driver meets it: its path, what [parse_path]
    made of it, its content hash and the records its CSV text parses to. *)
Record NormalizedFile : Type := mkNormalizedFile {
  nf_rel : string;
  nf_table_name : string;
  nf_entity_id : string;
  nf_yyyy : Z;
  nf_mm : Z;
  nf_filename : string;
  nf_sha : string;
  nf_records : list (gmap string (option string))
}.

(** The body of the [for csv_path in files] loop of [run], from
    [register_file] to [conn.commit()], and the rows it staged.  Staging at
    least one record calls [extras.execute_values], after which
    [psycopg2.sql] is loaded. *)
Definition load_file (db : Db) (sql_loaded : bool) (now batch : string)
    (f : NormalizedFile) : result (Db * Z) :=
  let (fid, db1) := register_file db (nf_rel f) (nf_table_name f)
                      (nf_entity_id f) (nf_yyyy f) (nf_mm f)
                      (nf_filename f) (nf_sha f) in
  if has_staged_rows db1 fid then
    let/r db2 := ensure_canonical_table db1 (nf_table_name f) in
    let/r db3 := merge_file_into_canonical db2 sql_loaded now (nf_table_name f)
                   fid batch in
    Ok (db3, 0)
  else
    let (staged, db2) := load_csv_to_staging db1 fid (nf_table_name f)
                           (nf_entity_id f) (nf_yyyy f) (nf_mm f)
                           (nf_records f) in
    let sql_loaded := sql_loaded || (0 <? staged) in
    let/r db3 := ensure_canonical_table db2 (nf_table_name f) in
    let/r db4 := merge_file_into_canonical db3 sql_loaded now (nf_table_name f)
                   fid batch in
    Ok (db4, staged).

(** What a pass that raised leaves of committed tables: no row of it, but
    the values drawn from the two sequences (by [register_file] and by the
    staging that ran before the statement that raised) are spent. *)
Definition spent (db : Db) (f : NormalizedFile) : Db :=
  let (fid, db1) := register_file db (nf_rel f) (nf_table_name f)
                      (nf_entity_id f) (nf_yyyy f) (nf_mm f)
                      (nf_filename f) (nf_sha f) in
  let db2 := if has_staged_rows db1 fid then db1
             else (load_csv_to_staging db1 fid (nf_table_name f)
                     (nf_entity_id f) (nf_yyyy f) (nf_mm f) (nf_records f)).2 in
  mkDb (files db) (files_seq db2) (staging db) (staging_seq db2) (tables db)
    (schema_registry db).

(** The loop: each file is committed on its own; an exception is not
    caught, ends the run and rolls back to the last commit.  [based] tells
    whether the tables of [ensure_base] are committed, by an earlier run or
    by an earlier pass of this one; until then they and their sequences
    belong to the open transaction and go with it. *)
Fixpoint load_files (db : Db) (based sql_loaded : bool) (now batch : string)
    (fs : list NormalizedFile) : Db * option exn :=
  match fs with
  | [] => (db, None)
  | f :: rest =>
      match load_file db sql_loaded now batch f with
      | Ok (db', staged) =>
          load_files db' true (sql_loaded || (0 <? staged)) now batch rest
      | Raise e => (if based then spent db f else db, Some e)
      end
  end.

(** The rows of a canonical table ([[]] when the table does not exist). *)
Definition rows_of (db : Db) (table_name : string) : list CanonicalRow :=
  match tables db !! table_name with
  | Some t => rows t
  | None => []
  end.

End Engine.

(** ** The key text of the merge

    [str(extras.Json(c))] is the SQL literal of [json.dumps(c)], so the key
    that [r.rec ->> ...] looks up is the JSON text of the column name, its
    double quotes included. *)
Definition hex_digit (n : N) : ascii :=
  nth (N.to_nat n) (list_ascii_of_string "0123456789abcdef") "0"%char.

Definition json_escape (c : ascii) : string :=
  let n := code c in
  let bs := ascii_of_N 92 in
  if (n =? 34)%N then String bs (String (ascii_of_N 34) EmptyString)
  else if (n =? 92)%N then String bs (String bs EmptyString)
  else if (n =? 8)%N then String bs "b"
  else if (n =? 12)%N then String bs "f"
  else if (n =? 10)%N then String bs "n"
  else if (n =? 13)%N then String bs "r"
  else if (n =? 9)%N then String bs "t"
  else if (n <? 32)%N || (126 <? n)%N then
    String bs ("u00" +:+ String (hex_digit (n / 16)%N)
                           (String (hex_digit (n mod 16)%N) EmptyString))
  else String c EmptyString.

Fixpoint json_body (s : string) : string :=
  match s with
  | EmptyString => EmptyString
  | String c r => json_escape c +:+ json_body r
  end.

(** [json.dumps(s)] for a string. *)
Definition json_dumps (s : string) : string :=
  String (ascii_of_N 34) (json_body s +:+ String (ascii_of_N 34) EmptyString).

(** Two normalized files with the same content, hence the same hash, under
    two months of one entity: one record whose fields are all names of
    lineage columns. *)
Definition sample_records : list (gmap string (option string)) :=
  [ {[ "entity_id"%string := Some "00001"%string;
       "yyyy"%string := Some "2020"%string;
       "mm"%string := Some "03"%string ]} ].

Definition sample_file : NormalizedFile :=
  mkNormalizedFile "data/normalized/table_01/00001/2020/03/00001_2020-03_alpha.csv"
    "table_01" "00001" 2020 3 "00001_2020-03_alpha.csv" "sha-of-alpha"
    sample_records.

Definition sample_copy : NormalizedFile :=
  mkNormalizedFile "data/normalized/table_01/00001/2020/04/00001_2020-04_alpha.csv"
    "table_01" "00001" 2020 4 "00001_2020-04_alpha.csv" "sha-of-alpha"
    sample_records.

(** A file as the first phase fabricates it: [col_a], [col_b], [value]. *)
Definition data_file : NormalizedFile :=
  mkNormalizedFile "data/normalized/table_02/00001/2020/03/00001_2020-03_beta.csv"
    "table_02" "00001" 2020 3 "00001_2020-03_beta.csv" "sha-of-beta"
    [ {[ "col_a"%string := Some "A0"%string; "col_b"%string := Some "B0"%string;
         "value"%string := Some "17"%string ]} ].

(** The pass with the key text of the source.  No pass over the samples
    gets to cast or assign a data column, so the last two arguments are not
    used. *)
Definition sample_load (db : Db) (sql_loaded : bool) (now batch : string)
    (f : NormalizedFile) : result (Db * Z) :=
  load_file json_dumps (fun _ _ => true) String.eqb db sql_loaded now batch f.

Definition db_of (r : result (Db * Z)) : Db :=
  match r with
  | Ok (db, _) => db
  | Raise _ => empty_db
  end.

(** The store after the pass over the sample file, and after the pass over
    its copy later in the same run. *)
Definition after_first_load : Db :=
  db_of (sample_load empty_db false "2024-01-01" "batch-1" sample_file).


End Loader.

(* ===================================================================== *)
(** * Phase 1: the task schedule *)
(* ===================================================================== *)

Module Schedule.
Import Manifest.

(** [months_range(start, end)]: the generator, as the list it yields.
    [divmod] rounds down, as [Z.div] and [Z.modulo] do for the divisor 12. *)
Definition months_range (start end_ : Z * Z) : list (Z * Z) :=
  let '(sy, sm) := start in
  let '(ey, em) := end_ in
  let a := sy * 12 + (sm - 1) in
  let b := ey * 12 + (em - 1) in
  map (fun n => (n / 12, n mod 12 + 1)) (seqZ a (b + 1 - a)).

(** The generator expression of [main]: identifier-major, months inside. *)
Definition all_tasks (IDS : list string) (start end_ : Z * Z) : list Task :=
  flat_map (fun id_ => map (fun ym => mkTask id_ ym.1 ym.2) (months_range start end_))
    IDS.

Section MainLoop.
(** The state the run threads through and what [process_task] does to it. *)
Context {State : Type}.
Variable process : State -> Task -> State.
(** [MAX_TASKS = int(os.getenv("MAX_TASKS", "0"))] *)
Variable MAX_TASKS : Z.

(** The [for t in tasks] loop of [main]:
    [if MAX_TASKS and processed >= MAX_TASKS: break]. *)
Fixpoint main_loop (st : State) (processed : Z) (tasks : list Task) : State * Z :=
  match tasks with
  | [] => (st, processed)
  | t :: rest =>
      if negb (MAX_TASKS =? 0) && (MAX_TASKS <=? processed) then (st, processed)
      else main_loop (process st t) (processed + 1) rest
  end.
End MainLoop.

End Schedule.

(* ===================================================================== *)
(** * Phase 1: the shape of a sanitized token *)
(* ===================================================================== *)

Module TokenShape.
Import Text TokenRegistry.

(** The characters a sanitized token is made of: [[a-z0-9_]]. *)
Definition is_ident_char (c : ascii) : bool :=
  is_lower c || is_digit c || is_underscore c.

Definition starts_with (p : ascii -> bool) (s : string) : bool :=
  match s with
  | String c _ => p c
  | EmptyString => false
  end.

Definition ends_with (p : ascii -> bool) (s : string) : bool :=
  starts_with p (rev_string EmptyString s).

(** No underscore is followed by another one. *)
Fixpoint no_double_underscore (s : string) : bool :=
  match s with
  | EmptyString => true
  | String c r =>
      negb (is_underscore c && starts_with is_underscore r)
      && no_double_underscore r
  end.

(** A safe identifier, as the docstring of [sanitize_token] promises it:
    lower-case letters, digits and single underscores, none of them at
    either end, and no digit in front. *)
Definition safe_identifier (s : string) : Prop :=
  s <> EmptyString /\
  all_string is_ident_char s = true /\
  starts_with is_digit s = false /\
  starts_with is_underscore s = false /\
  ends_with is_underscore s = false /\
  no_double_underscore s = true.

End TokenShape.

(* ===================================================================== *)
(** * Phase 1: fetching and validating an archive *)
(* ===================================================================== *)

Module Acquire.
Import Text.

(** What [requests.get] hands back. *)
Record Response : Type := mkResponse {
  status_code : Z;
  content : list N
}.

(** What the loop of [download_zip] catches: an exception of the transport,
    or the [RuntimeError] it raises itself on a status other than 200. *)
Inductive fetch_exn : Type :=
| TransportError (msg : string)
| RuntimeError (msg : string).

(** How a call of [download_zip] ends, with the attempts after which it
    slept ([time.sleep((2 ** attempt) + random.random())]). *)
Inductive fetched : Type :=
| Returned (body : list N) (slept : list Z)
| Raised (e : fetch_exn) (slept : list Z)
| AssertionFailed.

Section Download.
(** The network: what request number [attempt] meets. *)
Variable get : Z -> Response + fetch_exn.
(** [MAX_RETRIES] (3 in the source) *)
Variable MAX_RETRIES : Z.

(** The [try] block of one attempt. *)
Definition attempt_result (attempt : Z) : list N + fetch_exn :=
  match get attempt with
  | inl r =>
      if status_code r =? 200 then inl (content r)
      else inr (RuntimeError ("HTTP " +:+ str_of_Z (status_code r)))
  | inr e => inr e
  end.

Definition attempt_fails (attempt : Z) : Prop :=
  exists e, attempt_result attempt = inr e.

(** [for attempt in range(1, MAX_RETRIES + 1)], then the [assert] and the
    [raise last_err]. *)
Fixpoint attempt_loop (attempts : list Z) (last_err : option fetch_exn)
    (slept : list Z) : fetched :=
  match attempts with
  | [] =>
      match last_err with
      | Some e => Raised e slept
      | None => AssertionFailed
      end
  | attempt :: rest =>
      match attempt_result attempt with
      | inl body => Returned body slept
      | inr e =>
          attempt_loop rest (Some e)
            (if attempt <? MAX_RETRIES then slept ++ [attempt] else slept)
      end
  end.

(** The part of [download_zip] after the dry-run and import checks. *)
Definition fetch_with_retry : fetched :=
  attempt_loop (seqZ 1 MAX_RETRIES) None [].
End Download.

(** [buf.startswith(b"PK\x03\x04")] *)
Definition has_zip_magic (buf : list N) : bool :=
  match buf with
  | b0 :: b1 :: b2 :: b3 :: _ =>
      (b0 =? 80)%N && (b1 =? 75)%N && (b2 =? 3)%N && (b3 =? 4)%N
  | _ => false
  end.

Section Validate.
(** [zipfile.ZipFile(io.BytesIO(buf))] and [zf.testzip()], which names the
    first member whose CRC fails. *)
Context {ZipFile : Type}.
Variable open_zipfile : list N -> result ZipFile.
Variable testzip : ZipFile -> option string.

(** [safe_open_zip(buf)]; [if bad:] is false for [None] and for an empty
    name. *)
Definition safe_open_zip (buf : list N) : result ZipFile :=
  if negb (has_zip_magic buf) then
    Raise (ValueError "Not a ZIP (bad magic bytes)")
  else
    let/r zf := open_zipfile buf in
    match testzip zf with
    | Some (String c r) =>
        Raise (ValueError ("ZIP CRC failed for member: " +:+ String c r))
    | _ => Ok zf
    end.
End Validate.

End Acquire.

(* ===================================================================== *)
(** * Phase 1: successive attempts on one task *)
(* ===================================================================== *)

Module Attempts.
Import Manifest.

(** The arguments of one call of [set_status] for a given task. *)
Record StatusUpdate : Type := mkStatusUpdate {
  u_now : string;
  u_status : string;
  u_error : option string;
  u_zip_path : option string;
  u_zip_sha256 : option string
}.

(** The calls of [set_status] for task [t], one after the other. *)
Definition record_attempts (con : gmap (string * Z * Z) ManifestRow) (t : Task)
    (us : list StatusUpdate) : gmap (string * Z * Z) ManifestRow :=
  foldl (fun c u =>
           set_status c (u_now u) t (u_status u) (u_error u) (u_zip_path u)
             (u_zip_sha256 u))
    con us.

End Attempts.

(* ===================================================================== *)
(** * Phase 2: the path of a normalized file *)
(* ===================================================================== *)

Module Paths.
Import Text Infer.

(** The whitespace [int] skips around a literal: the ASCII characters tab
    to carriage return and the blank (the separators 0x1c to 0x1f are not
    among them), and the spaces above ASCII, which [int] turns into blanks
    first (below 256: U+0085 and U+00A0). *)
Definition is_int_space (c : ascii) : bool :=
  in_range 9 13 c || N.eqb (code c) 32 || N.eqb (code c) 133
  || N.eqb (code c) 160.

(** Stripping a set of characters from the left and from the right. *)
Definition lstrip (p : ascii -> bool) (s : string) : string := drop_while p s.

Fixpoint rstrip (p : ascii -> bool) (s : string) : string :=
  match s with
  | EmptyString => EmptyString
  | String c r =>
      match rstrip p r with
      | EmptyString => if p c then EmptyString else String c EmptyString
      | r' => String c r'
      end
  end.

Definition starts_with_space (s : string) : bool :=
  match s with
  | String c _ => is_int_space c
  | EmptyString => false
  end.

(** The digits of an [int] literal after the first one: single underscores
    may sit between digits. *)
Fixpoint int_body (acc : N) (after_underscore : bool) (s : string) : option N :=
  match s with
  | EmptyString => if after_underscore then None else Some acc
  | String c r =>
      if is_digit c then int_body (10 * acc + (code c - 48)) false r
      else if Ascii.eqb c underscore then
             if after_underscore then None else int_body acc true r
           else None
  end.

Definition int_unsigned (s : string) : option N :=
  match s with
  | String c r => if is_digit c then int_body (code c - 48) false r else None
  | EmptyString => None
  end.

(** [int(s)] for a string [s]: surrounding whitespace, an optional sign, a
    decimal literal.  [None] is the [ValueError]. *)
Definition py_int (s : string) : option Z :=
  let s := rstrip is_int_space (lstrip is_int_space s) in
  match s with
  | String c r =>
      if Ascii.eqb c "-"%char then (fun n => - Z.of_N n) <$> int_unsigned r
      else if Ascii.eqb c "+"%char then Z.of_N <$> int_unsigned r
      else Z.of_N <$> int_unsigned s
  | EmptyString => None
  end.

(** What [parse_path] raises. *)
Inductive path_exn : Type :=
| BadBasePath                       (* ValueError: no "normalized" component *)
| IndexError                        (* tuple index out of range              *)
| InvalidLiteral (s : string).      (* ValueError of [int]                   *)

(** [parts.index("normalized")] *)
Fixpoint index_of (x : string) (parts : list string) : option nat :=
  match parts with
  | [] => None
  | p :: rest =>
      if String.eqb p x then Some O else S <$> index_of x rest
  end.

(** [parse_path(p)] on [p.parts]; the components are read in the order of
    the source, so the first problem met decides the exception. *)
Definition parse_path (parts : list string)
  : (string * string * Z * Z * string) + path_exn :=
  match index_of "normalized" parts with
  | None => inr BadBasePath
  | Some i =>
      match parts !! (i + 1)%nat with
      | None => inr IndexError
      | Some table_name =>
          match parts !! (i + 2)%nat with
          | None => inr IndexError
          | Some entity_id =>
              match parts !! (i + 3)%nat with
              | None => inr IndexError
              | Some ys =>
                  match py_int ys with
                  | None => inr (InvalidLiteral ys)
                  | Some yyyy =>
                      match parts !! (i + 4)%nat with
                      | None => inr IndexError
                      | Some ms =>
                          match py_int ms with
                          | None => inr (InvalidLiteral ms)
                          | Some mm =>
                              match parts !! (i + 5)%nat with
                              | None => inr IndexError
                              | Some filename =>
                                  inl (table_name, entity_id, yyyy, mm, filename)
                              end
                          end
                      end
                  end
              end
          end
      end
  end.

(** The components of the path [normalize_and_write_csv] writes to,
    [NORM / canonical_type / id_ / f"{yyyy:04d}" / f"{mm:02d}" / name], when
    the bucket, the identifier and the name are plain path components. *)
Definition normalized_parts (canonical_type id_ : string) (yyyy mm : Z)
    (name : string) : list string :=
  ["data"; "normalized"; canonical_type; id_; fmt_04d yyyy; fmt_02d mm; name]%string.

End Paths.

(* ===================================================================== *)
(** * Phase 2: staging in batches, and what the store keeps true *)
(* ===================================================================== *)

Module Staging.
Import Loader.

(** The tuple [load_csv_to_staging] appends to [rows] for record number
    [i]; the file's own columns are the same in every tuple. *)
Fixpoint numbered (i : Z) (records : list (gmap string (option string)))
  : list (Z * gmap string (option string)) :=
  match records with
  | [] => []
  | r :: rest => (i, r) :: numbered (i + 1) rest
  end.

(** The rows one [INSERT INTO staging.rows ... VALUES %s] adds, the
    [row_id]s drawn from the sequence in order. *)
Fixpoint insert_rows (fid : Z) (table_name entity : string) (y m : Z) (seq : Z)
    (rows : list (Z * gmap string (option string))) : list StagedRow :=
  match rows with
  | [] => []
  | (i, r) :: rest =>
      mkStagedRow (seq + 1) fid i table_name entity y m r
        :: insert_rows fid table_name entity y m (seq + 1) rest
  end.

(** [extras.execute_values(cur, "INSERT INTO staging.rows(...) VALUES %s", rows)] *)
Definition execute_values (db : Db) (fid : Z) (table_name entity : string)
    (y m : Z) (rows : list (Z * gmap string (option string))) : Db :=
  set_staging db
    (staging db ++ insert_rows fid table_name entity y m (staging_seq db) rows)
    (staging_seq db + Z.of_nat (length rows)).

(** The [for i, rec in enumerate(reader, start=1)] loop with its buffer
    [rows], flushed when it holds 10000 tuples, and the flush after the
    loop. *)
Fixpoint staging_loop (fid : Z) (table_name entity : string) (y m : Z)
    (i : Z) (reader : list (gmap string (option string)))
    (rows : list (Z * gmap string (option string))) (count : Z) (db : Db)
  : Z * Db :=
  match reader with
  | [] =>
      match rows with
      | [] => (count, db)
      | _ => (count + Z.of_nat (length rows),
              execute_values db fid table_name entity y m rows)
      end
  | r :: rest =>
      let rows := rows ++ [(i, r)] in
      if 10000 <=? Z.of_nat (length rows) then
        staging_loop fid table_name entity y m (i + 1) rest []
          (count + Z.of_nat (length rows))
          (execute_values db fid table_name entity y m rows)
      else
        staging_loop fid table_name entity y m (i + 1) rest rows count db
  end.

(** [load_csv_to_staging] with its batches. *)
Definition load_csv_to_staging_batched (db : Db) (fid : Z)
    (table_name entity : string) (y m : Z)
    (records : list (gmap string (option string))) : Z * Db :=
  staging_loop fid table_name entity y m 1 records [] 0 db.

(** [lineage.files]: hashes and ids are unique, ids come from the sequence
    (which starts at 0 and only grows). *)
Definition files_wf (db : Db) : Prop :=
  NoDup (map file_sha256 (files db)) /\
  NoDup (map file_id (files db)) /\
  0 <= files_seq db /\
  forall f, In f (files db) -> 1 <= file_id f <= files_seq db.

(** Every staged row belongs to a registered file, and every canonical row
    to a registered file and to the staged row it was projected from. *)
Definition lineage_complete (db : Db) : Prop :=
  (forall s, In s (staging db) ->
     exists f, In f (files db) /\ file_id f = s_file_id s) /\
  (forall t tb r, tables db !! t = Some tb -> In r (rows tb) ->
     (exists f, In f (files db) /\ file_id f = src_file_id r) /\
     (exists s, In s (staging db) /\ s_file_id s = src_file_id r /\
                row_num s = src_row_num r)).

End Staging.

(* ===================================================================== *)
(** * Phase 2: what a sample is made of *)
(* ===================================================================== *)

Module InferShape.
Import Text Infer.
Local Open Scope N_scope.

(** The values [infer_type] looks at: the loop skips the empty ones. *)
Definition non_empty (values : list string) : list string :=
  List.filter (fun v => negb (String.eqb v "")) values.

(** The characters of an unsigned decimal number. *)
Definition is_num_char (c : ascii) : bool := is_digit c || Ascii.eqb c ".".

(** A parser that hands back a suffix of its input. *)
Definition consumes (p : parser) : Prop :=
  forall q s n r, p s = Some (n, r) -> all_string q s = true -> all_string q r = true.

(** What a date starts with: a digit, or the blank that [%d] admits in
    front of a single digit. *)
Definition date_start (s : string) : bool :=
  match s with
  | String c _ => is_digit c || Ascii.eqb c " "
  | EmptyString => false
  end.

End InferShape.

(* ===================================================================== *)
(** * Phase 1: the text of a payload *)
(* ===================================================================== *)

Module Payload.
Import Text.

(** The code points of a string. *)
Definition codes (s : string) : list N := map code (list_ascii_of_string s).

End Payload.

(* ===================================================================== *)
(** * Phase 1: reading a member's name *)
(* ===================================================================== *)

Module Members.
Import Text TokenRegistry Manifest.

(** The class [[A-Za-z0-9_\-]] (under [re.I] the same class on code points
    below 256). *)
Definition is_table_char (c : ascii) : bool :=
  is_upper c || is_lower c || is_digit c || is_underscore c || Ascii.eqb c "-".

(** [.] without [re.S]: any character but a newline. *)
Definition is_dot (c : ascii) : bool := negb (Ascii.eqb c newline).

(** The groups of a match of [FNAME_RE]. *)
Record FnameMatch : Type := mkFnameMatch {
  g_id : string;
  g_yyyy : string;
  g_mm : string;
  g_table : string
}.

(** [FNAME_RE] is
    [(?P<id>\d+).*?(?P<yyyy>20\d{2}).*?(?P<mm>\d{1,2}).*?(?P<table>[A-Za-z0-9_\-]+)].
    The matcher backtracks: a greedy piece tries its longest reading first,
    a lazy [.*?] its shortest.  Each function below is the pattern from one
    piece to its end, tried at the head of the string it is given.

    [.*?(?P<table>[A-Za-z0-9_\-]+)]: the group starts at the first
    character of the class, and being last and greedy it takes the whole
    run; the characters skipped before it must match [.]. *)
Fixpoint lazy_table (s : string) : option string :=
  match s with
  | EmptyString => None
  | String c r =>
      if is_table_char c then Some (take_while is_table_char s)
      else if is_dot c then lazy_table r
      else None
  end.

(** [(?P<mm>\d{1,2}).*?(?P<table>...)]: two digits first, one digit when
    the rest does not match after two. *)
Definition mm_table (s : string) : option (string * string) :=
  match s with
  | String a r1 =>
      if is_digit a then
        let one := match lazy_table r1 with
                   | Some t => Some (String a EmptyString, t)
                   | None => None
                   end in
        match r1 with
        | String b r2 =>
            if is_digit b then
              match lazy_table r2 with
              | Some t => Some (String a (String b EmptyString), t)
              | None => one
              end
            else one
        | EmptyString => one
        end
      else None
  | EmptyString => None
  end.

(** [.*?(?P<mm>\d{1,2}).*?(?P<table>...)] *)
Fixpoint lazy_mm (s : string) : option (string * string) :=
  match mm_table s with
  | Some x => Some x
  | None =>
      match s with
      | String c r => if is_dot c then lazy_mm r else None
      | EmptyString => None
      end
  end.

(** [(?P<yyyy>20\d{2}).*?(?P<mm>...)...] *)
Definition yyyy_rest (s : string) : option (string * (string * string)) :=
  match s with
  | String a (String b (String c (String d r))) =>
      if Ascii.eqb a "2" && Ascii.eqb b "0" && is_digit c && is_digit d then
        match lazy_mm r with
        | Some x => Some (String a (String b (String c (String d EmptyString))), x)
        | None => None
        end
      else None
  | _ => None
  end.

(** [.*?(?P<yyyy>20\d{2})...] *)
Fixpoint lazy_yyyy (s : string) : option (string * (string * string)) :=
  match yyyy_rest s with
  | Some x => Some x
  | None =>
      match s with
      | String c r => if is_dot c then lazy_yyyy r else None
      | EmptyString => None
      end
  end.

(** The whole pattern at the head of [s]: [(?P<id>\d+)] takes the longest
    run of digits after which the rest matches. *)
Fixpoint match_here (s : string) : option FnameMatch :=
  match s with
  | String c r =>
      if is_digit c then
        match match_here r with
        | Some m => Some (mkFnameMatch (String c (g_id m)) (g_yyyy m) (g_mm m)
                            (g_table m))
        | None =>
            match lazy_yyyy r with
            | Some (y, (m, t)) => Some (mkFnameMatch (String c EmptyString) y m t)
            | None => None
            end
        end
      else None
  | EmptyString => None
  end.

(** [FNAME_RE.search(name)]: the match at the leftmost position that has
    one. *)
Fixpoint FNAME_RE_search (name : string) : option FnameMatch :=
  match match_here name with
  | Some m => Some m
  | None =>
      match name with
      | String _ r => FNAME_RE_search r
      | EmptyString => None
      end
  end.

(** [s.split("_")[-1]]: what follows the last underscore. *)
Definition last_piece (s : string) : string :=
  rev_string EmptyString
    (take_while (fun c => negb (is_underscore c)) (rev_string EmptyString s)).

Section Member.
(** [Path(name).stem] *)
Variable stem : string -> string.

(** The part of the member loop of [process_task] that reads [id_],
    [yyyy], [mm] and [token] off [name = Path(info.filename).name]. *)
Definition member_fields (t : Task) (name : string) : string * Z * Z * string :=
  match FNAME_RE_search name with
  | Some m =>
      (g_id m, Z.of_N (int_of_digits 0 (g_yyyy m)),
       Z.of_N (int_of_digits 0 (g_mm m)), sanitize_token (g_table m))
  | None =>
      (id t, yyyy t, mm t, sanitize_token (last_piece (stem name)))
  end.
End Member.

(** What the groups of a match look like: a run of digits, [20] and two
    digits, one or two digits, a run of characters of the token class. *)
Definition well_shaped (m : FnameMatch) : Prop :=
  g_id m <> EmptyString /\ all_string is_digit (g_id m) = true /\
  (exists c d, is_digit c = true /\ is_digit d = true /\
     g_yyyy m = String "2" (String "0" (String c (String d EmptyString)))) /\
  (exists a, is_digit a = true /\
     (g_mm m = String a EmptyString \/
      exists b, is_digit b = true /\ g_mm m = String a (String b EmptyString))) /\
  g_table m <> EmptyString /\ all_string is_table_char (g_table m) = true.

(** The name [fabricate_zip_bytes] gives a member:
    [f"{t.id}_{t.yyyy}-{t.mm:02d}_{tok}.csv"]. *)
Definition member_name (t : Task) (tok : string) : string :=
  (id t +:+ "_" +:+ str_of_Z (yyyy t) +:+ "-" +:+ fmt_02d (mm t) +:+ "_" +:+
   tok +:+ ".csv")%string.

(** Checks run over the finitely many years, months and tokens of the
    fabricated names. *)
Definition year_reads_back (y : Z) : bool :=
  match str_of_Z y with
  | String a (String b (String c (String d EmptyString))) =>
      Ascii.eqb a "2" && Ascii.eqb b "0" && is_digit c && is_digit d
      && (Z.of_N (int_of_digits 0 (str_of_Z y)) =? y)
  | _ => false
  end.

Definition month_reads_back (m : Z) : bool :=
  match fmt_02d m with
  | String a (String b EmptyString) =>
      is_digit a && is_digit b && (Z.of_N (int_of_digits 0 (fmt_02d m)) =? m)
  | _ => false
  end.

Definition token_reads_back (tok : string) : bool :=
  match lazy_table ("_" +:+ tok +:+ ".csv") with
  | Some t => String.eqb (sanitize_token t) tok
  | None => false
  end.

End Members.

(* ===================================================================== *)
(** * Phase 1: the overflow summary *)
(* ===================================================================== *)

Module Summary.
Import Text TokenRegistry.

(** SQLite's default text order on names. *)
Definition text_leb (a b : string) : bool :=
  match String.compare a b with
  | Gt => false
  | _ => true
  end.

(** [ORDER BY canonical] on the selected pairs [(canonical, token)]. *)
Definition by_canonical (x y : string * string) : Prop :=
  Is_true (text_leb x.1 y.1).

#[global] Instance by_canonical_dec x y : Decision (by_canonical x y).
Proof. unfold by_canonical. apply _. Defined.

(** [SELECT canonical, token FROM types WHERE overflow=1 ORDER BY canonical] *)
Definition select_overflow (con : types_table) : list (string * string) :=
  merge_sort by_canonical
    (map (fun r => (canonical r, token r))
       (List.filter (fun r => overflow r =? 1) con)).

(** [f"{c:<9}"]: left-justified in a field of nine characters. *)
Definition ljust (width : nat) (s : string) : string :=
  (s +:+ String.string_of_list_ascii
           (repeat " "%char (width - String.length s)))%string.

(** [print_overflow_summary(con)]: the lines written to stderr. *)
Definition print_overflow_summary (con : types_table) : list string :=
  match select_overflow con with
  | [] => []
  | rows =>
      ("[WARN] " +:+ str_of_Z (Z.of_nat (length rows)) +:+
       " type(s) beyond the first " +:+ str_of_Z MAX_TYPES +:+ " detected:")%string
      :: map (fun ct => ("  " +:+ ljust 9 ct.1 +:+ "  (from token: " +:+ ct.2
                         +:+ ")")%string) rows
  end.

End Summary.

(* ===================================================================== *)
(** * Facts about the text helpers *)
(* ===================================================================== *)

Module TextFacts.
Import Text.
Local Open Scope N_scope.

Lemma append_assoc (a b c : string) : ((a +:+ b) +:+ c = a +:+ (b +:+ c))%string.
Proof. induction a as [|x a IH]; simpl; [reflexivity | now rewrite IH]. Qed.

Lemma append_empty_r (a : string) : (a +:+ EmptyString)%string = a.
Proof. induction a as [|x a IH]; simpl; [reflexivity | now rewrite IH]. Qed.

Lemma rev_string_app acc a b :
  rev_string acc (a +:+ b) = rev_string (rev_string acc a) b.
Proof. revert acc; induction a as [|c a IH]; intros acc; simpl; auto. Qed.

Lemma rev_string_acc acc s :
  rev_string acc s = (rev_string EmptyString s +:+ acc)%string.
Proof.
  revert acc; induction s as [|c s IH]; intros acc; simpl; auto.
  rewrite IH, (IH (String c EmptyString)).
  now rewrite append_assoc.
Qed.

Lemma rev_string_involutive s :
  rev_string EmptyString (rev_string EmptyString s) = s.
Proof.
  induction s as [|c s IH]; simpl; auto.
  rewrite (rev_string_acc (String c EmptyString) s), rev_string_app, IH.
  reflexivity.
Qed.

Lemma all_string_app p a b :
  all_string p (a +:+ b) = all_string p a && all_string p b.
Proof.
  induction a as [|c a IH]; simpl; auto.
  now rewrite IH, andb_assoc.
Qed.

Lemma all_string_rev p s :
  all_string p (rev_string EmptyString s) = all_string p s.
Proof.
  induction s as [|c s IH]; simpl; auto.
  rewrite (rev_string_acc (String c EmptyString) s), all_string_app, IH. simpl.
  rewrite andb_true_r. apply andb_comm.
Qed.

(** A run of [p]-characters followed by a character outside [p] is what
    [take_while] returns. *)
Lemma take_while_stop p a c b :
  all_string p a = true -> p c = false ->
  take_while p (a +:+ String c b) = a.
Proof.
  intros Ha Hc. induction a as [|x a IH]; simpl in *.
  - now rewrite Hc.
  - apply andb_true_iff in Ha as [Hx Ha]. rewrite Hx. f_equal. auto.
Qed.

Lemma string_of_uint_digits d :
  all_string is_digit (NilEmpty.string_of_uint d) = true.
Proof. induction d; simpl; auto. Qed.

Lemma str_of_N_digits n : all_string is_digit (str_of_N n) = true.
Proof. apply string_of_uint_digits. Qed.

Lemma string_of_uint_nonempty d :
  d <> Decimal.Nil -> NilEmpty.string_of_uint d <> EmptyString.
Proof. destruct d; simpl; congruence. Qed.

Lemma str_of_N_nonempty n : str_of_N n <> EmptyString.
Proof.
  unfold str_of_N. apply string_of_uint_nonempty.
  destruct n; simpl; [discriminate | apply Unsigned.to_uint_nonnil].
Qed.

Lemma int_of_digits_acc d acc :
  int_of_digits (Npos acc) (NilEmpty.string_of_uint d)
  = Npos (Pos.of_uint_acc d acc).
Proof.
  revert acc; induction d; intros acc; simpl; auto;
    match goal with
    | |- int_of_digits ?x _ = N.pos (Pos.of_uint_acc _ ?p) =>
        replace x with (N.pos p) by lia
    end; apply IHd.
Qed.

Lemma int_of_digits_uint d :
  int_of_digits 0 (NilEmpty.string_of_uint d) = Pos.of_uint d.
Proof.
  induction d; simpl; auto;
    match goal with
    | |- int_of_digits ?x _ = _ =>
        let y := eval vm_compute in x in change x with y
    end; auto; apply int_of_digits_acc.
Qed.

(** [int(str(n)) = n] *)
Lemma int_of_str_of_N n : int_of_digits 0 (str_of_N n) = n.
Proof.
  unfold str_of_N. rewrite int_of_digits_uint.
  destruct n; [reflexivity | apply DecimalPos.Unsigned.of_to].
Qed.

End TextFacts.

(* ===================================================================== *)
(** * Facts about the token registry *)
(* ===================================================================== *)

Module TokenRegistryFacts.
Import Text TextFacts TokenRegistry.

(** The digits [fmt_02d] prints for a natural number. *)
Lemma fmt_02d_digits idx :
  0 <= idx ->
  all_string is_digit (fmt_02d idx) = true /\
  fmt_02d idx <> EmptyString /\
  int_of_digits 0 (fmt_02d idx) = Z.to_N idx.
Proof.
  intros H. unfold fmt_02d.
  destruct (Z.ltb_spec idx 0) as [?|_]; [lia|].
  pose proof (str_of_N_digits (Z.to_N idx)) as Hd.
  pose proof (str_of_N_nonempty (Z.to_N idx)) as Hn.
  pose proof (int_of_str_of_N (Z.to_N idx)) as Hi.
  destruct (String.length (str_of_N (Z.to_N idx)) <? 2)%nat; simpl;
    repeat split; auto; discriminate.
Qed.

Lemma digit_not_newline c : is_digit c = true -> Ascii.eqb c newline = false.
Proof.
  intros H. destruct (Ascii.eqb_spec c newline) as [E|];
    [subst c; vm_compute in H; discriminate | reflexivity].
Qed.

Lemma digit_not_underscore : is_digit underscore = false.
Proof. reflexivity. Qed.

Lemma strip_final_newline_digits r rest :
  all_string is_digit r = true -> r <> EmptyString ->
  strip_final_newline_rev (r +:+ rest) = (r +:+ rest)%string.
Proof.
  destruct r as [|c r]; [congruence|]. simpl. intros H _.
  apply andb_true_iff in H as [Hc _]. now rewrite (digit_not_newline c Hc).
Qed.

(** The regular expression finds the digits back behind a prefix that ends
    in an underscore. *)
Lemma trailing_digits_after_underscore pre ds :
  all_string is_digit ds = true -> ds <> EmptyString ->
  trailing_digits (pre +:+ String underscore ds) = Some ds.
Proof.
  intros Hd Hn. unfold trailing_digits.
  rewrite rev_string_app.
  change (rev_string (rev_string EmptyString pre) (String underscore ds))
    with (rev_string (String underscore (rev_string EmptyString pre)) ds).
  rewrite (rev_string_acc (String underscore _) ds).
  assert (Hr : all_string is_digit (rev_string EmptyString ds) = true)
    by now rewrite all_string_rev.
  assert (Hrn : rev_string EmptyString ds <> EmptyString).
  { intros E. apply Hn. rewrite <- (rev_string_involutive ds), E. reflexivity. }
  rewrite strip_final_newline_digits by assumption.
  rewrite take_while_stop by (auto using digit_not_underscore).
  destruct (rev_string EmptyString ds) as [|c r] eqn:E; [congruence|].
  rewrite <- E, rev_string_involutive. reflexivity.
Qed.

(** Parsing a bucket name gives back the index it was built from. *)
Lemma bucket_index_canonical_name idx :
  0 <= idx -> bucket_index (canonical_name idx) = idx.
Proof.
  intros H. destruct (fmt_02d_digits idx H) as (Hd & Hn & Hi).
  unfold bucket_index, canonical_name.
  change ("table_" +:+ fmt_02d idx)%string
    with ("table" +:+ String underscore (fmt_02d idx))%string.
  rewrite trailing_digits_after_underscore by assumption.
  rewrite Hi. lia.
Qed.

Lemma canonical_name_inj i j :
  0 <= i -> 0 <= j -> canonical_name i = canonical_name j -> i = j.
Proof.
  intros Hi Hj E.
  rewrite <- (bucket_index_canonical_name i Hi), <- (bucket_index_canonical_name j Hj).
  now rewrite E.
Qed.

(** The sanitizer on a few file-name tokens; the driver hands over tokens
    it has sanitized already, and sanitizing those again changes nothing. *)
Example sanitize_token_examples :
  sanitize_token "Table-XYZ__a" = "table_xyz_a"%string /\
  sanitize_token "__" = "table"%string /\
  sanitize_token "9lives" = "t_9lives"%string /\
  sanitize_token "_token_05" = "token_05"%string /\
  map sanitize_token ["table_xyz_a"; "table"; "t_9lives"; "token_05"]%string
    = ["table_xyz_a"; "table"; "t_9lives"; "token_05"]%string.
Proof. repeat split; reflexivity. Qed.

(** ** Lookups *)

Lemma select_canonical_app_some con extra tok c :
  select_canonical con tok = Some c ->
  select_canonical (con ++ extra) tok = Some c.
Proof.
  induction con as [|r con IH]; simpl; [discriminate|].
  destruct (String.eqb (token r) tok); auto.
Qed.

Lemma select_canonical_app_none con extra tok :
  select_canonical con tok = None ->
  select_canonical (con ++ extra) tok = select_canonical extra tok.
Proof.
  induction con as [|r con IH]; simpl; auto.
  destruct (String.eqb (token r) tok); [discriminate | auto].
Qed.

Lemma select_canonical_none_existsb con tok :
  select_canonical con tok = None ->
  existsb (fun r' => String.eqb (token r') tok) con = false.
Proof.
  induction con as [|r con IH]; simpl; auto.
  destruct (String.eqb (token r) tok); [discriminate | auto].
Qed.

(** What a call does, case by case. *)
Lemma get_or_alloc_type_found con now tok c :
  select_canonical con (sanitize_token tok) = Some c ->
  get_or_alloc_type con now tok = Ok (mkResolved c con []).
Proof. intros H. unfold get_or_alloc_type. now rewrite H. Qed.

Lemma get_or_alloc_type_inv con now tok r :
  get_or_alloc_type con now tok = Ok r ->
  (select_canonical con (sanitize_token tok) = Some (bucket r) /\
   table_after r = con /\ warnings r = []) \/
  (select_canonical con (sanitize_token tok) = None /\
   bucket r = canonical_name (next_idx con) /\
   existsb (fun r' => String.eqb (canonical r') (canonical_name (next_idx con)))
     con = false /\
   table_after r =
     con ++ [mkTypeRow (sanitize_token tok) (canonical_name (next_idx con)) now
               (overflow_flag (next_idx con))]).
Proof.
  unfold get_or_alloc_type.
  destruct (select_canonical con (sanitize_token tok)) as [c|] eqn:E.
  - intros [= <-]. left. auto.
  - unfold insert_type. simpl token. simpl canonical.
    rewrite (select_canonical_none_existsb _ _ E).
    destruct (existsb _ con) eqn:Ex; simpl; [discriminate|].
    intros [= <-]. right. auto.
Qed.

(** A mapping, once present, is returned by every later lookup. *)
Lemma call_keeps_mappings con now tok r t c :
  get_or_alloc_type con now tok = Ok r ->
  select_canonical con t = Some c ->
  select_canonical (table_after r) t = Some c.
Proof.
  intros H Hs. destruct (get_or_alloc_type_inv _ _ _ _ H)
    as [(_ & -> & _) | (_ & _ & _ & ->)]; auto.
  now apply select_canonical_app_some.
Qed.

Lemma later_keeps_mappings con con' t c :
  later con con' ->
  select_canonical con t = Some c ->
  select_canonical con' t = Some c.
Proof.
  induction 1; intros Hs; auto.
  eapply call_keeps_mappings; eauto.
Qed.

(** Right after a call, the token it resolved is in the table. *)
Lemma call_records_mapping con now tok r :
  get_or_alloc_type con now tok = Ok r ->
  select_canonical (table_after r) (sanitize_token tok) = Some (bucket r).
Proof.
  intros H. destruct (get_or_alloc_type_inv _ _ _ _ H)
    as [(Hs & -> & _) | (Hs & -> & _ & ->)]; auto.
  rewrite select_canonical_app_none by assumption.
  simpl. now rewrite String.eqb_refl.
Qed.

(** ** The tables the program can build *)

Lemma select_max_names con :
  select_max_canonical con = max_of_names (map canonical con).
Proof.
  induction con as [|r con IH]; simpl; auto. now rewrite IH.
Qed.

Lemma names_upto_lookup n i :
  (i < n)%nat -> names_upto n !! i = Some (canonical_name (Z.of_nat (S i))).
Proof.
  intros H. unfold names_upto.
  rewrite list_lookup_fmap, lookup_seq_lt by assumption. reflexivity.
Qed.

Lemma well_formed_names con :
  well_formed con -> map canonical con = names_upto (length con).
Proof.
  intros [_ H]. apply list_eq. intros i.
  change (map canonical con) with (canonical <$> con).
  rewrite list_lookup_fmap.
  destruct (con !! i) as [r|] eqn:E; cbn.
  - destruct (H i r E) as [-> _].
    symmetry. apply names_upto_lookup. eapply lookup_lt_Some; eauto.
  - symmetry. apply lookup_ge_None. unfold names_upto.
    rewrite length_map, length_seq. now apply lookup_ge_None in E.
Qed.

Lemma highest_name_checked :
  forallb (fun n => same_name (max_of_names (names_upto n)) (highest_name n))
    (seq 0 101) = true.
Proof. vm_compute. reflexivity. Qed.

Lemma same_name_eq a b : same_name a b = true -> a = b.
Proof.
  destruct a, b; simpl; try discriminate; auto.
  intros H. apply String.eqb_eq in H. now subst.
Qed.

Lemma max_of_names_upto n :
  (n <= 100)%nat -> max_of_names (names_upto n) = highest_name n.
Proof.
  intros H. apply same_name_eq.
  pose proof highest_name_checked as C.
  rewrite forallb_forall in C. apply C. apply in_seq. lia.
Qed.

Lemma well_formed_next_idx con :
  well_formed con ->
  next_idx con = Z.of_nat (Nat.min (length con) 99) + 1.
Proof.
  intros W. unfold next_idx.
  rewrite select_max_names, (well_formed_names con W), max_of_names_upto
    by apply W.
  destruct (length con) as [|n] eqn:E; unfold highest_name; cbv beta iota.
  - reflexivity.
  - rewrite bucket_index_canonical_name by lia. reflexivity.
Qed.

Lemma existsb_canonical_false con name :
  existsb (fun r' => String.eqb (canonical r') name) con = false ->
  forall i r, con !! i = Some r -> canonical r <> name.
Proof.
  intros H i r Hi E.
  assert (existsb (fun r' => String.eqb (canonical r') name) con = true);
    [|congruence].
  apply existsb_exists. exists r. split.
  - apply list_elem_of_In. eapply list_elem_of_lookup_2; eauto.
  - now apply String.eqb_eq.
Qed.

(** A well-formed table with 100 rows cannot take another one: the query
    for the highest name answers ["table_99"], so index 100 comes again. *)
Lemma well_formed_full con :
  well_formed con -> length con = 100%nat ->
  existsb (fun r' => String.eqb (canonical r') (canonical_name (next_idx con)))
    con = true.
Proof.
  intros W L. rewrite (well_formed_next_idx con W), L.
  destruct (lookup_lt_is_Some_2 con 99 ltac:(lia)) as [r Hr].
  apply existsb_exists. exists r. split.
  - apply list_elem_of_In. eapply list_elem_of_lookup_2; eauto.
  - destruct W as [_ W]. destruct (W 99%nat r Hr) as [-> _].
    apply String.eqb_eq. reflexivity.
Qed.

Lemma well_formed_app con r :
  well_formed con -> (length con < 100)%nat ->
  nth_row_ok (length con) r -> well_formed (con ++ [r]).
Proof.
  intros [L W] Hl Hr. split.
  - rewrite length_app. simpl. lia.
  - intros i r' Hi.
    destruct (Nat.lt_ge_cases i (length con)) as [Hlt|Hge].
    + rewrite lookup_app_l in Hi by assumption. auto.
    + rewrite lookup_app_r in Hi by assumption.
      destruct (i - length con)%nat as [|k] eqn:E; simpl in Hi; [|discriminate].
      injection Hi as <-. replace i with (length con) by lia. assumption.
Qed.

(** Every call that returns keeps the table well formed. *)
Lemma call_well_formed con now tok r :
  well_formed con ->
  get_or_alloc_type con now tok = Ok r ->
  well_formed (table_after r).
Proof.
  intros W H. destruct (get_or_alloc_type_inv _ _ _ _ H)
    as [(_ & -> & _) | (_ & _ & Hex & ->)]; auto.
  assert (Hl : (length con < 100)%nat).
  { destruct W as [L W']. destruct (Nat.eq_dec (length con) 100%nat) as [E|]; [|lia].
    rewrite (well_formed_full con (conj L W') E) in Hex. discriminate. }
  apply well_formed_app; auto.
  rewrite (well_formed_next_idx con W).
  replace (Z.of_nat (Nat.min (length con) 99) + 1) with (Z.of_nat (S (length con)))
    by lia.
  split; reflexivity.
Qed.

Lemma reachable_well_formed con : reachable con -> well_formed con.
Proof.
  induction 1 as [|con now tok r _ IH H].
  - split; simpl; [lia | intros i r; rewrite lookup_nil; discriminate].
  - eapply call_well_formed; eauto.
Qed.

(** Running a list of tokens through the registry stays among the
    reachable tables. *)
Lemma resolve_all_reachable con now toks out con' :
  reachable con -> resolve_all con now toks = Ok (out, con') -> reachable con'.
Proof.
  revert con out con'. induction toks as [|t toks IH]; intros con out con' R; simpl.
  - intros [= _ <-]. assumption.
  - destruct (get_or_alloc_type con now t) as [r|] eqn:E; simpl; [|discriminate].
    destruct (resolve_all (table_after r) now toks) as [[bs c]|] eqn:E2; simpl;
      [|discriminate].
    intros [= _ <-]. eapply IH; [|exact E2]. econstructor; eauto.
Qed.

(** Below 100 rows a new token is given the next index. *)
Lemma alloc_below_100 con now tok :
  well_formed con -> (length con < 100)%nat ->
  select_canonical con (sanitize_token tok) = None ->
  get_or_alloc_type con now tok =
    Ok (mkResolved (canonical_name (Z.of_nat (S (length con))))
          (con ++ [mkTypeRow (sanitize_token tok)
                     (canonical_name (Z.of_nat (S (length con)))) now
                     (overflow_flag (Z.of_nat (S (length con))))])
          (if overflow_flag (Z.of_nat (S (length con))) =? 0 then []
           else [("[WARN] Discovered more than " +:+ str_of_Z MAX_TYPES +:+
                  " unique table types; new token '" +:+ sanitize_token tok +:+
                  "' assigned '" +:+ canonical_name (Z.of_nat (S (length con)))
                  +:+ "'.")%string])).
Proof.
  intros W L Hs. unfold get_or_alloc_type. rewrite Hs.
  rewrite (well_formed_next_idx con W).
  replace (Z.of_nat (Nat.min (length con) 99) + 1) with (Z.of_nat (S (length con)))
    by lia.
  unfold insert_type. simpl token. simpl canonical.
  rewrite (select_canonical_none_existsb _ _ Hs).
  replace (existsb _ con) with false; [reflexivity|].
  symmetry. apply not_true_is_false. intros Hex.
  apply existsb_exists in Hex as (r & Hin & Heq).
  apply String.eqb_eq in Heq.
  apply list_elem_of_In, list_elem_of_lookup in Hin as [i Hi].
  destruct W as [_ W]. destruct (W i r Hi) as [Hc _].
  rewrite Hc in Heq. apply canonical_name_inj in Heq; try lia.
  apply lookup_lt_Some in Hi. lia.
Qed.

(** At 100 rows every new token is refused. *)
Lemma alloc_at_100 con now tok :
  well_formed con -> length con = 100%nat ->
  select_canonical con (sanitize_token tok) = None ->
  get_or_alloc_type con now tok =
    Raise (IntegrityError "UNIQUE constraint failed: types.canonical").
Proof.
  intros W L Hs. unfold get_or_alloc_type. rewrite Hs.
  unfold insert_type. simpl token. simpl canonical.
  rewrite (select_canonical_none_existsb _ _ Hs).
  now rewrite (well_formed_full con W L).
Qed.

Lemma table_of_tokens_reachable now toks : reachable (table_of_tokens now toks).
Proof.
  unfold table_of_tokens.
  destruct (resolve_all [] now toks) as [[out con]|] eqn:E; [|constructor].
  eapply resolve_all_reachable; [constructor | exact E].
Qed.

(** ** The claims about the registry *)

(** C2, evaluated where it fails.  A fresh registry resolves one hundred
    distinct tokens to the buckets [table_01] .. [table_100], consecutive as
    claimed; the next distinct token is not given bucket 101: the query for
    the highest name returns [table_99], index 100 is computed again, and the
    insert violates the uniqueness of [canonical]. *)
Theorem hundred_and_first_token_is_refused :
  exists con,
    resolve_all [] "2024-01-01T00:00:00" (sample_tokens 100)
      = Ok (names_upto 100, con) /\
    select_canonical con (sanitize_token "tok101") = None /\
    next_idx con = 100 /\
    get_or_alloc_type con "2024-01-01T00:00:01" "tok101"
      = Raise (IntegrityError "UNIQUE constraint failed: types.canonical").
Proof.
  eexists. split; [vm_compute; reflexivity|].
  split; [vm_compute; reflexivity|].
  split; vm_compute; reflexivity.
Qed.

(** C5.  In every table the program can build, a row whose bucket index (the
    number its name ends in) lies between 1 and 25 has overflow flag 0 and a
    row whose index is 26 or more has overflow flag 1; no row has an index
    below 1.  Allocation past the cap goes on: with 25 to 99 buckets in
    place, a new token is given the next bucket, flagged, and a warning is
    written. *)
Theorem overflow_flag_by_index con :
  reachable con ->
  (forall r, In r con ->
     1 <= bucket_index (canonical r) /\
     (bucket_index (canonical r) <= 25 -> overflow r = 0) /\
     (26 <= bucket_index (canonical r) -> overflow r = 1)) /\
  (forall now tok,
     (25 <= length con < 100)%nat ->
     select_canonical con (sanitize_token tok) = None ->
     exists res,
       get_or_alloc_type con now tok = Ok res /\
       bucket res = canonical_name (Z.of_nat (S (length con))) /\
       overflow_flag (bucket_index (bucket res)) = 1 /\
       warnings res <> []).
Proof.
  intros R. pose proof (reachable_well_formed con R) as W. split.
  - intros r Hin.
    apply list_elem_of_In, list_elem_of_lookup in Hin as [i Hi].
    destruct W as [_ W]. destruct (W i r Hi) as [Hc Ho].
    rewrite Hc, Ho, bucket_index_canonical_name by lia.
    unfold overflow_flag, MAX_TYPES.
    destruct (Z.ltb_spec 25 (Z.of_nat (S i))); repeat split; lia.
  - intros now tok L Hs. eexists. split; [apply alloc_below_100; auto; lia|].
    simpl bucket. simpl warnings.
    rewrite bucket_index_canonical_name by lia.
    assert (E : overflow_flag (Z.of_nat (S (length con))) = 1).
    { unfold overflow_flag, MAX_TYPES.
      destruct (Z.ltb_spec 25 (Z.of_nat (S (length con)))); lia. }
    rewrite E. repeat split; auto; discriminate.
Qed.

Lemma overflow_flag_by_index_witness :
  let con := table_of_tokens "2024-01-01T00:00:00" (sample_tokens 27) in
  length con = 27%nat /\
  (forall r, In r con ->
     1 <= bucket_index (canonical r) /\
     (bucket_index (canonical r) <= 25 -> overflow r = 0) /\
     (26 <= bucket_index (canonical r) -> overflow r = 1)).
Proof.
  split; [vm_compute; reflexivity|].
  apply (overflow_flag_by_index
           (table_of_tokens "2024-01-01T00:00:00" (sample_tokens 27))).
  apply table_of_tokens_reachable.
Defined.

(** C7.  Once a call has resolved a raw token to a bucket, every later call
    (in the same run or in a later one, whatever was resolved in between)
    with a raw token that sanitizes to the same text returns the same
    bucket, leaves the table as it is and writes no warning. *)
Theorem resolve_same_token_again con now tok r con' now' tok' :
  get_or_alloc_type con now tok = Ok r ->
  later (table_after r) con' ->
  sanitize_token tok' = sanitize_token tok ->
  get_or_alloc_type con' now' tok' = Ok (mkResolved (bucket r) con' []).
Proof.
  intros H L E. apply get_or_alloc_type_found. rewrite E.
  eapply later_keeps_mappings; [exact L|].
  eapply call_records_mapping; eauto.
Qed.

Lemma resolve_same_token_again_witness :
  let first := mkResolved "table_01"
                 [mkTypeRow "alpha_1" "table_01" "2024-01-01T00:00:00" 0] [] in
  let con' := [mkTypeRow "alpha_1" "table_01" "2024-01-01T00:00:00" 0;
               mkTypeRow "beta" "table_02" "2024-01-01T00:00:05" 0] in
  get_or_alloc_type [] "2024-01-01T00:00:00" "Alpha-1" = Ok first /\
  get_or_alloc_type con' "2024-02-01T00:00:00" "alpha__1"
    = Ok (mkResolved "table_01" con' []).
Proof.
  split; [reflexivity|].
  apply (resolve_same_token_again [] "2024-01-01T00:00:00" "Alpha-1"
           (mkResolved "table_01"
              [mkTypeRow "alpha_1" "table_01" "2024-01-01T00:00:00" 0] [])).
  - reflexivity.
  - apply (later_call _ [mkTypeRow "alpha_1" "table_01" "2024-01-01T00:00:00" 0]
             "2024-01-01T00:00:05" "beta"
             (mkResolved "table_02"
                [mkTypeRow "alpha_1" "table_01" "2024-01-01T00:00:00" 0;
                 mkTypeRow "beta" "table_02" "2024-01-01T00:00:05" 0] [])).
    + apply later_refl.
    + reflexivity.
  - reflexivity.
Defined.

End TokenRegistryFacts.

(* ===================================================================== *)
(** * Facts about the manifest *)
(* ===================================================================== *)

Module ManifestFacts.
Import Manifest.

Lemma truthy_spec s : truthy s = true <-> exists p, s = Some p /\ p <> EmptyString.
Proof.
  destruct s as [[|c p]|]; simpl; split; try discriminate.
  - intros (p & [= <-] & H). congruence.
  - intros _. eexists. split; [reflexivity | discriminate].
  - reflexivity.
  - intros (p & [=] & _).
Qed.

Lemma set_status_lookup con now t st err path sha :
  exists row,
    set_status con now t st err path sha !! task_key t = Some row /\
    status row = st /\ error row = err /\ zip_path row = path /\
    zip_sha256 row = sha /\ updated_at row = now /\
    attempts row = match con !! task_key t with
                   | Some old => attempts old
                   | None => 0
                   end + 1.
Proof.
  unfold set_status. destruct (con !! task_key t) as [old|];
    rewrite lookup_insert_eq; eexists; split; try reflexivity; simpl; auto 10.
Qed.

Lemma set_status_other con now t st err path sha k :
  k <> task_key t -> set_status con now t st err path sha !! k = con !! k.
Proof.
  intros H. unfold set_status.
  destruct (con !! task_key t); now rewrite lookup_insert_ne.
Qed.

(** The completion check, spelled out. *)
Lemma already_ok_spec con fs t :
  already_ok con fs t = true <->
  exists row p,
    con !! task_key t = Some row /\ status row = "ok"%string /\
    zip_path row = Some p /\ p <> EmptyString /\ p ∈ fs.
Proof.
  unfold already_ok. destruct (con !! task_key t) as [row|]; split.
  - intros H. apply andb_true_iff in H as [H Hp].
    apply andb_true_iff in H as [Hs Ht].
    apply String.eqb_eq in Hs. apply truthy_spec in Ht as (p & Hz & Hne).
    rewrite Hz in Hp. unfold path_exists in Hp. apply bool_decide_eq_true in Hp.
    exists row, p. auto.
  - intros (row' & p & [= <-] & Hs & Hz & Hne & Hin).
    rewrite Hs, Hz. simpl. unfold path_exists.
    rewrite bool_decide_eq_true_2 by assumption.
    destruct p; [congruence | reflexivity].
  - discriminate.
  - intros (row & p & [=] & _).
Qed.

(** A failed attempt is never complete; a successful one is, as long as the
    archive it recorded is on disk. *)
Lemma after_failed con fs now t err :
  already_ok (set_status con now t "failed" err None None) fs t = false.
Proof.
  unfold already_ok.
  destruct (set_status_lookup con now t "failed" err None None)
    as (row & -> & -> & _). reflexivity.
Qed.

Lemma after_ok con fs now t final sha :
  final <> EmptyString ->
  already_ok (set_status con now t "ok" None (Some final) (Some sha)) fs t
  = path_exists fs final.
Proof.
  intros Hne. unfold already_ok.
  destruct (set_status_lookup con now t "ok" None (Some final) (Some sha))
    as (row & -> & -> & _ & -> & _). simpl.
  destruct final; [congruence | reflexivity].
Qed.

(** C9.  The completion check is true exactly when the manifest has a row
    for the task whose status is ['ok'] and whose [zip_path] is a non-empty
    path present on disk.  When it is true [process_task] returns at once
    and changes nothing; when it is false (no row, another status, no path,
    or the archive gone) the task is acquired again and the attempt is
    recorded, the row's counter going up by one. *)
Theorem already_ok_iff_ok_and_on_disk :
  forall (con : gmap (string * Z * Z) ManifestRow) (fs : filesystem) (t : Task),
    (already_ok con fs t = true <->
     exists row p,
       con !! task_key t = Some row /\ status row = "ok"%string /\
       zip_path row = Some p /\ p <> EmptyString /\ p ∈ fs) /\
    (con !! task_key t = None -> already_ok con fs t = false) /\
    (forall row, con !! task_key t = Some row ->
       status row <> "ok"%string \/ zip_path row = None \/
       zip_path row = Some EmptyString \/
       (exists p, zip_path row = Some p /\ p ∉ fs) ->
       already_ok con fs t = false) /\
    (forall (World : Type) acquire str_exn (w : World) now,
       (already_ok con fs t = true ->
        process_task acquire str_exn con w fs now t = (con, w, fs)) /\
       (already_ok con fs t = false ->
        exists row,
          (process_task acquire str_exn con w fs now t).1.1 !! task_key t
            = Some row /\
          (status row = "ok"%string \/ status row = "failed"%string) /\
          attempts row = match con !! task_key t with
                         | Some old => attempts old
                         | None => 0
                         end + 1)).
Proof.
  intros con fs t. split; [apply already_ok_spec|]. split; [|split].
  - intros H. unfold already_ok. now rewrite H.
  - intros row Hrow Hcase. apply not_true_is_false. intros Hok.
    apply already_ok_spec in Hok as (row' & p & Hr & Hs & Hz & Hne & Hin).
    rewrite Hrow in Hr. injection Hr as <-.
    destruct Hcase as [H|[H|[H|(q & H & Hq)]]]; try congruence.
  - intros World acquire str_exn w now. unfold process_task. split.
    + intros ->. reflexivity.
    + intros ->. destruct (acquire t w fs) as [[[[final sha]|e] w'] fs']; simpl.
      * destruct (set_status_lookup con now t "ok" None (Some final) (Some sha))
          as (row & Hl & Hs & _ & _ & _ & _ & Ha). exists row. auto.
      * destruct (set_status_lookup con now t "failed" (Some (str_exn e)) None None)
          as (row & Hl & Hs & _ & _ & _ & _ & Ha). exists row. auto.
Qed.

End ManifestFacts.

(* ===================================================================== *)
(** * Facts about decoding *)
(* ===================================================================== *)

Module DecodeFacts.
Import Decode.

Lemma decode_outcome_bind {A B} (r : result A) (k : A -> B) :
  decode_outcome r -> decode_outcome (let/r t := r in Ok (k t)).
Proof. destruct r as [a|[]]; simpl; auto. Qed.

Lemma is_ok_bind {A B} (r : result A) (k : A -> B) :
  is_ok r = true -> is_ok (let/r t := r in Ok (k t)) = true.
Proof. destruct r; simpl; auto. Qed.

Lemma is_ok_on_error_replace pos rest :
  is_ok rest = true -> is_ok (on_error replace pos rest) = true.
Proof. intros H. unfold on_error. now apply is_ok_bind. Qed.

Lemma decode_outcome_on_error_strict pos rest :
  decode_outcome (on_error strict pos rest).
Proof. exact I. Qed.

(** Case analysis following the branches of the decoder, without unfolding
    the calls on the tails. *)
Ltac utf8_cases :=
  repeat (match goal with
          | |- context [if ?c then _ else _] => destruct c
          | |- context [match ?l with [] => _ | _ :: _ => _ end] =>
              is_var l; destruct l
          end; cbv beta iota).

(** With the [replace] handler the decoder always returns. *)
Lemma utf8_replace_total n :
  forall bs pos, (length bs <= n)%nat ->
    is_ok (utf8_decode_from replace pos bs) = true.
Proof.
  induction n as [|n IH]; intros [|b0 r0] pos L; simpl in L;
    try reflexivity; try lia.
  cbn [utf8_decode_from]. utf8_cases;
    repeat first [ apply is_ok_bind | apply is_ok_on_error_replace ];
    try reflexivity; apply IH; simpl in *; lia.
Qed.

(** With the [strict] handler it returns or raises [UnicodeDecodeError]. *)
Lemma utf8_strict_outcome n :
  forall bs pos, (length bs <= n)%nat ->
    decode_outcome (utf8_decode_from strict pos bs).
Proof.
  induction n as [|n IH]; intros [|b0 r0] pos L; simpl in L;
    try exact I; try lia.
  cbn [utf8_decode_from]. utf8_cases;
    repeat first [ apply decode_outcome_bind
                 | apply decode_outcome_on_error_strict ];
    try exact I; apply IH; simpl in *; lia.
Qed.

Lemma cp1255_outcome table bs :
  forall pos, decode_outcome (cp1255_decode_from table pos bs).
Proof.
  induction bs as [|b r IH]; intros pos; simpl; [exact I|].
  destruct (table b); [|exact I]. apply decode_outcome_bind, IH.
Qed.

(** C8.  Whatever the bytes (and whatever the code page maps them to), the
    decoding step returns a text and never raises: the strict UTF-8 decoding
    when there is one; otherwise the cp1255 decoding when there is one;
    otherwise the UTF-8 decoding with replacement characters, which always
    exists. *)
Theorem decode_text_never_raises :
  forall (cp1255_table : N -> option N) (raw_bytes : list N),
  exists t,
    decode_text cp1255_table raw_bytes = Ok t /\
    is_ok (utf8_decode replace raw_bytes) = true /\
    match utf8_decode strict raw_bytes with
    | Ok u => t = u
    | Raise _ =>
        match cp1255_decode cp1255_table raw_bytes with
        | Ok c => t = c
        | Raise _ => utf8_decode replace raw_bytes = Ok t
        end
    end.
Proof.
  intros table raw. unfold decode_text.
  pose proof (utf8_strict_outcome (length raw) raw 0 (Nat.le_refl _)) as Hs.
  pose proof (cp1255_outcome table raw 0) as Hc.
  pose proof (utf8_replace_total (length raw) raw 0 (Nat.le_refl _)) as Hr.
  unfold utf8_decode, cp1255_decode in *.
  destruct (utf8_decode_from replace 0 raw) as [tr|er] eqn:Er; [|discriminate].
  destruct (utf8_decode_from strict 0 raw) as [u|[]] eqn:Eu; simpl in *;
    try contradiction.
  - exists u. repeat split; auto.
  - destruct (cp1255_decode_from table 0 raw) as [c|[]] eqn:Ec; simpl in *;
      try contradiction.
    + exists c. repeat split; auto.
    + exists tr. repeat split; auto.
Qed.

End DecodeFacts.

(* ===================================================================== *)
(** * Facts about type inference *)
(* ===================================================================== *)

Module InferFacts.
Import Text Infer.

(** The loop returns the first class, in the order integer, decimal,
    timestamp, whose flag is still up and that every remaining non-empty
    value matches. *)
Lemma infer_loop_spec values :
  forall ints nums dates,
    infer_loop ints nums dates values =
    (if ints && every_value matches_int values then "bigint"
     else if nums && every_value matches_num values then "numeric"
     else if dates && every_value matches_date values then "timestamp"
     else "text")%string.
Proof.
  induction values as [|v rest IH]; intros ints nums dates.
  - simpl. now rewrite !andb_true_r.
  - cbn [infer_loop every_value forallb].
    fold (every_value matches_int rest) (every_value matches_num rest)
         (every_value matches_date rest).
    destruct (String.eqb v "") eqn:Ev.
    + rewrite IH. reflexivity.
    + cbn [orb].
      destruct ints, nums, dates; cbn [andb orb negb];
        destruct (matches_int v), (matches_num v), (matches_date v);
        cbn [andb orb negb]; try reflexivity; rewrite IH; reflexivity.
Qed.

(** An integer is also a decimal number. *)
Lemma all_digits_take_while s :
  all_string is_digit s = true ->
  take_while is_digit s = s /\ drop_while is_digit s = EmptyString.
Proof.
  induction s as [|c s IH]; simpl; [auto|].
  intros H. apply andb_true_iff in H as [Hc Hs]. rewrite Hc.
  destruct (IH Hs) as [-> ->]. auto.
Qed.

Lemma matches_int_num v : matches_int v = true -> matches_num v = true.
Proof.
  unfold matches_int, matches_num, digits1.
  destruct (skip_sign v) as [|c s] eqn:E; [discriminate|].
  intros H. destruct (all_digits_take_while _ H) as [-> ->]. reflexivity.
Qed.

(** C6.  On a non-empty sample the inferred type is [bigint] when every
    non-empty value is an integer; failing that, [numeric] when every
    non-empty value is a decimal number; failing that, [timestamp] when
    every non-empty value parses under one of the four date formats;
    failing that, [text].  So a class above text is returned only when all
    non-empty values match it.  In particular ["1","2","x"] is text,
    ["1","2","3"] is bigint and ["1.5","2"] is numeric. *)
Theorem infer_type_precedence :
  (forall values,
     infer_type values =
     match values with
     | [] => "text"
     | _ =>
         if every_value matches_int values then "bigint"
         else if every_value matches_num values then "numeric"
         else if every_value matches_date values then "timestamp"
         else "text"
     end%string) /\
  (forall values,
     (infer_type values = "bigint"%string -> every_value matches_int values = true) /\
     (infer_type values = "numeric"%string -> every_value matches_num values = true) /\
     (infer_type values = "timestamp"%string ->
        every_value matches_date values = true)) /\
  infer_type ["1"; "2"; "x"]%string = "text"%string /\
  infer_type ["1"; "2"; "3"]%string = "bigint"%string /\
  infer_type ["1.5"; "2"]%string = "numeric"%string.
Proof.
  assert (F : forall values,
     infer_type values =
     match values with
     | [] => "text"
     | _ =>
         if every_value matches_int values then "bigint"
         else if every_value matches_num values then "numeric"
         else if every_value matches_date values then "timestamp"
         else "text"
     end%string).
  { intros [|v rest]; [reflexivity|]. unfold infer_type.
    rewrite infer_loop_spec. reflexivity. }
  split; [exact F|]. split; [|repeat split; reflexivity].
  intros values. rewrite F. destruct values as [|v rest].
  - repeat split; discriminate.
  - destruct (every_value matches_int (v :: rest)),
             (every_value matches_num (v :: rest)),
             (every_value matches_date (v :: rest));
      repeat split; auto; discriminate.
Qed.

Lemma every_value_all_empty p values :
  Forall (fun v => v = EmptyString) values -> every_value p values = true.
Proof.
  induction 1 as [|v rest Hv _ IH]; simpl; auto.
  subst v. exact IH.
Qed.

(** C10.  A non-empty sample whose values are all the empty string is
    inferred as [bigint]: the empty values are skipped, so the integer flag
    is never taken down. *)
Theorem all_empty_sample_is_bigint values :
  values <> [] ->
  Forall (fun v => v = EmptyString) values ->
  infer_type values = "bigint"%string.
Proof.
  intros Hne Hall. destruct values as [|v rest]; [congruence|].
  unfold infer_type. rewrite infer_loop_spec.
  now rewrite (every_value_all_empty matches_int _ Hall).
Qed.

Lemma all_empty_sample_is_bigint_witness :
  infer_type [""; ""; ""]%string = "bigint"%string.
Proof.
  apply (all_empty_sample_is_bigint [""; ""; ""]%string).
  - discriminate.
  - repeat constructor.
Defined.

End InferFacts.

(* ===================================================================== *)
(** * Facts about the fabricated archive *)
(* ===================================================================== *)

Module FabricateFacts.
Import Text Manifest Fabricate.
Local Open Scope N_scope.

Section Archive.
Context {Gen : Type}.
Variable seed : string -> Gen.
Variable randbelow : Gen -> N -> N * Gen.
Variable deflate : list N -> list N.
Variable crc32 : list N -> N.
Variable create_system : N.

(** Names and payloads come from the generator alone. *)
Lemma write_members_content clock1 clock2 t count :
  forall g k1 k2,
    map (fun zi => (filename zi, data zi)) (write_members randbelow clock1 t g k1 count)
    = map (fun zi => (filename zi, data zi)) (write_members randbelow clock2 t g k2 count).
Proof.
  induction count as [|count IH]; intros g k1 k2; simpl; [reflexivity|].
  destruct (choice randbelow g tokens) as [tok g1].
  destruct (randint randbelow g1 1 100) as [v1 g2].
  destruct (randint randbelow g2 1 100) as [v2 g3].
  destruct (randint randbelow g3 1 100) as [v3 g4].
  simpl. f_equal. apply IH.
Qed.

Lemma write_members_same clock1 clock2 t count :
  (forall k, dos_stamp (clock1 k) = dos_stamp (clock2 k)) ->
  forall g k,
    Forall2 same_entry (write_members randbelow clock1 t g k count)
                       (write_members randbelow clock2 t g k count).
Proof.
  intros H. induction count as [|count IH]; intros g k; simpl; [constructor|].
  destruct (choice randbelow g tokens) as [tok g1].
  destruct (randint randbelow g1 1 100) as [v1 g2].
  destruct (randint randbelow g2 1 100) as [v2 g3].
  destruct (randint randbelow g3 1 100) as [v3 g4].
  constructor; [|apply IH]. repeat split; simpl; auto.
Qed.

Lemma same_entry_fields a b :
  same_entry a b ->
  check_date_time a.(zi_date_time) = check_date_time b.(zi_date_time) /\
  common_fields deflate crc32 a = common_fields deflate crc32 b.
Proof.
  intros (Hn & Hd & Hs). unfold dos_stamp in Hs.
  injection Hs as Hy Hdate Htime.
  unfold check_date_time, common_fields. now rewrite Hy, Hn, Hd, Hdate, Htime.
Qed.

Lemma local_entry_same a b :
  same_entry a b -> local_entry deflate crc32 a = local_entry deflate crc32 b.
Proof.
  intros H. destruct (same_entry_fields a b H) as [Hc Hf].
  destruct H as (Hn & Hd & _).
  unfold local_entry. now rewrite Hc, Hf, Hn, Hd.
Qed.

Lemma central_entry_same a b off :
  same_entry a b ->
  central_entry deflate crc32 create_system a off
  = central_entry deflate crc32 create_system b off.
Proof.
  intros H. destruct (same_entry_fields a b H) as [_ Hf].
  destruct H as (Hn & _ & _).
  unfold central_entry. now rewrite Hf, Hn.
Qed.

Lemma write_local_same zs1 zs2 :
  Forall2 same_entry zs1 zs2 ->
  forall off, write_local deflate crc32 zs1 off = write_local deflate crc32 zs2 off.
Proof.
  induction 1 as [|a b zs1 zs2 Hab _ IH]; intros off; simpl; [reflexivity|].
  rewrite (local_entry_same a b Hab).
  destruct (local_entry deflate crc32 b); simpl; [|reflexivity].
  now rewrite IH.
Qed.

Lemma write_central_same zs1 zs2 :
  Forall2 same_entry zs1 zs2 ->
  forall offs,
    write_central deflate crc32 create_system zs1 offs
    = write_central deflate crc32 create_system zs2 offs.
Proof.
  induction 1 as [|a b zs1 zs2 Hab _ IH]; intros [|off offs]; simpl;
    try reflexivity.
  rewrite (central_entry_same a b off Hab).
  destruct (central_entry deflate crc32 create_system b off); simpl;
    [|reflexivity].
  now rewrite IH.
Qed.

Lemma zip_bytes_same zs1 zs2 :
  Forall2 same_entry zs1 zs2 ->
  zip_bytes deflate crc32 create_system zs1
  = zip_bytes deflate crc32 create_system zs2.
Proof.
  intros H. unfold zip_bytes.
  rewrite (write_local_same zs1 zs2 H).
  destruct (write_local deflate crc32 zs2 0) as [loc|]; simpl; [|reflexivity].
  rewrite (write_central_same zs1 zs2 H).
  now rewrite (Forall2_length _ _ _ H).
Qed.

(** The archive is never empty, and its first member is stamped with the
    first clock reading. *)
Lemma fabricate_members_first clock t :
  exists zi rest,
    fabricate_members seed randbelow clock t = zi :: rest /\
    zi_date_time zi = clock 0%nat.
Proof.
  unfold fabricate_members, randint.
  destruct (randbelow _ (3 - 1 + 1)) as [k g1].
  destruct (N.to_nat (1 + k)) as [|count] eqn:E; [lia|].
  simpl.
  destruct (choice randbelow g1 tokens) as [tok g2].
  destruct (randint randbelow g2 1 100) as [v1 g3].
  destruct (randint randbelow g3 1 100) as [v2 g4].
  destruct (randint randbelow g4 1 100) as [v3 g5].
  eexists. eexists. split; reflexivity.
Qed.

Lemma bind_ok_inv {A B} (r : result A) (k : A -> result B) b :
  (let/r a := r in k a) = Ok b -> exists a, r = Ok a /\ k a = Ok b.
Proof. destruct r as [a|e]; simpl; [eauto | discriminate]. Qed.

Lemma le16_length n bs : le16 n = Ok bs -> length bs = 2%nat.
Proof. unfold le16. destruct (n <? 65536); [|discriminate]. now intros [= <-]. Qed.

Lemma le16_inj a b bs : le16 a = Ok bs -> le16 b = Ok bs -> a = b.
Proof.
  unfold le16. destruct (a <? 65536), (b <? 65536); try discriminate.
  intros [= <-] [= Hm Hd].
  rewrite (N.div_mod a 256), (N.div_mod b 256) by lia. congruence.
Qed.

(** The header of a member, up to and including its two timestamp fields. *)
Lemma common_fields_stamp zi f :
  common_fields deflate crc32 zi = Ok f ->
  exists fl tm dt rest,
    length fl = 2%nat /\
    le16 (dostime (zi_date_time zi)) = Ok tm /\
    le16 (dosdate (zi_date_time zi)) = Ok dt /\
    f = fl ++ [8; 0] ++ tm ++ dt ++ rest.
Proof.
  unfold common_fields. destruct (encode_filename (filename zi)) as [name flags].
  cbn [concat_results]. intros H.
  apply bind_ok_inv in H as (fl & Hfl & H).
  apply bind_ok_inv in H as (r1 & H1 & H). injection H as <-.
  apply bind_ok_inv in H1 as (m & Hm & H1). injection Hm as <-.
  apply bind_ok_inv in H1 as (r2 & H2 & H1). injection H1 as <-.
  apply bind_ok_inv in H2 as (tm & Htm & H2).
  apply bind_ok_inv in H2 as (r3 & H3 & H2). injection H2 as <-.
  apply bind_ok_inv in H3 as (dt & Hdt & H3).
  apply bind_ok_inv in H3 as (rest & _ & H3). injection H3 as <-.
  exists fl, tm, dt, rest. repeat split; auto. eapply le16_length; eauto.
Qed.

Lemma fabricate_zip_bytes_stamp clock t bytes :
  fabricate_zip_bytes seed randbelow deflate crc32 create_system clock t = Ok bytes ->
  exists fl tm dt rest,
    length fl = 2%nat /\
    le16 (dostime (clock 0%nat)) = Ok tm /\
    le16 (dosdate (clock 0%nat)) = Ok dt /\
    bytes = [80; 75; 3; 4; 20; 0] ++ fl ++ [8; 0] ++ tm ++ dt ++ rest.
Proof.
  unfold fabricate_zip_bytes, zip_bytes.
  destruct (fabricate_members_first clock t) as (zi & others & -> & Hdt).
  intros H. apply bind_ok_inv in H as (loc & Hloc & H).
  apply bind_ok_inv in H as (cd & _ & H).
  apply bind_ok_inv in H as (eocd & _ & H). injection H as <-.
  cbn [write_local] in Hloc.
  apply bind_ok_inv in Hloc as (e & He & Hloc).
  apply bind_ok_inv in Hloc as (out & _ & Hloc). injection Hloc as <-.
  unfold local_entry in He.
  apply bind_ok_inv in He as (u & _ & He).
  apply bind_ok_inv in He as (f & Hf & He). injection He as <-.
  apply common_fields_stamp in Hf as (fl & tm & dt & rest & Hl & Htm & Hdate & ->).
  rewrite Hdt in Htm, Hdate.
  exists fl, tm, dt,
    (rest ++ fst (encode_filename (filename zi)) ++ deflate (data zi)
       ++ fst out ++ cd ++ eocd).
  repeat split; auto.
  unfold DEFAULT_VERSION. cbn [fst app].
  repeat (rewrite <- app_assoc; cbn [app]). reflexivity.
Qed.

(** Two archives whose first members were written at clock readings with
    different stamps differ. *)
Lemma stamp_shows_in_bytes clock1 clock2 t b1 b2 :
  fabricate_zip_bytes seed randbelow deflate crc32 create_system clock1 t = Ok b1 ->
  fabricate_zip_bytes seed randbelow deflate crc32 create_system clock2 t = Ok b2 ->
  (dosdate (clock1 0%nat), dostime (clock1 0%nat))
    <> (dosdate (clock2 0%nat), dostime (clock2 0%nat)) ->
  b1 <> b2.
Proof.
  intros H1 H2 Hne E. apply Hne. subst b2.
  apply fabricate_zip_bytes_stamp in H1 as (fl1 & tm1 & dt1 & r1 & L1 & T1 & D1 & E1).
  apply fabricate_zip_bytes_stamp in H2 as (fl2 & tm2 & dt2 & r2 & L2 & T2 & D2 & E2).
  rewrite E1 in E2. apply app_inv_head in E2.
  apply app_inj_1 in E2 as [_ E2]; [|congruence].
  apply app_inv_head in E2.
  apply app_inj_1 in E2 as [Etm E2];
    [|rewrite (le16_length _ _ T1), (le16_length _ _ T2); reflexivity].
  apply app_inj_1 in E2 as [Edt _];
    [|rewrite (le16_length _ _ D1), (le16_length _ _ D2); reflexivity].
  subst tm2 dt2.
  now rewrite (le16_inj _ _ _ T1 T2), (le16_inj _ _ _ D1 D2).
Qed.

(** C4, as the code has it.  For one Task, whatever the clock reads:
    the names and payloads of the members are the same; when the clock
    readings at the member writes pack to the same stamps, the archive bytes
    are the same; and when the stamps of the first member differ, so do the
    bytes of any two archives that were produced. *)
Theorem fabricated_archive_follows_task_and_clock clock1 clock2 t :
  map (fun zi => (filename zi, data zi)) (fabricate_members seed randbelow clock1 t)
  = map (fun zi => (filename zi, data zi)) (fabricate_members seed randbelow clock2 t)
  /\
  ((forall k, dos_stamp (clock1 k) = dos_stamp (clock2 k)) ->
   fabricate_zip_bytes seed randbelow deflate crc32 create_system clock1 t
   = fabricate_zip_bytes seed randbelow deflate crc32 create_system clock2 t)
  /\
  (forall b1 b2,
     fabricate_zip_bytes seed randbelow deflate crc32 create_system clock1 t = Ok b1 ->
     fabricate_zip_bytes seed randbelow deflate crc32 create_system clock2 t = Ok b2 ->
     (dosdate (clock1 0%nat), dostime (clock1 0%nat))
       <> (dosdate (clock2 0%nat), dostime (clock2 0%nat)) ->
     b1 <> b2).
Proof.
  split; [|split].
  - unfold fabricate_members.
    destruct (randint randbelow _ 1 3) as [count g1].
    apply write_members_content.
  - intros H. unfold fabricate_zip_bytes. apply zip_bytes_same.
    unfold fabricate_members.
    destruct (randint randbelow _ 1 3) as [count g1].
    now apply write_members_same.
  - intros b1 b2. apply stamp_shows_in_bytes.
Qed.

End Archive.

Lemma fabricated_archive_follows_task_and_clock_witness :
  fabricate_zip_bytes (Gen := unit) (fun _ => tt) (fun g _ => (0, g))
    (fun d => d) (fun _ => 0) 3
    (fun _ => mkDateTime 2024 1 1 12 0 0) (mkTask "00001" 2020 3)
  =
  fabricate_zip_bytes (Gen := unit) (fun _ => tt) (fun g _ => (0, g))
    (fun d => d) (fun _ => 0) 3
    (fun _ => mkDateTime 2024 1 1 12 0 1) (mkTask "00001" 2020 3).
Proof.
  apply (fabricated_archive_follows_task_and_clock
           (fun _ => tt) (fun g _ => (0, g)) (fun d => d) (fun _ => 0) 3
           (fun _ => mkDateTime 2024 1 1 12 0 0)
           (fun _ => mkDateTime 2024 1 1 12 0 1) (mkTask "00001" 2020 3)).
  intros k. reflexivity.
Defined.

(** C4 as stated fails: the same Task fabricated at noon and ten seconds
    later gives two different archives (the generator and the compressor
    below are stand-ins; the difference sits in the time field of the
    header, bytes 10 and 11, which neither of them touches). *)
Lemma fabricate_twice_differs :
  fabricate_zip_bytes (Gen := unit) (fun _ => tt) (fun g _ => (0, g))
    (fun d => d) (fun _ => 0) 3
    (fun _ => mkDateTime 2024 1 1 12 0 0) (mkTask "00001" 2020 3)
  <>
  fabricate_zip_bytes (Gen := unit) (fun _ => tt) (fun g _ => (0, g))
    (fun d => d) (fun _ => 0) 3
    (fun _ => mkDateTime 2024 1 1 12 0 10) (mkTask "00001" 2020 3).
Proof. vm_compute. intros H. discriminate H. Qed.

End FabricateFacts.

(* ===================================================================== *)
(** * Facts about the loader *)
(* ===================================================================== *)

Module LoaderFacts.
Import Infer Loader.

Lemma existsb_eqb_In (x : string) (l : list string) :
  existsb (String.eqb x) l = true <-> In x l.
Proof.
  rewrite existsb_exists. split.
  - intros (y & Hy & E). apply String.eqb_eq in E. now subst.
  - intros H. exists x. split; [assumption | apply String.eqb_refl].
Qed.

Lemma existsb_eqb_not_In (x : string) (l : list string) :
  existsb (String.eqb x) l = false <-> ~ In x l.
Proof.
  rewrite <- existsb_eqb_In. destruct (existsb (String.eqb x) l); split;
    congruence.
Qed.

(** ** The statement of [ensure_columns] is never built *)

(** The template names its first field [t]; no keyword argument is passed. *)
Lemma sql_format_alter args :
  sql_format ALTER_TEMPLATE (Some 0%nat) args ∅ = Raise (KeyError "t").
Proof. unfold ALTER_TEMPLATE. cbn [sql_format]. now rewrite lookup_empty. Qed.

Lemma ensure_columns_loop_spec db sql_loaded now table_name existing v types keys :
  ensure_columns_loop db sql_loaded now table_name existing v keys types
  = if existsb (needs_column existing) keys
    then Raise (first_error sql_loaded)
    else Ok db.
Proof.
  induction keys as [|key rest IH]; cbn [ensure_columns_loop existsb];
    [reflexivity|].
  unfold needs_column at 1.
  destruct (is_reserved key); cbn [negb andb orb]; [exact IH|].
  destruct (existsb (String.eqb key) existing); cbn [negb andb orb]; [exact IH|].
  destruct sql_loaded; cbn [psycopg2_sql bind first_error]; [|reflexivity].
  now rewrite sql_format_alter.
Qed.

Lemma ensure_columns_spec db sql_loaded now table_name keys types :
  ensure_columns db sql_loaded now table_name keys types
  = if existsb (needs_column (existing_columns db table_name)) keys
    then Raise (first_error sql_loaded)
    else Ok db.
Proof. unfold ensure_columns. apply ensure_columns_loop_spec. Qed.

(** C3.  The code never adds a column, so it never records one.  The
    statement that would add it is built by [format] from a template whose
    fields are named [t] and [c], with positional arguments only: for the
    first field that is neither a lineage column nor a column of the table,
    [ensure_columns] raises [KeyError] on [t] (or, in a process where
    [psycopg2.sql] is not loaded yet, [AttributeError]) before any
    statement is sent; it returns only when there is no such field, and
    then the store is as it was.  On the table just created, the fields
    [yyyy] and [col_a] raise. *)
Theorem schema_evolution_raises_before_adding :
  (forall db sql_loaded now table_name keys types,
     ensure_columns db sql_loaded now table_name keys types
     = if existsb (needs_column (existing_columns db table_name)) keys
       then Raise (if sql_loaded then KeyError "t"
                   else AttributeError "module 'psycopg2' has no attribute 'sql'")
       else Ok db) /\
  (forall db sql_loaded now table_name keys types db',
     ensure_columns db sql_loaded now table_name keys types = Ok db' ->
     db' = db /\
     forall k, In k keys ->
       is_reserved k = true \/ In k (existing_columns db table_name)) /\
  exists db,
    ensure_canonical_table empty_db "table_01" = Ok db /\
    ensure_columns db true "2024-01-01" "table_01" ["yyyy"; "col_a"]%string
      {[ "col_a"%string := "bigint"%string ]} = Raise (KeyError "t") /\
    ensure_columns db true "2024-01-01" "table_01" ["yyyy"]%string ∅ = Ok db.
Proof.
  split; [|split].
  - intros. rewrite ensure_columns_spec. reflexivity.
  - intros db sql_loaded now table_name keys types db'.
    rewrite ensure_columns_spec.
    destruct (existsb _ keys) eqn:E; [discriminate|].
    intros [= <-]. split; [reflexivity|]. intros k Hin.
    assert (Hk : needs_column (existing_columns db table_name) k = false).
    { destruct (needs_column _ k) eqn:Ek; [|reflexivity].
      assert (existsb (needs_column (existing_columns db table_name)) keys = true)
        by (apply existsb_exists; eauto). congruence. }
    unfold needs_column in Hk. destruct (is_reserved k); [now left|].
    right. apply existsb_eqb_In.
    destruct (existsb (String.eqb k) _); [reflexivity | discriminate].
  - eexists. split; [reflexivity|]. rewrite !ensure_columns_spec.
    split; vm_compute; reflexivity.
Qed.

(** ** The table and the merge *)

Lemma ensure_canonical_table_inv db table_name db' :
  ensure_canonical_table db table_name = Ok db' ->
  exists rel,
    relation_name table_name = Ok rel /\
    (db' = db \/
     tables db !! rel = None /\
     db' = set_tables db (<[rel := mkTable base_columns []]> (tables db))).
Proof.
  unfold ensure_canonical_table.
  destruct (relation_name table_name) as [rel|]; cbn [bind]; [|discriminate].
  destruct (tables db !! rel) eqn:E; intros [= <-]; exists rel; auto.
Qed.

Lemma ensure_canonical_table_frame db table_name db' :
  ensure_canonical_table db table_name = Ok db' ->
  files db' = files db /\ files_seq db' = files_seq db /\
  staging db' = staging db /\ staging_seq db' = staging_seq db /\
  schema_registry db' = schema_registry db /\
  forall t, rows_of db' t = rows_of db t.
Proof.
  intros H. apply ensure_canonical_table_inv in H as (rel & _ & [->|[Hn ->]]).
  - repeat split; reflexivity.
  - do 5 (split; [reflexivity|]). intros t. unfold rows_of. cbn [tables set_tables].
    destruct (decide (rel = t)) as [<-|Hne].
    + now rewrite lookup_insert_eq, Hn.
    + now rewrite lookup_insert_ne.
Qed.

(** A table the statement finds, or has just made, under the name as
    given has at least the columns it had, and a new one has the lineage
    columns only. *)
Lemma ensure_canonical_table_columns db table_name db' k :
  ensure_canonical_table db table_name = Ok db' ->
  In k (existing_columns db' table_name) ->
  is_reserved k = true \/ In k (existing_columns db table_name).
Proof.
  intros H. apply ensure_canonical_table_inv in H as (rel & _ & [->|[Hn ->]]);
    [now right|].
  unfold existing_columns. cbn [tables set_tables].
  destruct (decide (rel = table_name)) as [->|Hne].
  - rewrite lookup_insert_eq. intros Hin. left.
    unfold column_names, base_columns in Hin. cbn [columns map fst] in Hin.
    unfold is_reserved. apply existsb_eqb_In. exact Hin.
  - rewrite lookup_insert_ne by assumption. now right.
Qed.


Lemma filter_all_true {A} (p : A -> bool) l :
  Forall (fun x => p x = true) l -> List.filter p l = l.
Proof.
  induction 1 as [|x l Hx _ IH]; simpl; [reflexivity|]. now rewrite Hx, IH.
Qed.

Lemma rows_of_insert db rel tb t :
  rows_of (set_tables db (<[rel := tb]> (tables db))) t
  = if decide (rel = t) then rows tb else rows_of db t.
Proof.
  unfold rows_of. cbn [tables set_tables]. destruct (decide (rel = t)) as [<-|Hne].
  - now rewrite lookup_insert_eq.
  - now rewrite lookup_insert_ne.
Qed.

Section Engine.
Variable json_key : string -> string.
Variable cast_ok : string -> string -> bool.
Variable assign_ok : string -> string -> bool.

(** The rows the merge statement selects: the lineage and meta columns are
    read off the staged rows, in their order. *)
Lemma project_rows_fields t types batch cols rs :
  forall new,
    project_rows json_key cast_ok assign_ok t types batch cols rs = Ok new ->
    map src_file_id new = map s_file_id rs /\
    map src_row_num new = map row_num rs /\
    map entity_id new = map s_entity_id rs /\
    map c_yyyy new = map s_yyyy rs /\
    map c_mm new = map s_mm rs /\
    Forall (fun r => batch_id r = batch) new.
Proof.
  induction rs as [|r rs IH]; intros new; cbn [project_rows].
  - intros [= <-]. repeat split; constructor.
  - destruct (project_cells _ _ _ t types r cols) as [cs|]; simpl; [|discriminate].
    destruct (project_rows _ _ _ t types batch cols rs) as [out|]; simpl;
      [|discriminate].
    intros [= <-]. destruct (IH out eq_refl) as (H1 & H2 & H3 & H4 & H5 & H6).
    simpl. rewrite H1, H2, H3, H4, H5. repeat split. constructor; auto.
Qed.

(** What a merge that returns has done: [psycopg2.sql] was loaded, no
    field needed a column, and one row per staged row of the file was
    appended to the table the name designates; nothing else changed. *)
Lemma merge_file_into_canonical_inv db sql_loaded now table_name fid batch db' :
  merge_file_into_canonical json_key cast_ok assign_ok db sql_loaded now
    table_name fid batch = Ok db' ->
  sql_loaded = true /\
  (forall k, In k (discover_keys_for_file db fid) ->
     is_reserved k = true \/ In k (existing_columns db table_name)) /\
  exists rel t new,
    relation_name table_name = Ok rel /\
    tables db !! rel = Some t /\
    db' = set_tables db (<[rel := mkTable (columns t) (rows t ++ new)]> (tables db)) /\
    map src_file_id new = map s_file_id (staged_rows_of db fid) /\
    map src_row_num new = map row_num (staged_rows_of db fid) /\
    map entity_id new = map s_entity_id (staged_rows_of db fid) /\
    map c_yyyy new = map s_yyyy (staged_rows_of db fid) /\
    map c_mm new = map s_mm (staged_rows_of db fid) /\
    Forall (fun r => batch_id r = batch) new.
Proof.
  unfold merge_file_into_canonical. rewrite ensure_columns_spec.
  destruct (existsb _ (discover_keys_for_file db fid)) eqn:E;
    cbn [bind]; [discriminate|].
  destruct sql_loaded; cbn [psycopg2_sql bind]; [|discriminate].
  destruct (relation_name table_name) as [rel|]; cbn [bind]; [|discriminate].
  destruct (tables db !! rel) as [t|] eqn:Et; [|discriminate].
  destruct (project_rows _ _ _ t _ batch _ _) as [new|] eqn:Ep; cbn [bind];
    [|discriminate].
  intros [= <-]. split; [reflexivity|]. split.
  - intros k Hin.
    assert (Hk : needs_column (existing_columns db table_name) k = false).
    { destruct (needs_column _ k) eqn:Ek; [|reflexivity].
      assert (existsb (needs_column (existing_columns db table_name))
                (discover_keys_for_file db fid) = true)
        by (apply existsb_exists; eauto). congruence. }
    unfold needs_column in Hk. destruct (is_reserved k); [now left|].
    right. apply existsb_eqb_In.
    destruct (existsb (String.eqb k) _); [reflexivity | discriminate].
  - exists rel, t, new. split; [reflexivity|]. split; [exact Et|].
    split; [reflexivity|]. exact (project_rows_fields _ _ _ _ _ _ Ep).
Qed.

Lemma merge_file_into_canonical_frame db sql_loaded now table_name fid batch db' :
  merge_file_into_canonical json_key cast_ok assign_ok db sql_loaded now
    table_name fid batch = Ok db' ->
  files db' = files db /\ files_seq db' = files_seq db /\
  staging db' = staging db /\ staging_seq db' = staging_seq db /\
  schema_registry db' = schema_registry db /\
  exists rel new,
    relation_name table_name = Ok rel /\
    rows_of db' rel = rows_of db rel ++ new /\
    (forall t, t <> rel -> rows_of db' t = rows_of db t) /\
    map src_file_id new = map s_file_id (staged_rows_of db fid) /\
    map src_row_num new = map row_num (staged_rows_of db fid) /\
    map entity_id new = map s_entity_id (staged_rows_of db fid) /\
    map c_yyyy new = map s_yyyy (staged_rows_of db fid) /\
    map c_mm new = map s_mm (staged_rows_of db fid) /\
    Forall (fun r => batch_id r = batch) new.
Proof.
  intros H. apply merge_file_into_canonical_inv in H
    as (_ & _ & rel & t & new & Hrel & Ht & -> & N).
  do 5 (split; [reflexivity|]). exists rel, new. split; [exact Hrel|].
  split; [|split; [|exact N]].
  - rewrite rows_of_insert. destruct (decide (rel = rel)); [|congruence].
    unfold rows_of. now rewrite Ht.
  - intros t' Hne. rewrite rows_of_insert.
    destruct (decide (rel = t')); [congruence | reflexivity].
Qed.

Lemma register_file_frame db rel table_name entity y m fname sha :
  let out := register_file db rel table_name entity y m fname sha in
  staging out.2 = staging db /\ staging_seq out.2 = staging_seq db /\
  tables out.2 = tables db /\ schema_registry out.2 = schema_registry db.
Proof.
  cbv zeta. unfold register_file.
  destruct (find _ (files db)); repeat split; reflexivity.
Qed.



End Engine.



End LoaderFacts.

(* ===================================================================== *)
(** * Facts about the task schedule *)
(* ===================================================================== *)

Module ScheduleFacts.
Import Manifest Schedule.

Lemma months_range_length sy sm ey em :
  length (months_range (sy, sm) (ey, em))
  = Z.to_nat (ey * 12 + (em - 1) + 1 - (sy * 12 + (sm - 1))).
Proof. unfold months_range. now rewrite length_map, length_seqZ. Qed.

(** X1.  [months_range] yields one pair per month from [start] to [end]
    inclusive and nothing when [end] is before [start]; the pair at
    position [k] is the month [k] months after [start], with its month
    number between 1 and 12. *)
Theorem months_range_enumerates sy sm ey em :
  length (months_range (sy, sm) (ey, em))
    = Z.to_nat ((ey * 12 + em) - (sy * 12 + sm) + 1) /\
  forall k yy mm,
    months_range (sy, sm) (ey, em) !! k = Some (yy, mm) ->
    1 <= mm <= 12 /\
    yy * 12 + (mm - 1) = sy * 12 + (sm - 1) + Z.of_nat k.
Proof.
  split.
  - rewrite months_range_length. f_equal. lia.
  - intros k yy mm H. unfold months_range in H.
    rewrite list_lookup_fmap in H.
    destruct (seqZ _ _ !! k) as [n|] eqn:E; [|discriminate].
    apply lookup_seqZ in E as [-> _]. injection H as <- <-.
    pose proof (Z.mod_pos_bound (sy * 12 + (sm - 1) + Z.of_nat k) 12 ltac:(lia)).
    pose proof (Z.div_mod (sy * 12 + (sm - 1) + Z.of_nat k) 12 ltac:(lia)).
    lia.
Qed.

(** X2.  With proper month numbers and [start] not after [end], the first
    pair is [start] and the last pair is [end]. *)
Theorem months_range_endpoints sy sm ey em :
  1 <= sm <= 12 -> 1 <= em <= 12 ->
  sy * 12 + sm <= ey * 12 + em ->
  head (months_range (sy, sm) (ey, em)) = Some (sy, sm) /\
  last (months_range (sy, sm) (ey, em)) = Some (ey, em).
Proof.
  intros Hs He Hle. unfold months_range.
  set (a := sy * 12 + (sm - 1)). set (b := ey * 12 + (em - 1)).
  assert (Ha : a / 12 = sy /\ a mod 12 = sm - 1).
  { unfold a. rewrite Z.mul_comm.
    split; [symmetry; apply (Z.div_unique _ 12 sy (sm - 1)); lia
           | symmetry; apply (Z.mod_unique _ 12 sy (sm - 1)); lia]. }
  assert (Hb : b / 12 = ey /\ b mod 12 = em - 1).
  { unfold b. rewrite Z.mul_comm.
    split; [symmetry; apply (Z.div_unique _ 12 ey (em - 1)); lia
           | symmetry; apply (Z.mod_unique _ 12 ey (em - 1)); lia]. }
  split.
  - rewrite head_lookup, list_lookup_fmap.
    rewrite (lookup_seqZ_lt a (b + 1 - a) 0) by lia. simpl.
    rewrite Z.add_0_r. destruct Ha as [-> ->]. f_equal. f_equal. lia.
  - rewrite last_lookup, length_map, length_seqZ, list_lookup_fmap.
    rewrite (lookup_seqZ_lt a (b + 1 - a)) by lia. simpl.
    replace (a + Z.of_nat (Nat.pred (Z.to_nat (b + 1 - a)))) with b by lia.
    destruct Hb as [-> ->]. f_equal. f_equal. lia.
Qed.

Lemma months_range_endpoints_witness :
  head (months_range (2010, 1) (2011, 3)) = Some (2010, 1) /\
  last (months_range (2010, 1) (2011, 3)) = Some (2011, 3).
Proof. apply (months_range_endpoints 2010 1 2011 3); lia. Defined.

Section MainLoop.
Context {State : Type}.
Variable process : State -> Task -> State.

Lemma main_loop_unlimited tasks :
  forall st n,
    main_loop process 0 st n tasks
    = (foldl process st tasks, n + Z.of_nat (length tasks)).
Proof.
  induction tasks as [|t rest IH]; intros st n; simpl.
  - f_equal. lia.
  - rewrite IH. f_equal. lia.
Qed.

Lemma main_loop_limited MAX_TASKS tasks :
  MAX_TASKS <> 0 ->
  forall st n,
    n <= MAX_TASKS \/ MAX_TASKS < 0 ->
    main_loop process MAX_TASKS st n tasks
    = (foldl process st (take (Z.to_nat (MAX_TASKS - n)) tasks),
       n + Z.of_nat (length (take (Z.to_nat (MAX_TASKS - n)) tasks))).
Proof.
  intros Hne. induction tasks as [|t rest IH]; intros st n Hn; simpl.
  - rewrite take_nil. simpl. f_equal. lia.
  - destruct (Z.eqb_spec MAX_TASKS 0) as [?|_]; [contradiction|]. simpl.
    destruct (Z.leb_spec MAX_TASKS n) as [Hle|Hlt].
    + replace (Z.to_nat (MAX_TASKS - n)) with 0%nat by lia. simpl. f_equal. lia.
    + rewrite IH by lia.
      replace (Z.to_nat (MAX_TASKS - n)) with (S (Z.to_nat (MAX_TASKS - (n + 1))))
        by lia.
      simpl. f_equal. lia.
Qed.

(** X3.  The loop of [main] processes the tasks in order: all of them when
    [MAX_TASKS] is 0, the first [MAX_TASKS] of them when it is positive, and
    none when it is negative; the counter ends at the number processed. *)
Theorem main_loop_processes_prefix MAX_TASKS st tasks :
  main_loop process MAX_TASKS st 0 tasks
  = let todo := if MAX_TASKS =? 0 then tasks
                else take (Z.to_nat MAX_TASKS) tasks in
    (foldl process st todo, Z.of_nat (length todo)).
Proof.
  destruct (Z.eqb_spec MAX_TASKS 0) as [->|Hne]; cbv zeta.
  - now rewrite main_loop_unlimited.
  - rewrite main_loop_limited by (auto; lia).
    now rewrite Z.sub_0_r.
Qed.
End MainLoop.

(** X4.  The schedule has one task per identifier and month: its length is
    the number of identifiers times the number of months, a task is in it
    exactly when its identifier is configured and its month is in range, and
    the tasks of the first identifier come before all the others. *)
Theorem all_tasks_by_identifier IDS start end_ :
  length (all_tasks IDS start end_)
    = (length IDS * length (months_range start end_))%nat /\
  (forall t,
     In t (all_tasks IDS start end_) <->
     In (id t) IDS /\ In (yyyy t, mm t) (months_range start end_)) /\
  forall id_ rest,
    all_tasks (id_ :: rest) start end_
    = map (fun ym => mkTask id_ ym.1 ym.2) (months_range start end_)
      ++ all_tasks rest start end_.
Proof.
  split; [|split; [|reflexivity]].
  - unfold all_tasks. induction IDS as [|i IDS IH]; simpl; [reflexivity|].
    now rewrite length_app, length_map, IH.
  - intros t. unfold all_tasks. rewrite in_flat_map. split.
    + intros (i & Hi & Ht). apply in_map_iff in Ht as ([y m] & <- & Hym).
      simpl. auto.
    + intros [Hi Hym]. exists (id t). split; [assumption|].
      apply in_map_iff. exists (yyyy t, mm t). split; [|assumption].
      now destruct t.
Qed.

End ScheduleFacts.

(* ===================================================================== *)
(** * Facts about the sanitizer *)
(* ===================================================================== *)

Module TokenShapeFacts.
Import Text TextFacts TokenRegistry TokenShape.

Lemma subst_lower_ident c :
  is_ident_char (lower (if is_word c then c else underscore)) = true.
Proof. destruct c as [[] [] [] [] [] [] [] []]; reflexivity. Qed.

Lemma ident_char_fixed c :
  is_ident_char c = true -> lower (if is_word c then c else underscore) = c.
Proof. destruct c as [[] [] [] [] [] [] [] []]; intros H; try reflexivity; discriminate H. Qed.

Lemma all_string_map_ident s :
  all_string is_ident_char
    (map_string lower (map_string (fun c => if is_word c then c else underscore) s))
  = true.
Proof.
  induction s as [|c s IH]; simpl; [reflexivity|].
  now rewrite subst_lower_ident, IH.
Qed.

Lemma map_ident_fixed s :
  all_string is_ident_char s = true ->
  map_string lower (map_string (fun c => if is_word c then c else underscore) s) = s.
Proof.
  induction s as [|c s IH]; simpl; [reflexivity|].
  intros H. apply andb_true_iff in H as [Hc Hs].
  now rewrite ident_char_fixed, IH.
Qed.

(** ** [drop_while] *)

Lemma take_drop_while p s : (take_while p s +:+ drop_while p s)%string = s.
Proof.
  induction s as [|c s IH]; simpl; [reflexivity|].
  destruct (p c); simpl; [now rewrite IH | reflexivity].
Qed.

Lemma drop_while_starts p s : starts_with p (drop_while p s) = false.
Proof.
  induction s as [|c s IH]; simpl; [reflexivity|].
  destruct (p c) eqn:E; [exact IH | simpl; exact E].
Qed.

Lemma drop_while_fixed p s : starts_with p s = false -> drop_while p s = s.
Proof. destruct s as [|c s]; simpl; [reflexivity|]. now intros ->. Qed.

Lemma all_string_drop_while q p s :
  all_string q s = true -> all_string q (drop_while p s) = true.
Proof.
  induction s as [|c s IH]; simpl; [reflexivity|].
  intros H. destruct (p c); [|exact H].
  apply andb_true_iff in H as [_ H]. auto.
Qed.

Lemma no_double_drop_while p s :
  no_double_underscore s = true -> no_double_underscore (drop_while p s) = true.
Proof.
  induction s as [|c s IH]; [reflexivity|].
  intros H. cbn [drop_while]. destruct (p c); [|exact H].
  cbn [no_double_underscore] in H. apply andb_true_iff in H as [_ H]. auto.
Qed.

(** ** Ends of a string *)

Lemma starts_with_app p a b :
  a <> EmptyString -> starts_with p (a +:+ b) = starts_with p a.
Proof. destruct a; [congruence | reflexivity]. Qed.

Lemma rev_string_nonempty s :
  s <> EmptyString -> rev_string EmptyString s <> EmptyString.
Proof.
  intros H E. apply H. rewrite <- (rev_string_involutive s), E. reflexivity.
Qed.

Lemma rev_string_append a b :
  rev_string EmptyString (a +:+ b)
  = (rev_string EmptyString b +:+ rev_string EmptyString a)%string.
Proof. now rewrite rev_string_app, rev_string_acc. Qed.

Lemma ends_with_app p a b :
  b <> EmptyString -> ends_with p (a +:+ b) = ends_with p b.
Proof.
  intros H. unfold ends_with. rewrite rev_string_append.
  apply starts_with_app. now apply rev_string_nonempty.
Qed.

Lemma ends_with_rev p s :
  ends_with p (rev_string EmptyString s) = starts_with p s.
Proof. unfold ends_with. now rewrite rev_string_involutive. Qed.

Lemma ends_with_drop_while p q s :
  ends_with p s = false -> ends_with p (drop_while q s) = false.
Proof.
  intros H. destruct (drop_while q s) as [|c r] eqn:E; [reflexivity|].
  rewrite <- (take_drop_while q s), ends_with_app in H; [|rewrite E; discriminate].
  now rewrite E in H.
Qed.

(** ** Doubled underscores *)

Lemma no_double_app a b :
  no_double_underscore (a +:+ b)
  = no_double_underscore a && no_double_underscore b
    && negb (ends_with is_underscore a && starts_with is_underscore b).
Proof.
  induction a as [|c a IH].
  - simpl. now rewrite andb_true_r.
  - change (String c a +:+ b)%string with (String c (a +:+ b)).
    cbn [no_double_underscore]. rewrite IH.
    destruct a as [|c' a].
    + simpl. unfold ends_with. simpl.
      destruct (is_underscore c), (starts_with is_underscore b),
        (no_double_underscore b); reflexivity.
    + rewrite starts_with_app by discriminate.
      change (String c (String c' a)) with (String c EmptyString +:+ String c' a)%string.
      rewrite (ends_with_app _ (String c EmptyString)) by discriminate.
      cbn [starts_with].
      destruct (is_underscore c), (is_underscore c'),
        (no_double_underscore (String c' a)), (no_double_underscore b),
        (ends_with is_underscore (String c' a)), (starts_with is_underscore b);
        reflexivity.
Qed.

Lemma no_double_rev s :
  no_double_underscore (rev_string EmptyString s) = no_double_underscore s.
Proof.
  induction s as [|c s IH]; [reflexivity|].
  change (String c s) with (String c EmptyString +:+ s)%string at 1.
  rewrite rev_string_append, no_double_app, IH, ends_with_rev.
  cbn [no_double_underscore rev_string starts_with].
  destruct (is_underscore c), (starts_with is_underscore s),
    (no_double_underscore s); reflexivity.
Qed.

Lemma all_string_collapse q s :
  all_string q s = true -> all_string q (collapse_underscores s) = true.
Proof.
  induction s as [|c s IH]; [reflexivity|].
  intros H. cbn [all_string] in H. apply andb_true_iff in H as [Hc Hs].
  cbn [collapse_underscores].
  destruct (is_underscore c); [destruct s as [|c' s']|];
    [ simpl; now rewrite Hc
    | destruct (is_underscore c'); [now apply IH|]
    | ];
    cbn [all_string]; rewrite Hc; now apply IH.
Qed.

Lemma starts_with_collapse s :
  starts_with is_underscore (collapse_underscores s) = starts_with is_underscore s.
Proof.
  induction s as [|c s IH]; [reflexivity|].
  cbn [collapse_underscores]. destruct (is_underscore c) eqn:Ec.
  - destruct s as [|c' s']; [reflexivity|].
    destruct (is_underscore c') eqn:Ec'.
    + rewrite IH. simpl. congruence.
    + reflexivity.
  - reflexivity.
Qed.

Lemma no_double_collapse s :
  no_double_underscore (collapse_underscores s) = true.
Proof.
  induction s as [|c s IH]; [reflexivity|].
  cbn [collapse_underscores]. destruct (is_underscore c) eqn:Ec.
  - destruct s as [|c' s']; [simpl; now rewrite Ec|].
    destruct (is_underscore c') eqn:Ec'; [exact IH|].
    cbn [no_double_underscore]. rewrite IH, starts_with_collapse. simpl.
    now rewrite Ec, Ec'.
  - cbn [no_double_underscore]. now rewrite IH, Ec.
Qed.

Lemma collapse_fixed s :
  no_double_underscore s = true -> collapse_underscores s = s.
Proof.
  induction s as [|c s IH]; [reflexivity|].
  intros H. cbn [no_double_underscore] in H.
  apply andb_true_iff in H as [Hc Hs].
  cbn [collapse_underscores]. rewrite (IH Hs).
  destruct (is_underscore c); [|reflexivity].
  destruct s as [|c' s']; [reflexivity|].
  simpl in Hc. destruct (is_underscore c'); [discriminate | reflexivity].
Qed.

(** ** The strip *)

Lemma strip_shape s :
  all_string is_ident_char s = true -> no_double_underscore s = true ->
  all_string is_ident_char (strip_underscores s) = true /\
  no_double_underscore (strip_underscores s) = true /\
  starts_with is_underscore (strip_underscores s) = false /\
  ends_with is_underscore (strip_underscores s) = false.
Proof.
  intros Ha Hn. unfold strip_underscores.
  set (u := drop_while is_underscore s).
  set (w := drop_while is_underscore (rev_string EmptyString u)).
  assert (Hu : starts_with is_underscore u = false) by apply drop_while_starts.
  assert (Hw : starts_with is_underscore w = false) by apply drop_while_starts.
  repeat split.
  - rewrite all_string_rev. apply all_string_drop_while.
    rewrite all_string_rev. now apply all_string_drop_while.
  - rewrite no_double_rev. apply no_double_drop_while.
    rewrite no_double_rev. now apply no_double_drop_while.
  - fold (ends_with is_underscore w). apply ends_with_drop_while.
    now rewrite ends_with_rev.
  - now rewrite ends_with_rev.
Qed.

Lemma strip_fixed s :
  starts_with is_underscore s = false -> ends_with is_underscore s = false ->
  strip_underscores s = s.
Proof.
  intros Hs He. unfold strip_underscores.
  rewrite (drop_while_fixed _ s Hs), drop_while_fixed by exact He.
  apply rev_string_involutive.
Qed.

Lemma digit_is_ident c : is_digit c = true -> is_underscore c = false.
Proof. destruct c as [[] [] [] [] [] [] [] []]; intros H; try reflexivity; discriminate H. Qed.

(** The last step: the ["t_"] put in front of a leading digit. *)
Lemma digit_prefix_shape s2 :
  s2 <> EmptyString -> all_string is_ident_char s2 = true ->
  no_double_underscore s2 = true ->
  starts_with is_underscore s2 = false ->
  ends_with is_underscore s2 = false ->
  safe_identifier
    match s2 with
    | String c _ => if is_digit c then ("t_" +:+ s2)%string else s2
    | EmptyString => s2
    end.
Proof.
  destruct s2 as [|c r]; intros Hne Hall Hnd Hst Hen; [congruence|].
  destruct (is_digit c) eqn:Ed.
  - unfold safe_identifier. repeat split.
    + discriminate.
    + change ("t_" +:+ String c r)%string
        with (String "t" (String "_" (String c r))).
      cbn [all_string] in Hall |- *. rewrite Hall. reflexivity.
    + rewrite ends_with_app by discriminate. exact Hen.
    + change ("t_" +:+ String c r)%string
        with (String "t" (String "_" (String c r))).
      cbn [no_double_underscore starts_with] in Hnd |- *. rewrite Hnd.
      rewrite (digit_is_ident c Ed). reflexivity.
  - unfold safe_identifier. repeat split; auto; discriminate.
Qed.

Lemma sanitize_token_shape tok : safe_identifier (sanitize_token tok).
Proof.
  unfold sanitize_token.
  set (s0 := map_string lower _).
  pose proof (all_string_map_ident tok) as H0. fold s0 in H0.
  destruct (strip_shape (collapse_underscores s0)
              (all_string_collapse _ _ H0) (no_double_collapse s0))
    as (Ha & Hn & Hs & He).
  destruct (strip_underscores (collapse_underscores s0)) as [|c r] eqn:Ez.
  - apply (digit_prefix_shape "table"%string); try reflexivity; discriminate.
  - apply (digit_prefix_shape (String c r)); auto; discriminate.
Qed.

Lemma safe_identifier_fixed s : safe_identifier s -> sanitize_token s = s.
Proof.
  intros (Hne & Ha & Hd & Hs & He & Hn). unfold sanitize_token.
  rewrite (map_ident_fixed s Ha), (collapse_fixed s Hn), (strip_fixed s Hs He).
  destruct s as [|c r]; [congruence|].
  simpl in Hd. now rewrite Hd.
Qed.

(** X5.  Whatever the raw token, [sanitize_token] returns a safe
    identifier: it is not empty, consists of lower-case letters, digits and
    underscores, does not begin with a digit, neither begins nor ends with
    an underscore, and has no two underscores in a row. *)
Theorem sanitize_token_safe tok :
  let s := sanitize_token tok in
  s <> EmptyString /\
  all_string is_ident_char s = true /\
  starts_with is_digit s = false /\
  starts_with is_underscore s = false /\
  ends_with is_underscore s = false /\
  no_double_underscore s = true.
Proof.
  cbv zeta. fold (safe_identifier (sanitize_token tok)).
  unfold sanitize_token.
  set (s0 := map_string lower _).
  pose proof (all_string_map_ident tok) as H0. fold s0 in H0.
  destruct (strip_shape (collapse_underscores s0)
              (all_string_collapse _ _ H0) (no_double_collapse s0))
    as (Ha & Hn & Hs & He).
  destruct (strip_underscores (collapse_underscores s0)) as [|c r] eqn:Ez.
  - apply (digit_prefix_shape "table"%string); try reflexivity; discriminate.
  - apply (digit_prefix_shape (String c r)); auto; discriminate.
Qed.

(** X6.  Sanitizing is idempotent: a token that has been sanitized (as the
    driver does before it calls the registry) is left as it is by the
    second pass, and so is every safe identifier. *)
Theorem sanitize_token_idempotent :
  (forall tok, sanitize_token (sanitize_token tok) = sanitize_token tok) /\
  (forall s, safe_identifier s -> sanitize_token s = s).
Proof.
  split.
  - intros tok. apply safe_identifier_fixed, sanitize_token_shape.
  - apply safe_identifier_fixed.
Qed.

End TokenShapeFacts.

(* ===================================================================== *)
(** * Facts about fetching and validating *)
(* ===================================================================== *)

Module AcquireFacts.
Import Text Manifest Fabricate Acquire.

Section Download.
Variable get : Z -> Response + fetch_exn.
Variable MAX_RETRIES : Z.

(** The loop from attempt [a] on, [n] attempts left, all earlier ones
    failed. *)
Lemma attempt_loop_success n :
  forall a last slept k body,
    a <= k < a + Z.of_nat n ->
    (forall j, a <= j < k -> attempt_fails get j) ->
    attempt_result get k = inl body ->
    attempt_loop get MAX_RETRIES (seqZ a (Z.of_nat n)) last slept
    = Returned body
        (slept ++ List.filter (fun j => j <? MAX_RETRIES) (seqZ a (k - a))).
Proof.
  induction n as [|n IH]; intros a last slept k body Hk Hfail Hok; [lia|].
  rewrite Nat2Z.inj_succ, seqZ_cons by lia. cbn [attempt_loop].
  destruct (Z.eq_dec a k) as [->|Hne].
  - rewrite Hok, Z.sub_diag. simpl. now rewrite app_nil_r.
  - destruct (Hfail a ltac:(lia)) as [e He]. rewrite He.
    replace (Z.pred (Z.succ (Z.of_nat n))) with (Z.of_nat n) by lia.
    rewrite (IH (Z.succ a) (Some e) _ k body);
      [| lia | intros; apply Hfail; lia | assumption].
    f_equal. rewrite (seqZ_cons a (k - a)) by lia. simpl.
    replace (Z.pred (k - a)) with (k - Z.succ a) by lia.
    destruct (a <? MAX_RETRIES); [now rewrite <- app_assoc | reflexivity].
Qed.

Lemma attempt_loop_failure n :
  forall a last slept,
    (forall j, a <= j < a + Z.of_nat n -> attempt_fails get j) ->
    attempt_loop get MAX_RETRIES (seqZ a (Z.of_nat n)) last slept
    = match n with
      | O => match last with
             | Some e => Raised e slept
             | None => AssertionFailed
             end
      | S m =>
          match attempt_result get (a + Z.of_nat m) with
          | inr e =>
              Raised e
                (slept ++ List.filter (fun j => j <? MAX_RETRIES)
                            (seqZ a (Z.of_nat n)))
          | inl _ => AssertionFailed
          end
      end.
Proof.
  induction n as [|n IH]; intros a last slept Hfail; [reflexivity|].
  rewrite Nat2Z.inj_succ, seqZ_cons by lia. cbn [attempt_loop].
  destruct (Hfail a ltac:(lia)) as [e He]. rewrite He.
  replace (Z.pred (Z.succ (Z.of_nat n))) with (Z.of_nat n) by lia.
  rewrite IH by (intros; apply Hfail; lia).
  destruct n as [|m].
  - rewrite Z.add_0_r, He. simpl.
    destruct (a <? MAX_RETRIES); [reflexivity | now rewrite app_nil_r].
  - replace (Z.succ a + Z.of_nat m) with (a + Z.of_nat (S m)) by lia.
    destruct (attempt_result get (a + Z.of_nat (S m))); [reflexivity|].
    f_equal. cbn [List.filter].
    destruct (a <? MAX_RETRIES); [now rewrite <- app_assoc | reflexivity].
Qed.

Lemma filter_below_all n (l : list Z) :
  (forall j, In j l -> j < n) -> List.filter (fun j => j <? n) l = l.
Proof.
  induction l as [|x l IH]; intros H; simpl; [reflexivity|].
  destruct (Z.ltb_spec x n) as [_|Hge].
  - f_equal. apply IH. intros j Hj. apply H. now right.
  - specialize (H x (or_introl eq_refl)). lia.
Qed.

Lemma in_seqZ j a len : In j (seqZ a len) -> a <= j < a + len.
Proof. intros H. apply list_elem_of_In, elem_of_seqZ in H. exact H. Qed.

Lemma filter_below_upto n :
  1 <= n -> List.filter (fun j => j <? n) (seqZ 1 n) = seqZ 1 (n - 1).
Proof.
  intros Hn.
  pose proof (seqZ_app 1 (n - 1) 1 ltac:(lia) ltac:(lia)) as E.
  replace (n - 1 + 1) with n in E by lia.
  replace (1 + (n - 1)) with n in E by lia.
  assert (E1 : seqZ n 1 = [n]) by (cbn; f_equal; lia).
  rewrite E, E1, List.filter_app.
  rewrite filter_below_all by (intros j Hj; apply in_seqZ in Hj; lia).
  cbn [List.filter]. rewrite Z.ltb_irrefl. apply app_nil_r.
Qed.

Lemma attempt_loop_asserts attempts :
  forall last slept,
    attempts <> [] \/ last <> None ->
    attempt_loop get MAX_RETRIES attempts last slept <> AssertionFailed.
Proof.
  induction attempts as [|a rest IH]; intros last slept H; simpl.
  - destruct last; [discriminate | destruct H; congruence].
  - destruct (attempt_result get a); [discriminate|].
    apply IH. right. discriminate.
Qed.

(** X7.  With at least one attempt allowed, [download_zip] makes the
    requests 1, 2, ... in turn and returns the body of the first one that
    answers 200, having slept once after each attempt before it; a status
    other than 200 counts as a failed attempt like an exception of the
    transport.  When all [MAX_RETRIES] attempts fail it raises the error of
    the last one, having slept after every attempt but the last.  The
    assertion before the final [raise] never fails. *)
Theorem fetch_with_retry_outcome :
  1 <= MAX_RETRIES ->
  (forall k body,
     1 <= k <= MAX_RETRIES ->
     (forall j, 1 <= j < k -> attempt_fails get j) ->
     attempt_result get k = inl body ->
     fetch_with_retry get MAX_RETRIES = Returned body (seqZ 1 (k - 1))) /\
  ((forall j, 1 <= j <= MAX_RETRIES -> attempt_fails get j) ->
   exists e,
     attempt_result get MAX_RETRIES = inr e /\
     fetch_with_retry get MAX_RETRIES = Raised e (seqZ 1 (MAX_RETRIES - 1))) /\
  fetch_with_retry get MAX_RETRIES <> AssertionFailed.
Proof.
  intros Hn. unfold fetch_with_retry.
  replace (seqZ 1 MAX_RETRIES) with (seqZ 1 (Z.of_nat (Z.to_nat MAX_RETRIES)))
    by (now rewrite Z2Nat.id by lia).
  split; [|split].
  - intros k body Hk Hfail Hok.
    rewrite (attempt_loop_success _ 1 None [] k body) by (auto; lia).
    simpl. f_equal. apply filter_below_all.
    intros j Hj. apply in_seqZ in Hj. lia.
  - intros Hfail. rewrite attempt_loop_failure by (intros; apply Hfail; lia).
    destruct (Z.to_nat MAX_RETRIES) as [|m] eqn:E; [lia|].
    replace (1 + Z.of_nat m) with MAX_RETRIES by lia.
    destruct (Hfail MAX_RETRIES ltac:(lia)) as [e He]. rewrite He.
    exists e. split; [reflexivity|]. simpl. f_equal.
    rewrite <- E, Z2Nat.id by lia. now apply filter_below_upto.
  - apply attempt_loop_asserts. left.
    intros E. apply (f_equal (@length Z)) in E.
    rewrite length_seqZ in E. simpl in E. lia.
Qed.

End Download.

Lemma fetch_with_retry_outcome_witness :
  fetch_with_retry
    (fun k => if k =? 2 then inl (mkResponse 200 [80; 75]%N)
              else inl (mkResponse 503 []))
    3
  = Returned [80; 75]%N [1].
Proof.
  apply (proj1 (fetch_with_retry_outcome _ 3 ltac:(lia)) 2); [lia | | reflexivity].
  intros j Hj. assert (j = 1) as -> by lia.
  eexists. reflexivity.
Defined.

Section Validate.
Context {ZipFile : Type}.
Variable open_zipfile : list N -> result ZipFile.
Variable testzip : ZipFile -> option string.

Context {Gen : Type}.
Variable seed : string -> Gen.
Variable randbelow : Gen -> N -> N * Gen.
Variable deflate : list N -> list N.
Variable crc32 : list N -> N.
Variable create_system : N.

(** X8.  Every archive the dry-run mode fabricates passes the magic-bytes
    check of [safe_open_zip], which then goes on to open it and test its
    CRCs; an archive without members, which begins with the end-of-directory
    signature, is turned away as "not a ZIP". *)
Theorem fabricated_archive_has_magic clock t bytes :
  fabricate_zip_bytes seed randbelow deflate crc32 create_system clock t = Ok bytes ->
  has_zip_magic bytes = true /\
  safe_open_zip open_zipfile testzip bytes
  = (let/r zf := open_zipfile bytes in
     match testzip zf with
     | Some (String c r) =>
         Raise (ValueError ("ZIP CRC failed for member: " +:+ String c r))
     | _ => Ok zf
     end) /\
  exists empty,
    zip_bytes deflate crc32 create_system [] = Ok empty /\
    safe_open_zip open_zipfile testzip empty
    = Raise (ValueError "Not a ZIP (bad magic bytes)").
Proof.
  intros H.
  destruct (FabricateFacts.fabricate_zip_bytes_stamp _ _ _ _ _ _ _ _ H)
    as (fl & tm & dt & rest & _ & _ & _ & ->).
  split; [reflexivity|]. split; [reflexivity|].
  eexists. split; reflexivity.
Qed.
End Validate.

Lemma fabricated_archive_has_magic_witness :
  has_zip_magic
    [80; 75; 3; 4; 20; 0; 0; 0; 8; 0; 0; 96; 33; 88; 0; 0; 0; 0; 46; 0;
     0; 0; 46; 0; 0; 0; 26; 0; 0; 0; 48; 48; 48; 48; 49; 95; 50; 48; 50;
     48; 45; 48; 51; 95; 116; 111; 107; 101; 110; 95; 48; 49; 46; 99;
     115; 118; 99; 111; 108; 95; 97; 44; 99; 111; 108; 95; 98; 44; 118;
     97; 108; 117; 101; 13; 10; 65; 48; 44; 66; 48; 44; 49; 13; 10; 65;
     49; 44; 66; 49; 44; 49; 13; 10; 65; 50; 44; 66; 50; 44; 49; 13; 10;
     80; 75; 1; 2; 20; 3; 20; 0; 0; 0; 8; 0; 0; 96; 33; 88; 0; 0; 0; 0;
     46; 0; 0; 0; 46; 0; 0; 0; 26; 0; 0; 0; 0; 0; 0; 0; 0; 0; 0; 0; 128;
     1; 0; 0; 0; 0; 48; 48; 48; 48; 49; 95; 50; 48; 50; 48; 45; 48; 51;
     95; 116; 111; 107; 101; 110; 95; 48; 49; 46; 99; 115; 118; 80; 75;
     5; 6; 0; 0; 0; 0; 1; 0; 1; 0; 72; 0; 0; 0; 102; 0; 0; 0; 0; 0]%N
  = true.
Proof.
  apply (fabricated_archive_has_magic (ZipFile := unit)
           (fun _ => Ok tt) (fun _ => None)
           (Gen := unit) (fun _ => tt) (fun g _ => (0%N, g)) (fun d => d)
           (fun _ => 0%N) 3%N
           (fun _ => mkDateTime 2024 1 1 12 0 0) (mkTask "00001" 2020 3)).
  vm_compute. reflexivity.
Defined.

End AcquireFacts.

(* ===================================================================== *)
(** * More facts about the token registry *)
(* ===================================================================== *)

Module RegistryInvariants.
Import Text TextFacts TokenRegistry TokenRegistryFacts TokenShape TokenShapeFacts.

Lemma select_canonical_none_token con tok :
  select_canonical con tok = None -> tok ∉ map token con.
Proof.
  induction con as [|r con IH]; simpl; [intros _; apply not_elem_of_nil|].
  destruct (String.eqb_spec (token r) tok) as [|Hne]; [discriminate|].
  intros H. apply not_elem_of_cons. split; [congruence | auto].
Qed.

Lemma select_canonical_some_token con tok c :
  select_canonical con tok = Some c ->
  exists r, r ∈ con /\ token r = tok /\ canonical r = c.
Proof.
  induction con as [|r con IH]; simpl; [discriminate|].
  destruct (String.eqb_spec (token r) tok) as [E|Hne].
  - intros [= <-]. exists r. split; [left | auto].
  - intros H. destruct (IH H) as (r' & Hin & Ht & Hc).
    exists r'. split; [now right | auto].
Qed.

Lemma names_upto_NoDup n : NoDup (names_upto n).
Proof.
  apply NoDup_alt. intros i j x Hi Hj.
  pose proof (lookup_lt_Some _ _ _ Hi) as Li.
  pose proof (lookup_lt_Some _ _ _ Hj) as Lj.
  unfold names_upto in Li, Lj. rewrite length_map, length_seq in Li, Lj.
  rewrite names_upto_lookup in Hi, Hj by assumption.
  assert (E : canonical_name (Z.of_nat (S i)) = canonical_name (Z.of_nat (S j)))
    by congruence.
  apply canonical_name_inj in E; lia.
Qed.

(** The tokens of a reachable table are distinct safe identifiers. *)
Lemma reachable_tokens con :
  reachable con ->
  NoDup (map token con) /\ forall r, r ∈ con -> safe_identifier (token r).
Proof.
  induction 1 as [|con now tok r _ [IHn IHs] H].
  - split; [constructor | intros r Hr; now apply elem_of_nil in Hr].
  - destruct (get_or_alloc_type_inv _ _ _ _ H)
      as [(_ & -> & _) | (Hs & _ & _ & ->)]; [auto|].
    split.
    + rewrite map_app. apply NoDup_app. split; [assumption|]. split.
      * intros x Hx Hin. simpl in Hin. apply list_elem_of_singleton in Hin.
        subst x. now apply (select_canonical_none_token _ _ Hs).
      * simpl. apply NoDup_singleton.
    + intros r' Hr'. apply elem_of_app in Hr' as [Hr'|Hr']; [auto|].
      apply list_elem_of_singleton in Hr'. subst r'. simpl.
      apply sanitize_token_shape.
Qed.

(** X9.  In every table the program can build there are at most 100 rows,
    no token and no bucket name occurs twice, every token is a safe
    identifier, and the row inserted by the [i]-th allocation carries the
    name of index [i]. *)
Theorem registry_invariants con :
  reachable con ->
  (length con <= 100)%nat /\
  NoDup (map token con) /\
  NoDup (map canonical con) /\
  (forall r, r ∈ con -> safe_identifier (token r)) /\
  (forall i r, con !! i = Some r ->
     canonical r = canonical_name (Z.of_nat (S i)) /\
     bucket_index (canonical r) = Z.of_nat (S i)).
Proof.
  intros R. pose proof (reachable_well_formed con R) as W.
  destruct (reachable_tokens con R) as [Hn Hs].
  split; [apply W|]. split; [exact Hn|]. split; [|split; [exact Hs|]].
  - rewrite (well_formed_names con W). apply names_upto_NoDup.
  - intros i r Hi. destruct W as [_ W]. destruct (W i r Hi) as [Hc _].
    split; [exact Hc|]. rewrite Hc. apply bucket_index_canonical_name. lia.
Qed.

Lemma registry_invariants_witness :
  let con := table_of_tokens "2024-01-01T00:00:00" (sample_tokens 3) in
  (length con <= 100)%nat /\
  NoDup (map token con) /\
  NoDup (map canonical con) /\
  (forall r, r ∈ con -> safe_identifier (token r)) /\
  (forall i r, con !! i = Some r ->
     canonical r = canonical_name (Z.of_nat (S i)) /\
     bucket_index (canonical r) = Z.of_nat (S i)).
Proof.
  apply (registry_invariants
           (table_of_tokens "2024-01-01T00:00:00" (sample_tokens 3))).
  apply table_of_tokens_reachable.
Defined.

(** The buckets handed out to [n] new tokens by a table of [len] rows. *)
Lemma next_names_shift len n :
  map (fun i => canonical_name (Z.of_nat (len + S i))) (seq 1 n)
  = map (fun i => canonical_name (Z.of_nat (S len + S i))) (seq 0 n).
Proof.
  rewrite <- seq_shift, map_map. apply map_ext. intros i. f_equal. lia.
Qed.

Lemma resolve_new_tokens now toks :
  forall con,
    reachable con ->
    NoDup (map sanitize_token toks) ->
    (forall t, t ∈ toks -> select_canonical con (sanitize_token t) = None) ->
    (length con + length toks <= 100)%nat ->
    exists con',
      resolve_all con now toks
      = Ok (map (fun i => canonical_name (Z.of_nat (length con + S i)))
              (seq 0 (length toks)), con') /\
      length con' = (length con + length toks)%nat.
Proof.
  induction toks as [|t toks IH]; intros con R Hnd Hnew Hlen.
  - exists con. split; [reflexivity | simpl; lia].
  - simpl in Hnd. apply NoDup_cons in Hnd as [Hnt Hnd]. simpl in Hlen.
    pose proof (reachable_well_formed con R) as W.
    assert (Ht : select_canonical con (sanitize_token t) = None)
      by (apply Hnew; left).
    pose proof (alloc_below_100 con now t W ltac:(lia) Ht) as Ha.
    cbn [resolve_all]. rewrite Ha. cbn [bind table_after bucket].
    set (row := mkTypeRow _ _ _ _).
    destruct (IH (con ++ [row])) as (con' & Hr & Hl).
    + apply (reach_call con now t _ R Ha).
    + exact Hnd.
    + intros t' Ht'. rewrite select_canonical_app_none by (apply Hnew; now right).
      simpl. destruct (String.eqb_spec (sanitize_token t) (sanitize_token t'))
        as [E|_]; [|reflexivity].
      exfalso. apply Hnt. rewrite E.
      apply list_elem_of_In, in_map, list_elem_of_In, Ht'.
    + rewrite length_app. simpl. lia.
    + exists con'. rewrite Hr. cbn [bind fst snd]. split.
      * f_equal. f_equal. cbn [length seq map].
        f_equal; [f_equal; f_equal; lia|].
        rewrite length_app. cbn [length].
        rewrite <- seq_shift, map_map. apply map_ext.
        intros i. f_equal. lia.
      * rewrite Hl, length_app. simpl. lia.
Qed.

(** X10.  Resolving [n] tokens that are new and pairwise different after
    sanitizing, on a table of [len] rows with [len + n <= 100], gives them
    the buckets of the consecutive indices [len + 1] .. [len + n], in order,
    and leaves a table of [len + n] rows. *)
Theorem new_tokens_get_consecutive_buckets con now toks :
  reachable con ->
  NoDup (map sanitize_token toks) ->
  (forall t, t ∈ toks -> select_canonical con (sanitize_token t) = None) ->
  (length con + length toks <= 100)%nat ->
  exists con',
    resolve_all con now toks
    = Ok (map (fun i => canonical_name (Z.of_nat (length con) + Z.of_nat i))
            (seq 1 (length toks)), con') /\
    length con' = (length con + length toks)%nat /\
    reachable con'.
Proof.
  intros R Hnd Hnew Hlen.
  destruct (resolve_new_tokens now toks con R Hnd Hnew Hlen) as (con' & Hr & Hl).
  exists con'. split; [|split; [exact Hl|]].
  - rewrite Hr. f_equal. f_equal.
    rewrite <- seq_shift, map_map. apply map_ext. intros i. f_equal. lia.
  - eapply resolve_all_reachable; eauto.
Qed.

Lemma new_tokens_get_consecutive_buckets_witness :
  exists con',
    resolve_all [] "2024-01-01T00:00:00" ["Alpha"; "beta-2"; "9 lives"]%string
    = Ok (["table_01"; "table_02"; "table_03"]%string, con') /\
    length con' = 3%nat /\
    reachable con'.
Proof.
  apply (new_tokens_get_consecutive_buckets [] "2024-01-01T00:00:00"
           ["Alpha"; "beta-2"; "9 lives"]%string).
  - constructor.
  - vm_compute. repeat constructor; intros H;
      repeat (apply elem_of_cons in H as [H|H]; [discriminate|]);
      now apply elem_of_nil in H.
  - intros t _. reflexivity.
  - simpl. lia.
Defined.

(** X11.  A table of 100 rows serves the tokens it holds and refuses every
    other one: the call raises the uniqueness error of [canonical] and the
    table stays as it is. *)
Theorem full_registry_refuses_new_tokens con now tok :
  reachable con -> length con = 100%nat ->
  match select_canonical con (sanitize_token tok) with
  | Some c => get_or_alloc_type con now tok = Ok (mkResolved c con [])
  | None =>
      get_or_alloc_type con now tok
      = Raise (IntegrityError "UNIQUE constraint failed: types.canonical")
  end.
Proof.
  intros R L. pose proof (reachable_well_formed con R) as W.
  destruct (select_canonical con (sanitize_token tok)) as [c|] eqn:E.
  - now apply get_or_alloc_type_found.
  - now apply alloc_at_100.
Qed.

Lemma full_registry_refuses_new_tokens_witness :
  get_or_alloc_type (table_of_tokens "2024-01-01T00:00:00" (sample_tokens 100))
    "2024-01-02T00:00:00" "one more"
  = Raise (IntegrityError "UNIQUE constraint failed: types.canonical").
Proof.
  apply (full_registry_refuses_new_tokens
           (table_of_tokens "2024-01-01T00:00:00" (sample_tokens 100))
           "2024-01-02T00:00:00" "one more").
  - apply table_of_tokens_reachable.
  - vm_compute. reflexivity.
Defined.

End RegistryInvariants.

(* ===================================================================== *)
(** * More facts about the manifest and the task pipeline *)
(* ===================================================================== *)

Module AttemptsFacts.
Import Manifest ManifestFacts Attempts.

Lemma set_status_row con now t st err path sha :
  set_status con now t st err path sha !! task_key t
  = Some (mkManifestRow st
            (match con !! task_key t with
             | Some old => attempts old
             | None => 0
             end + 1)
            err path sha
            (match con !! task_key t with
             | Some old => created_at old
             | None => now
             end)
            now).
Proof.
  unfold set_status. destruct (con !! task_key t); now rewrite lookup_insert_eq.
Qed.

Lemma record_attempts_other con t us k :
  k <> task_key t -> record_attempts con t us !! k = con !! k.
Proof.
  intros Hk. unfold record_attempts. revert con.
  induction us as [|u us IH]; intros con; simpl; [reflexivity|].
  rewrite IH. now apply set_status_other.
Qed.

(** X12.  After any number of calls of [set_status] for one task, the
    task's row holds what the last call stored (status, error, path, hash,
    update time), its attempt counter has gone up by the number of calls,
    and [created_at] is still the time of the first call ever made for the
    task; the rows of all other tasks are untouched. *)
Theorem set_status_counts_attempts con t us u :
  record_attempts con t (us ++ [u]) !! task_key t
  = Some (mkManifestRow (u_status u)
            (match con !! task_key t with
             | Some old => attempts old
             | None => 0
             end + Z.of_nat (length us) + 1)
            (u_error u) (u_zip_path u) (u_zip_sha256 u)
            (match con !! task_key t with
             | Some old => created_at old
             | None => match us with
                       | [] => u_now u
                       | first :: _ => u_now first
                       end
             end)
            (u_now u)) /\
  forall k, k <> task_key t -> record_attempts con t (us ++ [u]) !! k = con !! k.
Proof.
  split; [|intros k Hk; now apply record_attempts_other].
  revert con. induction us as [|u0 us IH]; intros con.
  - simpl. rewrite set_status_row. do 2 f_equal. lia.
  - change (record_attempts con t ((u0 :: us) ++ [u]))
      with (record_attempts
              (set_status con (u_now u0) t (u_status u0) (u_error u0)
                 (u_zip_path u0) (u_zip_sha256 u0)) t (us ++ [u])).
    rewrite IH, set_status_row. cbn [attempts created_at length].
    destruct (con !! task_key t); f_equal; f_equal; try reflexivity; lia.
Qed.

Section Pipeline.
Context {World : Type}.
Variable acquire : Task -> World -> filesystem ->
                   result (string * string) * World * filesystem.
Variable str_exn : exn -> string.

(** X13.  When the pipeline of a task succeeds and the archive it reports
    is on disk, the task is complete afterwards and processing it again
    does nothing at all: manifest, registry and disk stay as they are. *)
Theorem process_task_twice con w fs now now' t final sha w' fs' :
  already_ok con fs t = false ->
  acquire t w fs = (Ok (final, sha), w', fs') ->
  final <> EmptyString -> final ∈ fs' ->
  let st := process_task acquire str_exn con w fs now t in
  st = (set_status con now t "ok" None (Some final) (Some sha), w', fs') /\
  already_ok st.1.1 st.2 t = true /\
  process_task acquire str_exn st.1.1 st.1.2 st.2 now' t = st.
Proof.
  intros Hno Ha Hne Hin. cbv zeta.
  assert (E : process_task acquire str_exn con w fs now t
              = (set_status con now t "ok" None (Some final) (Some sha), w', fs')).
  { unfold process_task. now rewrite Hno, Ha. }
  rewrite E. cbn [fst snd].
  assert (Hok : already_ok (set_status con now t "ok" None (Some final) (Some sha))
                  fs' t = true).
  { rewrite after_ok by assumption. unfold path_exists.
    now apply bool_decide_eq_true_2. }
  split; [reflexivity|]. split; [exact Hok|].
  unfold process_task. now rewrite Hok.
Qed.

(** X14.  A task whose pipeline raises is recorded as failed with the text
    of the exception and without an archive path; no other task's row
    changes; and the task is not complete, whatever is on disk, so the next
    run takes it up again and counts one more attempt. *)
Theorem failed_task_is_retried con w fs now now' t e w' fs' :
  already_ok con fs t = false ->
  acquire t w fs = (Raise e, w', fs') ->
  let st := process_task acquire str_exn con w fs now t in
  st.1.1 !! task_key t
  = Some (mkManifestRow "failed"
            (match con !! task_key t with
             | Some old => attempts old
             | None => 0
             end + 1)
            (Some (str_exn e)) None None
            (match con !! task_key t with
             | Some old => created_at old
             | None => now
             end)
            now) /\
  (forall k, k <> task_key t -> st.1.1 !! k = con !! k) /\
  (forall disk, already_ok st.1.1 disk t = false) /\
  exists row,
    (process_task acquire str_exn st.1.1 st.1.2 st.2 now' t).1.1 !! task_key t
      = Some row /\
    attempts row = match con !! task_key t with
                   | Some old => attempts old
                   | None => 0
                   end + 2.
Proof.
  intros Hno Ha. cbv zeta.
  assert (E : process_task acquire str_exn con w fs now t
              = (set_status con now t "failed" (Some (str_exn e)) None None, w', fs')).
  { unfold process_task. now rewrite Hno, Ha. }
  rewrite E. cbn [fst snd].
  split; [apply set_status_row|]. split; [intros k Hk; now apply set_status_other|].
  split; [intros disk; apply after_failed|].
  unfold process_task. rewrite after_failed.
  destruct (acquire t w' fs') as [[[[final sha]|e2] w2] fs2]; cbn [fst snd];
    rewrite set_status_row, set_status_row; eexists; (split; [reflexivity|]);
    simpl; lia.
Qed.

End Pipeline.

Lemma process_task_twice_witness :
  let acq := fun (t : Task) (w : unit) (fs : filesystem) =>
               (Ok ("data/raw/00001/2020/03/source.zip"%string, "ab12"%string), w,
                {[ "data/raw/00001/2020/03/source.zip"%string ]} ∪ fs) in
  let t := mkTask "00001" 2020 3 in
  let st := process_task acq (fun _ => "error"%string) ∅ tt ∅ "2024-01-01" t in
  already_ok st.1.1 st.2 t = true /\
  process_task acq (fun _ => "error"%string) st.1.1 st.1.2 st.2 "2024-01-02" t = st.
Proof.
  cbv zeta.
  refine (proj2 (process_task_twice
           (fun (t : Task) (w : unit) (fs : filesystem) =>
              (Ok ("data/raw/00001/2020/03/source.zip"%string, "ab12"%string), w,
               {[ "data/raw/00001/2020/03/source.zip"%string ]} ∪ fs))
           (fun _ => "error"%string) ∅ tt ∅ "2024-01-01" "2024-01-02"
           (mkTask "00001" 2020 3)
           "data/raw/00001/2020/03/source.zip" "ab12" tt
           ({[ "data/raw/00001/2020/03/source.zip"%string ]} ∪ ∅) _ _ _ _)).
  - reflexivity.
  - reflexivity.
  - discriminate.
  - apply elem_of_union_l, elem_of_singleton. reflexivity.
Defined.

Lemma failed_task_is_retried_witness :
  let acq := fun (t : Task) (w : unit) (fs : filesystem) =>
               (Raise (ValueError "Not a ZIP (bad magic bytes)"), w, fs) in
  let t := mkTask "00001" 2020 3 in
  already_ok (process_task acq (fun _ => "Not a ZIP"%string) ∅ tt ∅
                "2024-01-01" t).1.1
    {[ "data/raw/00001/2020/03/source.zip"%string ]} t = false.
Proof.
  cbv zeta.
  refine (proj1 (proj2 (proj2 (failed_task_is_retried
           (fun (t : Task) (w : unit) (fs : filesystem) =>
              (Raise (ValueError "Not a ZIP (bad magic bytes)"), w, fs))
           (fun _ => "Not a ZIP"%string) ∅ tt ∅ "2024-01-01" "2024-01-02"
           (mkTask "00001" 2020 3)
           (ValueError "Not a ZIP (bad magic bytes)") tt ∅ _ _)))
           {[ "data/raw/00001/2020/03/source.zip"%string ]}).
  - reflexivity.
  - reflexivity.
Defined.

End AttemptsFacts.

(* ===================================================================== *)
(** * Facts about the path of a normalized file *)
(* ===================================================================== *)

Module PathsFacts.
Import Text TextFacts Infer Paths.

Lemma digit_not_space c : is_digit c = true -> is_int_space c = false.
Proof. destruct c as [[] [] [] [] [] [] [] []]; intros H; try reflexivity; discriminate H. Qed.

Lemma digit_not_sign c :
  is_digit c = true ->
  Ascii.eqb c "-"%char = false /\ Ascii.eqb c "+"%char = false /\
  Ascii.eqb c underscore = false.
Proof. destruct c as [[] [] [] [] [] [] [] []]; intros H; try (repeat split; reflexivity); discriminate H. Qed.

Lemma rstrip_digits s :
  all_string is_digit s = true -> rstrip is_int_space s = s.
Proof.
  induction s as [|c s IH]; [reflexivity|]. simpl.
  intros H. apply andb_true_iff in H as [Hc Hs]. rewrite (IH Hs).
  destruct s; [now rewrite (digit_not_space c Hc) | reflexivity].
Qed.

Lemma int_body_digits s :
  forall acc,
    all_string is_digit s = true ->
    int_body acc false s = Some (int_of_digits acc s).
Proof.
  induction s as [|c s IH]; intros acc; [reflexivity|]. simpl.
  intros H. apply andb_true_iff in H as [Hc Hs]. rewrite Hc. now apply IH.
Qed.

Lemma int_unsigned_digits s :
  all_string is_digit s = true -> s <> EmptyString ->
  int_unsigned s = Some (int_of_digits 0 s).
Proof.
  destruct s as [|c s]; [congruence|]. simpl.
  intros H _. apply andb_true_iff in H as [Hc Hs]. rewrite Hc.
  now apply int_body_digits.
Qed.

Lemma rstrip_cons p c s c' r' :
  rstrip p s = String c' r' -> rstrip p (String c s) = String c (String c' r').
Proof. intros H. simpl. now rewrite H. Qed.

Lemma py_int_strip s :
  starts_with_space s = false -> rstrip is_int_space s = s ->
  py_int s = match s with
             | String c r =>
                 if Ascii.eqb c "-"%char then (fun n => - Z.of_N n) <$> int_unsigned r
                 else if Ascii.eqb c "+"%char then Z.of_N <$> int_unsigned r
                 else Z.of_N <$> int_unsigned s
             | EmptyString => None
             end.
Proof.
  intros Hl Hr. unfold py_int, lstrip.
  assert (E : drop_while is_int_space s = s).
  { destruct s as [|c r]; [reflexivity|]. simpl in *. now rewrite Hl. }
  now rewrite E, Hr.
Qed.

(** [int] reads back a run of digits, signed or not. *)
Lemma py_int_digits s :
  all_string is_digit s = true -> s <> EmptyString ->
  py_int s = Some (Z.of_N (int_of_digits 0 s)) /\
  py_int (String "-" s) = Some (- Z.of_N (int_of_digits 0 s)).
Proof.
  intros Hd Hn. pose proof (int_unsigned_digits s Hd Hn) as Hu.
  pose proof (rstrip_digits s Hd) as Hr.
  destruct s as [|c r]; [congruence|].
  assert (Hc : is_digit c = true).
  { simpl in Hd. now apply andb_true_iff in Hd as [Hc _]. }
  destruct (digit_not_sign c Hc) as (Hm & Hp & _).
  split.
  - rewrite py_int_strip; [| simpl; now apply digit_not_space | exact Hr].
    now rewrite Hm, Hp, Hu.
  - rewrite py_int_strip; [| reflexivity |].
    + change (Ascii.eqb "-" "-") with true. cbv iota. now rewrite Hu.
    + now apply rstrip_cons.
Qed.

Lemma zeros_digits n :
  all_string is_digit (String.string_of_list_ascii (repeat "0"%char n)) = true.
Proof. induction n; simpl; auto. Qed.

Lemma int_of_digits_zeros n s :
  int_of_digits 0 (String.string_of_list_ascii (repeat "0"%char n) +:+ s)
  = int_of_digits 0 s.
Proof. induction n; simpl; auto. Qed.

Lemma padded_digits n z :
  let s := (String.string_of_list_ascii (repeat "0"%char n) +:+ str_of_N z)%string in
  all_string is_digit s = true /\ s <> EmptyString /\ int_of_digits 0 s = z.
Proof.
  cbv zeta. repeat split.
  - now rewrite all_string_app, zeros_digits, str_of_N_digits.
  - pose proof (str_of_N_nonempty z). destruct n; simpl; [assumption | discriminate].
  - now rewrite int_of_digits_zeros, int_of_str_of_N.
Qed.

Lemma py_int_fmt_04d y : py_int (fmt_04d y) = Some y.
Proof.
  unfold fmt_04d. destruct (Z.ltb_spec y 0).
  - destruct (padded_digits (3 - String.length (str_of_N (Z.to_N (- y))))
                (Z.to_N (- y))) as (Hd & Hn & Hi).
    rewrite (proj2 (py_int_digits _ Hd Hn)), Hi. f_equal. lia.
  - destruct (padded_digits (4 - String.length (str_of_N (Z.to_N y)))
                (Z.to_N y)) as (Hd & Hn & Hi).
    rewrite (proj1 (py_int_digits _ Hd Hn)), Hi. f_equal. lia.
Qed.

Lemma py_int_fmt_02d m : py_int (fmt_02d m) = Some m.
Proof.
  unfold fmt_02d, str_of_Z. destruct (Z.ltb_spec m 0).
  - rewrite (proj2 (py_int_digits _ (str_of_N_digits _) (str_of_N_nonempty _))).
    rewrite int_of_str_of_N. f_equal. lia.
  - destruct (String.length (str_of_N (Z.to_N m)) <? 2)%nat.
    + destruct (padded_digits 1 (Z.to_N m)) as (Hd & Hn & Hi).
      cbn [repeat String.string_of_list_ascii String.append] in Hd, Hn, Hi.
      rewrite (proj1 (py_int_digits _ Hd Hn)), Hi. f_equal. lia.
    + rewrite (proj1 (py_int_digits _ (str_of_N_digits _) (str_of_N_nonempty _))).
      rewrite int_of_str_of_N. f_equal. lia.
Qed.

(** X15.  The loader reads back what the scraper wrote: for every bucket,
    identifier, year, month and file name, [parse_path] applied to the path
    [normalize_and_write_csv] builds from them returns exactly these five
    values (the zero-padded year and month are read back by [int]). *)
Theorem parse_path_reads_normalized_path canonical_type id_ yyyy mm name :
  parse_path (normalized_parts canonical_type id_ yyyy mm name)
  = inl (canonical_type, id_, yyyy, mm, name).
Proof.
  unfold parse_path, normalized_parts. cbn [index_of String.eqb Ascii.eqb].
  simpl index_of. cbn [lookup list_lookup Nat.add].
  simpl. rewrite py_int_fmt_04d, py_int_fmt_02d. reflexivity.
Qed.

Lemma index_of_spec x parts i :
  index_of x parts = Some i ->
  parts !! i = Some x /\ forall j, (j < i)%nat -> parts !! j <> Some x.
Proof.
  revert i. induction parts as [|p rest IH]; intros i; simpl; [discriminate|].
  destruct (String.eqb_spec p x) as [->|Hne].
  - intros [= <-]. split; [reflexivity | intros j Hj; lia].
  - destruct (index_of x rest) as [k|]; [|discriminate].
    intros [= <-]. destruct (IH k eq_refl) as [Hk Hbefore].
    split; [exact Hk|]. intros [|j] Hj; simpl; [congruence|].
    apply Hbefore. lia.
Qed.

Lemma index_of_none x parts : index_of x parts = None -> ~ In x parts.
Proof.
  induction parts as [|p rest IH]; simpl; [auto|].
  destruct (String.eqb_spec p x) as [->|Hne]; [discriminate|].
  destruct (index_of x rest); [discriminate|].
  intros _ [E|Hin]; [congruence | now apply IH].
Qed.

(** X16.  [parse_path] is anchored on the first component named
    ["normalized"]: without one it raises the bad-base-path error; when it
    returns, the five components after that anchor exist and the third and
    fourth of them are integer literals with the returned values; with
    fewer than five components after the anchor it never returns. *)
Theorem parse_path_anchor parts :
  (~ In "normalized"%string parts -> parse_path parts = inr BadBasePath) /\
  (forall table_name entity_id yyyy mm filename,
     parse_path parts = inl (table_name, entity_id, yyyy, mm, filename) ->
     exists i ys ms,
       parts !! i = Some "normalized"%string /\
       (forall j, (j < i)%nat -> parts !! j <> Some "normalized"%string) /\
       parts !! (i + 1)%nat = Some table_name /\
       parts !! (i + 2)%nat = Some entity_id /\
       parts !! (i + 3)%nat = Some ys /\ py_int ys = Some yyyy /\
       parts !! (i + 4)%nat = Some ms /\ py_int ms = Some mm /\
       parts !! (i + 5)%nat = Some filename) /\
  (forall i,
     index_of "normalized" parts = Some i -> (length parts < i + 6)%nat ->
     forall x, parse_path parts <> inl x).
Proof.
  split; [|split].
  - intros Hn. unfold parse_path.
    destruct (index_of "normalized" parts) as [i|] eqn:E; [|reflexivity].
    exfalso. apply Hn. apply index_of_spec in E as [E _].
    apply list_elem_of_In. eapply list_elem_of_lookup_2; eauto.
  - intros table_name entity_id yyyy mm filename. unfold parse_path.
    destruct (index_of "normalized" parts) as [i|] eqn:E; [|discriminate].
    destruct (parts !! (i + 1)%nat) as [a|] eqn:E1; [|discriminate].
    destruct (parts !! (i + 2)%nat) as [b|] eqn:E2; [|discriminate].
    destruct (parts !! (i + 3)%nat) as [ys|] eqn:E3; [|discriminate].
    destruct (py_int ys) as [y|] eqn:Ey; [|discriminate].
    destruct (parts !! (i + 4)%nat) as [ms|] eqn:E4; [|discriminate].
    destruct (py_int ms) as [m|] eqn:Em; [|discriminate].
    destruct (parts !! (i + 5)%nat) as [f|] eqn:E5; [|discriminate].
    intros [= <- <- <- <- <-]. apply index_of_spec in E as [E Hb].
    exists i, ys, ms. auto 12.
  - intros i E Hlen x. unfold parse_path. rewrite E.
    assert (E5 : parts !! (i + 5)%nat = None) by (apply lookup_ge_None; lia).
    rewrite E5.
    destruct (parts !! (i + 1)%nat); [|discriminate].
    destruct (parts !! (i + 2)%nat); [|discriminate].
    destruct (parts !! (i + 3)%nat) as [ys|]; [|discriminate].
    destruct (py_int ys); [|discriminate].
    destruct (parts !! (i + 4)%nat) as [ms|]; [|discriminate].
    destruct (py_int ms); discriminate.
Qed.

End PathsFacts.

(* ===================================================================== *)
(** * Facts about staging, registration and lineage *)
(* ===================================================================== *)

Module StagingFacts.
Import Infer Loader LoaderFacts Staging.

Lemma insert_rows_app fid table_name entity y m a :
  forall seq b,
    insert_rows fid table_name entity y m seq (a ++ b)
    = insert_rows fid table_name entity y m seq a
      ++ insert_rows fid table_name entity y m (seq + Z.of_nat (length a)) b.
Proof.
  induction a as [|[i r] a IH]; intros seq b; simpl.
  - now rewrite Z.add_0_r.
  - rewrite IH. do 3 f_equal. lia.
Qed.

Lemma stage_records_numbered fid table_name entity y m records :
  forall i seq,
    stage_records fid table_name entity y m i seq records
    = insert_rows fid table_name entity y m seq (numbered i records).
Proof.
  induction records as [|r rest IH]; intros i seq; simpl; [reflexivity|].
  now rewrite IH.
Qed.

Lemma numbered_length records : forall i, length (numbered i records) = length records.
Proof. induction records as [|r rest IH]; intros i; simpl; auto. Qed.

Lemma insert_rows_length fid table_name entity y m rows :
  forall seq, length (insert_rows fid table_name entity y m seq rows) = length rows.
Proof. induction rows as [|[i r] rows IH]; intros seq; simpl; auto. Qed.

(** What the loop returns, whatever the buffer holds when it starts. *)
Lemma staging_loop_spec fid table_name entity y m reader :
  forall i rows count db,
    staging_loop fid table_name entity y m i reader rows count db
    = (count + Z.of_nat (length rows) + Z.of_nat (length reader),
       set_staging db
         (staging db
          ++ insert_rows fid table_name entity y m (staging_seq db)
               (rows ++ numbered i reader))
         (staging_seq db + Z.of_nat (length rows) + Z.of_nat (length reader))).
Proof.
  induction reader as [|r rest IH]; intros i rows count db.
  - cbn [staging_loop numbered length]. rewrite app_nil_r.
    destruct rows as [|x rows].
    + simpl. rewrite app_nil_r, !Z.add_0_r. now destruct db.
    + unfold execute_values. f_equal; [lia|]. f_equal. lia.
  - cbn [staging_loop numbered].
    destruct (10000 <=? Z.of_nat (length (rows ++ [(i, r)]))).
    + rewrite IH. unfold execute_values, set_staging. cbn [staging staging_seq
        files files_seq tables schema_registry].
      replace (rows ++ (i, r) :: numbered (i + 1) rest)
        with ((rows ++ [(i, r)]) ++ numbered (i + 1) rest)
        by (now rewrite <- app_assoc).
      rewrite (insert_rows_app _ _ _ _ _ (rows ++ [(i, r)])), app_assoc.
      rewrite length_app. cbn [length app].
      f_equal; [lia|]. f_equal. lia.
    + rewrite IH. rewrite length_app. cbn [length].
      replace (rows ++ (i, r) :: numbered (i + 1) rest)
        with ((rows ++ [(i, r)]) ++ numbered (i + 1) rest)
        by (now rewrite <- app_assoc).
      f_equal; [lia|]. f_equal. lia.
Qed.

(** X17.  The batches of 10000 do not show in the result: the loop with its
    buffer stages exactly the rows, row numbers, row ids and count that
    staging all records in one insert gives. *)
Theorem batching_is_invisible db fid table_name entity y m records :
  load_csv_to_staging_batched db fid table_name entity y m records
  = load_csv_to_staging db fid table_name entity y m records.
Proof.
  unfold load_csv_to_staging_batched, load_csv_to_staging.
  rewrite staging_loop_spec. cbn [app length].
  rewrite stage_records_numbered, insert_rows_length, numbered_length.
  unfold set_staging. repeat (f_equal; try lia).
Qed.

Lemma insert_rows_fields fid table_name entity y m rows :
  forall seq,
    map row_num (insert_rows fid table_name entity y m seq rows) = map fst rows /\
    map rec (insert_rows fid table_name entity y m seq rows) = map snd rows /\
    map row_id (insert_rows fid table_name entity y m seq rows)
      = seqZ (seq + 1) (Z.of_nat (length rows)) /\
    Forall (fun s => s_file_id s = fid /\ s_table_name s = table_name /\
                     s_entity_id s = entity /\ s_yyyy s = y /\ s_mm s = m)
      (insert_rows fid table_name entity y m seq rows).
Proof.
  induction rows as [|[i r] rows IH]; intros seq.
  - repeat split; constructor.
  - destruct (IH (seq + 1)) as (H1 & H2 & H3 & H4).
    cbn [insert_rows map fst snd row_num rec row_id length].
    rewrite H1, H2, H3. repeat split.
    + rewrite Nat2Z.inj_succ, (seqZ_cons (seq + 1)) by lia.
      f_equal. f_equal; lia.
    + constructor; [simpl; auto | exact H4].
Qed.

Lemma numbered_fields records :
  forall i,
    map fst (numbered i records) = seqZ i (Z.of_nat (length records)) /\
    map snd (numbered i records) = records.
Proof.
  induction records as [|r rest IH]; intros i; [split; reflexivity|].
  destruct (IH (i + 1)) as [H1 H2]. cbn [numbered map fst snd length].
  rewrite H1, H2. split; [|reflexivity].
  rewrite Nat2Z.inj_succ, (seqZ_cons i) by lia. f_equal. f_equal; lia.
Qed.

(** X18.  Staging a file appends one row per record of the CSV, in order,
    after the rows already staged: the rows are numbered 1, 2, ... in the
    order of the file (the header is not counted), carry the records
    unchanged and the file's id, bucket, entity, year and month, and take
    the next values of the row-id sequence; the count returned is the
    number of records. *)
Theorem staging_numbers_rows db fid table_name entity y m records :
  let out := load_csv_to_staging db fid table_name entity y m records in
  out.1 = Z.of_nat (length records) /\
  exists new,
    staging out.2 = staging db ++ new /\
    map row_num new = seqZ 1 (Z.of_nat (length records)) /\
    map rec new = records /\
    map row_id new = seqZ (staging_seq db + 1) (Z.of_nat (length records)) /\
    staging_seq out.2 = staging_seq db + Z.of_nat (length records) /\
    Forall (fun s => s_file_id s = fid /\ s_table_name s = table_name /\
                     s_entity_id s = entity /\ s_yyyy s = y /\ s_mm s = m) new.
Proof.
  cbv zeta. unfold load_csv_to_staging. cbn [fst snd staging staging_seq set_staging].
  rewrite stage_records_numbered, insert_rows_length, numbered_length.
  split; [reflexivity|]. eexists. split; [reflexivity|].
  destruct (insert_rows_fields fid table_name entity y m (numbered 1 records)
              (staging_seq db)) as (H1 & H2 & H3 & H4).
  destruct (numbered_fields records 1) as [N1 N2].
  rewrite H1, H2, H3, N1, N2, numbered_length. auto.
Qed.

End StagingFacts.

(* ===================================================================== *)
(** * Facts about registration, key discovery and schema evolution *)
(* ===================================================================== *)

Module RegistrationFacts.
Import Infer Loader LoaderFacts Staging.

Lemma find_sha_none (fs : list FileRecord) sha :
  List.find (fun f => String.eqb (file_sha256 f) sha) fs = None ->
  sha ∉ map file_sha256 fs.
Proof.
  intros H Hin. apply list_elem_of_In, in_map_iff in Hin as (f & Hf & Hin).
  pose proof (find_none _ _ H f Hin) as Hn. simpl in Hn.
  rewrite Hf, String.eqb_refl in Hn. discriminate.
Qed.

Lemma find_sha_last (fs : list FileRecord) sha f :
  List.find (fun f => String.eqb (file_sha256 f) sha) fs = None ->
  file_sha256 f = sha ->
  List.find (fun f => String.eqb (file_sha256 f) sha) (fs ++ [f]) = Some f.
Proof.
  intros Hn Hf. induction fs as [|x fs IH]; simpl in *.
  - now rewrite Hf, String.eqb_refl.
  - destruct (String.eqb (file_sha256 x) sha); [discriminate | auto].
Qed.

(** Registration keeps the file table well formed, hands back the id of a
    registered file, and touches nothing else. *)
Lemma register_file_registered db rel table_name entity y m fname sha :
  files_wf db ->
  let out := register_file db rel table_name entity y m fname sha in
  files_wf out.2 /\
  (exists f, In f (files out.2) /\ file_id f = out.1 /\ file_sha256 f = sha) /\
  (forall f, In f (files db) -> In f (files out.2)) /\
  staging out.2 = staging db /\ tables out.2 = tables db.
Proof.
  intros (Hs & Hi & H0 & Hr). cbv zeta. unfold register_file, files_wf.
  destruct (List.find _ (files db)) as [f|] eqn:E; simpl.
  - apply find_some in E as [Hin He]. apply String.eqb_eq in He.
    split; [|split; [|split; [|split]]]; auto.
    + split; [exact Hs|]. split; [exact Hi|]. split; [lia|].
      intros g Hg. specialize (Hr g Hg). lia.
    + exists f. auto.
  - assert (Hn : sha ∉ map file_sha256 (files db)).
    { intros Hin. apply list_elem_of_In, in_map_iff in Hin as (f & Hf & Hin).
      pose proof (find_none _ _ E f Hin) as Hn. simpl in Hn.
      rewrite Hf, String.eqb_refl in Hn. discriminate. }
    split; [|split; [|split; [|split]]]; auto.
    + split; [|split; [|split; [lia|]]].
      * rewrite map_app. apply NoDup_app. split; [exact Hs|]. split.
        -- intros x Hx Hin. simpl in Hin. apply list_elem_of_singleton in Hin.
           now subst x.
        -- apply NoDup_singleton.
      * rewrite map_app. apply NoDup_app. split; [exact Hi|]. split.
        -- intros x Hx Hin. simpl in Hin. apply list_elem_of_singleton in Hin.
           apply list_elem_of_In, in_map_iff in Hx as (g & Hg & Hgin).
           specialize (Hr g Hgin). lia.
        -- apply NoDup_singleton.
      * intros g Hg. apply in_app_or in Hg as [Hg|[<-|[]]].
        -- specialize (Hr g Hg). lia.
        -- simpl. lia.
    + eexists. split; [apply in_or_app; right; now left | auto].
    + intros g Hg. apply in_or_app. now left.
Qed.

(** X19.  Registration is keyed by the content hash.  In a file table with
    unique hashes and ids, [register_file] returns the id of the record
    that carries the hash, creating that record with the next value of the
    sequence when the hash is new and changing no record otherwise; the
    table keeps unique hashes and ids, and all records it had.  Registering
    the same hash again, under whatever path or name, returns the same id
    and adds nothing. *)
Theorem register_file_by_hash db rel table_name entity y m fname sha :
  files_wf db ->
  let out := register_file db rel table_name entity y m fname sha in
  files_wf out.2 /\
  (exists f, In f (files out.2) /\ file_id f = out.1 /\ file_sha256 f = sha) /\
  (forall f, In f (files db) -> In f (files out.2)) /\
  (sha ∈ map file_sha256 (files db) -> files out.2 = files db) /\
  staging out.2 = staging db /\ tables out.2 = tables db /\
  forall rel' table_name' entity' y' m' fname',
    let again := register_file out.2 rel' table_name' entity' y' m' fname' sha in
    again.1 = out.1 /\ files again.2 = files out.2.
Proof.
  intros Hwf.
  destruct (register_file_registered db rel table_name entity y m fname sha Hwf)
    as (W & Hex & Hmono & Hst & Htb).
  cbv zeta in *. split; [exact W|]. split; [exact Hex|]. split; [exact Hmono|].
  split; [|split; [exact Hst|split; [exact Htb|]]]; unfold register_file.
  - intros Hin. destruct (List.find _ (files db)) as [f|] eqn:E; [reflexivity|].
    destruct (find_sha_none _ _ E Hin).
  - intros rel' table_name' entity' y' m' fname'.
    destruct (List.find _ (files db)) as [f|] eqn:E; simpl.
    + rewrite E. split; reflexivity.
    + rewrite (find_sha_last _ _
                 (mkFileRecord (files_seq db + 1) rel table_name entity y m fname sha)
                 E eq_refl).
      split; reflexivity.
Qed.

Lemma register_file_by_hash_witness :
  let out := register_file empty_db "data/normalized/table_01/7/2020/03/a.csv"
               "table_01" "7" 2020 3 "a.csv" "sha-a" in
  out.1 = 1 /\
  (register_file out.2 "data/normalized/table_02/8/2021/04/copy.csv"
     "table_02" "8" 2021 4 "copy.csv" "sha-a").1 = 1.
Proof.
  cbv zeta. split; [reflexivity|].
  refine (proj1 (proj2 (proj2 (proj2 (proj2 (proj2 (proj2
    (register_file_by_hash empty_db "data/normalized/table_01/7/2020/03/a.csv"
       "table_01" "7" 2020 3 "a.csv" "sha-a" _))))))
    "data/normalized/table_02/8/2021/04/copy.csv" "table_02" "8" 2021 4
    "copy.csv")).
  split; [constructor|]. split; [constructor|]. split; [simpl; lia|]. intros f [].
Defined.

(** ** Key discovery *)

Lemma elem_of_union_doms (l : list StagedRow) k :
  k ∈ foldr (fun r acc => dom (rec r) ∪ acc) (∅ : gset string) l <->
  exists r, In r l /\ is_Some (rec r !! k).
Proof.
  induction l as [|r l IH]; simpl.
  - split; [intros H; now apply not_elem_of_empty in H | intros (r & [] & _)].
  - rewrite elem_of_union, elem_of_dom, IH. split.
    + intros [H|(r' & Hin & H)]; [exists r; auto | exists r'; auto].
    + intros (r' & [<-|Hin] & H); [now left | right; eauto].
Qed.

(** X20.  [discover_keys_for_file] returns each field name once, and a name
    is returned exactly when some staged row of the file has that field
    (whatever its value, a null included). *)
Theorem discover_keys_complete db fid :
  NoDup (discover_keys_for_file db fid) /\
  forall k,
    In k (discover_keys_for_file db fid) <->
    exists r, In r (staging db) /\ s_file_id r = fid /\ is_Some (rec r !! k).
Proof.
  unfold discover_keys_for_file. split; [apply NoDup_elements|].
  intros k. rewrite <- list_elem_of_In, elem_of_elements, elem_of_union_doms.
  unfold staged_rows_of. split.
  - intros (r & Hin & H). apply filter_In in Hin as [Hin Hf].
    exists r. repeat split; auto. lia.
  - intros (r & Hin & Hf & H). exists r. split; [|assumption].
    apply filter_In. split; [assumption | lia].
Qed.

End RegistrationFacts.
(* ===================================================================== *)
(** * Facts about lineage: files, staged rows and canonical rows *)
(* ===================================================================== *)

Module LineageFacts.
Import Infer Loader LoaderFacts Staging StagingFacts RegistrationFacts.

Lemma staged_rows_of_none db fid :
  has_staged_rows db fid = false -> staged_rows_of db fid = [].
Proof.
  unfold has_staged_rows, staged_rows_of.
  induction (staging db) as [|s l IH]; simpl; [reflexivity|].
  destruct (s_file_id s =? fid); simpl; [discriminate | exact IH].
Qed.

(** The rows a pass stages for a file that had none are the rows the file
    has afterwards. *)
Lemma staged_rows_after db fid table_name entity y m records :
  has_staged_rows db fid = false ->
  let added := insert_rows fid table_name entity y m (staging_seq db)
                 (numbered 1 records) in
  (load_csv_to_staging db fid table_name entity y m records).1
    = Z.of_nat (length records) /\
  staging (load_csv_to_staging db fid table_name entity y m records).2
    = staging db ++ added /\
  tables (load_csv_to_staging db fid table_name entity y m records).2
    = tables db /\
  files (load_csv_to_staging db fid table_name entity y m records).2
    = files db /\
  files_seq (load_csv_to_staging db fid table_name entity y m records).2
    = files_seq db /\
  List.filter (fun r => s_file_id r =? fid) (staging db ++ added) = added /\
  map row_num added = seqZ 1 (Z.of_nat (length records)) /\
  map rec added = records /\
  Forall (fun s => s_file_id s = fid /\ s_table_name s = table_name /\
                   s_entity_id s = entity /\ s_yyyy s = y /\ s_mm s = m) added.
Proof.
  intros Hnone. cbv zeta. unfold load_csv_to_staging. cbn [fst snd staging set_staging].
  rewrite stage_records_numbered, insert_rows_length, numbered_length.
  destruct (insert_rows_fields fid table_name entity y m (numbered 1 records)
              (staging_seq db)) as (F1 & F2 & _ & F4).
  destruct (numbered_fields records 1) as [G1 G2].
  do 5 (split; [reflexivity|]). split; [|split; [|split]].
  - rewrite List.filter_app. fold (staged_rows_of db fid).
    rewrite (staged_rows_of_none _ _ Hnone). apply filter_all_true.
    eapply Forall_impl; [exact F4|]. intros s (-> & _). apply Z.eqb_refl.
  - now rewrite F1, G1.
  - now rewrite F2, G2.
  - exact F4.
Qed.

Lemma discover_keys_In db fid s k :
  In s (staged_rows_of db fid) -> is_Some (rec s !! k) ->
  In k (discover_keys_for_file db fid).
Proof.
  intros Hs Hk. unfold discover_keys_for_file.
  apply list_elem_of_In, elem_of_elements, elem_of_union_doms. eauto.
Qed.

Section Engine.
Variable json_key : string -> string.
Variable cast_ok : string -> string -> bool.
Variable assign_ok : string -> string -> bool.

(** X21.  A file with a data field cannot be loaded.  When a file none of
    whose rows is staged yet has a record with a field that is neither a
    lineage column nor already a column of its table, the pass over it
    raises [KeyError] on [t] (staging its records has loaded
    [psycopg2.sql], so the error is that of [format]), whatever files come
    after it are not reached, and nothing of the pass is committed: files,
    staged rows, tables and schema history are as before. *)
Theorem file_with_data_field_is_refused db based sql_loaded now batch f rest r k :
  has_staged_rows db
    (register_file db (nf_rel f) (nf_table_name f) (nf_entity_id f) (nf_yyyy f)
       (nf_mm f) (nf_filename f) (nf_sha f)).1 = false ->
  is_identifier (nf_table_name f) = true ->
  In r (nf_records f) -> is_Some (r !! k) -> is_reserved k = false ->
  ~ In k (existing_columns db (nf_table_name f)) ->
  load_file json_key cast_ok assign_ok db sql_loaded now batch f
    = Raise (KeyError "t") /\
  (load_files json_key cast_ok assign_ok db based sql_loaded now batch
     (f :: rest)).2 = Some (KeyError "t") /\
  let left := (load_files json_key cast_ok assign_ok db based sql_loaded now
                 batch (f :: rest)).1 in
  files left = files db /\ staging left = staging db /\
  tables left = tables db /\ schema_registry left = schema_registry db.
Proof.
  intros Hnone Hid Hr Hk Hres Hcol.
  assert (L : load_file json_key cast_ok assign_ok db sql_loaded now batch f
              = Raise (KeyError "t")).
  { unfold load_file.
    pose proof (register_file_frame db (nf_rel f) (nf_table_name f)
                  (nf_entity_id f) (nf_yyyy f) (nf_mm f) (nf_filename f)
                  (nf_sha f)) as R. cbv zeta in R.
    destruct (register_file db _ _ _ _ _ _ _) as [fid db1]. cbn [fst snd] in *.
    destruct R as (Hs1 & _ & Ht1 & _).
    assert (Hnone1 : has_staged_rows db1 fid = false)
      by (unfold has_staged_rows in *; now rewrite Hs1).
    rewrite Hnone1.
    destruct (staged_rows_after db1 fid (nf_table_name f) (nf_entity_id f)
                (nf_yyyy f) (nf_mm f) (nf_records f) Hnone1)
      as (Hcount & Hstg & Ht2 & _ & _ & Hmine & _ & Hrec & _).
    destruct (load_csv_to_staging db1 fid _ _ _ _ _) as [staged db2].
    cbn [fst snd] in Hcount, Hstg, Ht2.
    assert (Hpos : (0 <? staged) = true).
    { apply Z.ltb_lt. rewrite Hcount. destruct (nf_records f); [destruct Hr|].
      simpl length. lia. }
    rewrite Hpos, orb_true_r.
    destruct (ensure_canonical_table db2 (nf_table_name f)) as [db3|] eqn:Ec.
    2:{ unfold ensure_canonical_table, relation_name in Ec. rewrite Hid in Ec.
        cbn [bind] in Ec. destruct (tables db2 !! _); discriminate. }
    cbn [bind]. unfold merge_file_into_canonical. rewrite ensure_columns_spec.
    destruct (ensure_canonical_table_frame _ _ _ Ec) as (_ & _ & Hs3 & _).
    assert (Hex : existsb (needs_column (existing_columns db3 (nf_table_name f)))
                    (discover_keys_for_file db3 fid) = true).
    { apply existsb_exists. exists k. split.
      - rewrite <- Hrec in Hr. apply in_map_iff in Hr as (s & Hsr & Hs).
        apply (discover_keys_In db3 fid s); [|now rewrite Hsr].
        unfold staged_rows_of. rewrite Hs3, Hstg, Hmine. exact Hs.
      - unfold needs_column. rewrite Hres. cbn [negb andb].
        destruct (existsb (String.eqb k) _) eqn:E; [|reflexivity].
        apply existsb_eqb_In in E.
        destruct (ensure_canonical_table_columns _ _ _ _ Ec E) as [H|H];
          [congruence|].
        exfalso. apply Hcol. unfold existing_columns in *.
        now rewrite <- Ht1, <- Ht2. }
    rewrite Hex. reflexivity. }
  split; [exact L|]. cbn [load_files]. rewrite L. cbn [fst snd].
  split; [reflexivity|]. destruct based; [|repeat split; reflexivity].
  unfold spent. destruct (register_file db _ _ _ _ _ _ _) as [fid db1].
  repeat split; reflexivity.
Qed.

(** X22.  A file none of whose rows is staged yet is loaded in full and
    once.  If the pass returns, then: every record of the CSV is staged
    (the count returned is their number), the file's staged rows are the
    records in order, numbered from 1; every field of every record is a
    lineage column or already a column of the table (a pass over a file
    with any other field does not return); and the merge has appended to
    the table the name designates exactly one canonical row per record, in
    the same order, carrying the file's id, the row number of its record,
    the batch and the file's entity, year and month. *)
Theorem first_load_merges_each_record_once db sql_loaded now batch f db' staged :
  let fid := (register_file db (nf_rel f) (nf_table_name f) (nf_entity_id f)
                (nf_yyyy f) (nf_mm f) (nf_filename f) (nf_sha f)).1 in
  has_staged_rows db fid = false ->
  load_file json_key cast_ok assign_ok db sql_loaded now batch f
    = Ok (db', staged) ->
  let n := Z.of_nat (length (nf_records f)) in
  staged = n /\
  map row_num (staged_rows_of db' fid) = seqZ 1 n /\
  map rec (staged_rows_of db' fid) = nf_records f /\
  (forall r k, In r (nf_records f) -> is_Some (r !! k) ->
     is_reserved k = true \/ In k (existing_columns db (nf_table_name f))) /\
  exists rel new,
    relation_name (nf_table_name f) = Ok rel /\
    rows_of db' rel = rows_of db rel ++ new /\
    map src_row_num new = seqZ 1 n /\
    Forall (fun r => src_file_id r = fid /\ batch_id r = batch /\
                     entity_id r = nf_entity_id f /\
                     c_yyyy r = nf_yyyy f /\ c_mm r = nf_mm f) new.
Proof.
  cbv zeta. unfold load_file.
  pose proof (register_file_frame db (nf_rel f) (nf_table_name f)
                (nf_entity_id f) (nf_yyyy f) (nf_mm f) (nf_filename f) (nf_sha f))
    as R. cbv zeta in R.
  destruct (register_file db _ _ _ _ _ _ _) as [fid db1]. cbn [fst snd] in *.
  destruct R as (Hs1 & _ & Ht1 & _).
  intros Hnone.
  assert (Hnone1 : has_staged_rows db1 fid = false)
    by (unfold has_staged_rows in *; now rewrite Hs1).
  rewrite Hnone1.
  destruct (staged_rows_after db1 fid (nf_table_name f) (nf_entity_id f)
              (nf_yyyy f) (nf_mm f) (nf_records f) Hnone1)
    as (Hcount & Hstg & Ht2 & _ & _ & Hmine & Hnum & Hrec & Hmeta).
  destruct (load_csv_to_staging db1 fid _ _ _ _ _) as [cnt db2].
  cbn [fst snd] in Hcount, Hstg, Ht2.
  set (added := insert_rows fid (nf_table_name f) (nf_entity_id f) (nf_yyyy f)
                  (nf_mm f) (staging_seq db1) (numbered 1 (nf_records f))) in *.
  destruct (ensure_canonical_table db2 _) as [db3|] eqn:Ec; cbn [bind];
    [|discriminate].
  destruct (merge_file_into_canonical _ _ _ db3 _ now _ fid batch) as [db4|] eqn:Em;
    cbn [bind]; [|discriminate].
  intros [= <- <-].
  destruct (ensure_canonical_table_frame _ _ _ Ec) as (_ & _ & Hs3 & _ & _ & Hr3).
  pose proof (merge_file_into_canonical_inv _ _ _ _ _ _ _ _ _ _ Em)
    as (_ & Hkeys & _).
  destruct (merge_file_into_canonical_frame _ _ _ _ _ _ _ _ _ _ Em)
    as (_ & _ & Hs4 & _ & _ & rel & new & Hrel & Hrows & _
        & N1 & N2 & N3 & N4 & N5 & N6).
  assert (Hmine3 : staged_rows_of db3 fid = added)
    by (unfold staged_rows_of; now rewrite Hs3, Hstg).
  assert (Hmine4 : staged_rows_of db4 fid = added)
    by (unfold staged_rows_of; now rewrite Hs4, Hs3, Hstg).
  rewrite Hmine3 in *. rewrite Hmine4.
  split; [exact Hcount|]. split; [exact Hnum|]. split; [exact Hrec|]. split.
  - intros r k Hr Hk.
    rewrite <- Hrec in Hr. apply in_map_iff in Hr as (s & Hsr & Hs).
    assert (Hin : In k (discover_keys_for_file db3 fid)).
    { apply (discover_keys_In db3 fid s); [|now rewrite Hsr].
      now rewrite Hmine3. }
    destruct (Hkeys k Hin) as [H|H]; [now left|].
    destruct (ensure_canonical_table_columns _ _ _ _ Ec H) as [H'|H'];
      [now left|]. right. unfold existing_columns in *.
    now rewrite <- Ht1, <- Ht2.
  - exists rel, new. split; [exact Hrel|]. split.
    + rewrite Hrows, Hr3. unfold rows_of. now rewrite Ht2, Ht1.
    + split; [now rewrite N2, Hnum|].
      clear - N1 N3 N4 N5 N6 Hmeta.
      revert new N1 N3 N4 N5 N6.
      induction Hmeta as [|s l (A1 & _ & A3 & A4 & A5) _ IH]; intros [|r new];
        simpl; intros N1 N3 N4 N5 N6; try discriminate; constructor.
      * apply Forall_cons in N6 as [B _].
        injection N1 as ? _; injection N3 as ? _; injection N4 as ? _;
          injection N5 as ? _. repeat split; congruence.
      * apply Forall_cons in N6 as [_ B].
        injection N1 as _ ?; injection N3 as _ ?; injection N4 as _ ?;
          injection N5 as _ ?. apply IH; assumption.
Qed.

(** ** The lineage invariant *)

Lemma lineage_complete_rows_of db :
  lineage_complete db <->
  (forall s, In s (staging db) ->
     exists f, In f (files db) /\ file_id f = s_file_id s) /\
  (forall t r, In r (rows_of db t) ->
     (exists f, In f (files db) /\ file_id f = src_file_id r) /\
     (exists s, In s (staging db) /\ s_file_id s = src_file_id r /\
                row_num s = src_row_num r)).
Proof.
  unfold lineage_complete, rows_of. split; intros [H1 H2]; (split; [exact H1|]).
  - intros t r. destruct (tables db !! t) as [tb|] eqn:Et; [|intros []].
    apply (H2 t tb r Et).
  - intros t tb r Et Hin. apply (H2 t r). now rewrite Et.
Qed.

Lemma paired_maps {A B C D} (f : A -> C) (g : B -> C) (f' : A -> D) (g' : B -> D)
    (new : list A) :
  forall rs,
    map f new = map g rs -> map f' new = map g' rs ->
    forall r, In r new -> exists s, In s rs /\ f r = g s /\ f' r = g' s.
Proof.
  induction new as [|a new IH]; intros [|b rs]; simpl; try discriminate;
    intros H1 H2 r; [intros []|].
  injection H1 as E1 H1. injection H2 as E2 H2. intros [<-|Hin].
  - exists b. auto.
  - destruct (IH rs H1 H2 r Hin) as (s & Hs & Hfg). exists s. auto.
Qed.

(** A merge keeps the lineage complete: the rows it appends are read off
    staged rows, whose file is registered. *)
Lemma merge_file_into_canonical_lineage db sql_loaded now table_name fid batch db' :
  files_wf db -> lineage_complete db ->
  merge_file_into_canonical json_key cast_ok assign_ok db sql_loaded now
    table_name fid batch = Ok db' ->
  files_wf db' /\ lineage_complete db'.
Proof.
  intros Hwf Hl Hm.
  apply merge_file_into_canonical_frame in Hm
    as (Hf & Hq & Hst & _ & _ & rel & new & _ & Hrows & Hother & N1 & N2 & _).
  split; [unfold files_wf in *; now rewrite Hf, Hq|].
  apply lineage_complete_rows_of in Hl as [L1 L2].
  apply lineage_complete_rows_of. rewrite Hf, Hst. split; [exact L1|].
  intros t r. destruct (decide (t = rel)) as [->|Hne].
  - rewrite Hrows. intros Hin. apply in_app_or in Hin as [Hin|Hin]; [eauto|].
    destruct (paired_maps _ _ _ _ _ _ N1 N2 r Hin) as (s & Hs & E1 & E2).
    apply filter_In in Hs as [Hs _]. split; [|exists s; auto].
    destruct (L1 s Hs) as (f & Hfin & Hfid). exists f. split; [assumption|].
    congruence.
  - rewrite (Hother t Hne). eauto.
Qed.

Lemma ensure_canonical_table_lineage db table_name db' :
  files_wf db -> lineage_complete db ->
  ensure_canonical_table db table_name = Ok db' ->
  files_wf db' /\ lineage_complete db'.
Proof.
  intros Hwf Hl Hc.
  destruct (ensure_canonical_table_frame _ _ _ Hc) as (Hf & Hq & Hs & _ & _ & Hr).
  split; [unfold files_wf in *; now rewrite Hf, Hq|].
  apply lineage_complete_rows_of in Hl as [L1 L2].
  apply lineage_complete_rows_of. rewrite Hf, Hs. split; [exact L1|].
  intros t r. rewrite Hr. apply L2.
Qed.

Lemma load_file_lineage db sql_loaded now batch f db' staged :
  files_wf db -> lineage_complete db ->
  load_file json_key cast_ok assign_ok db sql_loaded now batch f
    = Ok (db', staged) ->
  files_wf db' /\ lineage_complete db'.
Proof.
  intros Hwf Hl. unfold load_file.
  pose proof (register_file_registered db (nf_rel f) (nf_table_name f)
                (nf_entity_id f) (nf_yyyy f) (nf_mm f) (nf_filename f) (nf_sha f)
                Hwf) as R. cbv zeta in R.
  destruct (register_file db _ _ _ _ _ _ _) as [fid db1]. cbn [fst snd] in R.
  destruct R as (Hwf1 & (f0 & Hf0 & Hid & _) & Hmono & Hst1 & Htb1).
  assert (Hl1 : lineage_complete db1).
  { apply lineage_complete_rows_of in Hl as [L1 L2].
    apply lineage_complete_rows_of. rewrite Hst1. split.
    - intros s Hs. destruct (L1 s Hs) as (g & Hg & E). eauto.
    - intros t r. unfold rows_of in *. rewrite Htb1. intros Hin.
      destruct (L2 t r Hin) as [(g & Hg & E) Hs]. eauto. }
  destruct (has_staged_rows db1 fid) eqn:Hg.
  - destruct (ensure_canonical_table db1 _) as [db2|] eqn:Ec; cbn [bind];
      [|discriminate].
    destruct (merge_file_into_canonical _ _ _ db2 _ now _ fid batch) as [db3|] eqn:Em;
      cbn [bind]; [|discriminate].
    intros [= <- _].
    destruct (ensure_canonical_table_lineage _ _ _ Hwf1 Hl1 Ec).
    eapply merge_file_into_canonical_lineage; eauto.
  - destruct (staged_rows_after db1 fid (nf_table_name f) (nf_entity_id f)
                (nf_yyyy f) (nf_mm f) (nf_records f) Hg)
      as (_ & Hstg & Ht2 & Hf2 & Hq2 & _ & _ & _ & Hmeta).
    destruct (load_csv_to_staging db1 fid _ _ _ _ _) as [cnt db2].
    cbn [fst snd] in Hstg, Ht2, Hf2, Hq2.
    destruct (ensure_canonical_table db2 _) as [db3|] eqn:Ec; cbn [bind];
      [|discriminate].
    destruct (merge_file_into_canonical _ _ _ db3 _ now _ fid batch) as [db4|] eqn:Em;
      cbn [bind]; [|discriminate].
    intros [= <- _].
    assert (Hwf2 : files_wf db2) by (unfold files_wf in *; now rewrite Hf2, Hq2).
    assert (Hl2 : lineage_complete db2).
    { apply lineage_complete_rows_of in Hl1 as [L1 L2].
      apply lineage_complete_rows_of. rewrite Hf2, Hstg. split.
      - intros s Hs. apply in_app_or in Hs as [Hs|Hs]; [exact (L1 s Hs)|].
        rewrite Forall_forall in Hmeta. apply list_elem_of_In in Hs.
        destruct (Hmeta s Hs) as [E _]. exists f0. split; [exact Hf0 | congruence].
      - intros t r. unfold rows_of in *. rewrite Ht2. intros Hin.
        destruct (L2 t r Hin) as [Hf (s & Hs & E)].
        split; [exact Hf|]. exists s. split; [|exact E].
        apply in_or_app. now left. }
    destruct (ensure_canonical_table_lineage _ _ _ Hwf2 Hl2 Ec).
    eapply merge_file_into_canonical_lineage; eauto.
Qed.

(** What a pass that raised leaves behind keeps the invariant. *)
Lemma spent_lineage db f :
  files_wf db -> lineage_complete db ->
  files_wf (spent db f) /\ lineage_complete (spent db f).
Proof.
  intros (H1 & H2 & H3 & H4) Hl. unfold spent.
  assert (Hq : files_seq db <=
               files_seq (register_file db (nf_rel f) (nf_table_name f)
                            (nf_entity_id f) (nf_yyyy f) (nf_mm f)
                            (nf_filename f) (nf_sha f)).2).
  { unfold register_file. destruct (find _ (files db)); simpl; lia. }
  destruct (register_file db _ _ _ _ _ _ _) as [fid db1]. cbn [snd] in Hq.
  set (db2 := if has_staged_rows db1 fid then db1 else _).
  assert (Hq2 : files_seq db2 = files_seq db1)
    by (unfold db2; destruct (has_staged_rows db1 fid); reflexivity).
  split.
  - unfold files_wf. cbn [files files_seq]. rewrite Hq2.
    split; [exact H1|]. split; [exact H2|]. split; [lia|].
    intros g Hg. specialize (H4 g Hg). lia.
  - exact Hl.
Qed.

(** X23.  The loop keeps the lineage complete.  Starting from a store in
    which file hashes and ids are unique, every staged row belongs to a
    registered file and every canonical row refers to a registered file and
    to the staged row it was read from, the store the loop leaves behind,
    after any list of files and whether it ran to its end or stopped at an
    exception, has these properties again. *)
Theorem run_keeps_lineage now batch fs :
  forall db based sql_loaded,
    files_wf db -> lineage_complete db ->
    let out := (load_files json_key cast_ok assign_ok db based sql_loaded now
                  batch fs).1 in
    files_wf out /\ lineage_complete out.
Proof.
  induction fs as [|f fs IH]; intros db based sql_loaded Hwf Hl;
    cbn [load_files]; [split; assumption|].
  destruct (load_file _ _ _ db sql_loaded now batch f) as [[db' n]|] eqn:E.
  - destruct (load_file_lineage _ _ _ _ _ _ _ Hwf Hl E) as [Hwf' Hl'].
    exact (IH db' _ _ Hwf' Hl').
  - cbn [fst]. destruct based; [now apply spent_lineage | split; assumption].
Qed.

End Engine.

Lemma file_with_data_field_is_refused_witness :
  sample_load empty_db false "2024-01-01" "batch-1" data_file
    = Raise (KeyError "t") /\
  sample_load after_first_load true "2024-01-01" "batch-1" data_file
    = Raise (KeyError "t").
Proof.
  split.
  - refine (proj1 (file_with_data_field_is_refused json_dumps (fun _ _ => true)
                     String.eqb empty_db false false "2024-01-01" "batch-1" data_file []
                     {[ "col_a"%string := Some "A0"%string;
                        "col_b"%string := Some "B0"%string;
                        "value"%string := Some "17"%string ]}
                     "col_a" _ _ _ _ _ _)).
    + reflexivity.
    + reflexivity.
    + now left.
    + vm_compute. eauto.
    + reflexivity.
    + intros [].
  - refine (proj1 (file_with_data_field_is_refused json_dumps (fun _ _ => true)
                     String.eqb after_first_load true true "2024-01-01" "batch-1"
                     data_file []
                     {[ "col_a"%string := Some "A0"%string;
                        "col_b"%string := Some "B0"%string;
                        "value"%string := Some "17"%string ]}
                     "col_a" _ _ _ _ _ _)).
    + vm_compute. reflexivity.
    + reflexivity.
    + now left.
    + vm_compute. eauto.
    + reflexivity.
    + vm_compute. intros [].
Defined.

Lemma first_load_merges_each_record_once_witness :
  exists new,
    rows_of after_first_load "table_01" = rows_of empty_db "table_01" ++ new /\
    map src_row_num new = seqZ 1 1.
Proof.
  destruct (first_load_merges_each_record_once json_dumps (fun _ _ => true)
              String.eqb empty_db false "2024-01-01" "batch-1" sample_file
              after_first_load 1)
    as (_ & _ & _ & _ & rel & new & Hrel & H1 & H2 & _).
  - reflexivity.
  - vm_compute. reflexivity.
  - assert (rel = "table_01"%string) by (vm_compute in Hrel; congruence).
    subst rel. exists new. split; [exact H1 | exact H2].
Defined.

Lemma run_keeps_lineage_witness :
  let out := (load_files json_dumps (fun _ _ => true) String.eqb empty_db false
                false "2024-01-01" "batch-1"
                [sample_file; sample_copy; data_file]).1 in
  files_wf out /\ lineage_complete out.
Proof.
  apply (run_keeps_lineage json_dumps (fun _ _ => true) String.eqb
           "2024-01-01" "batch-1" [sample_file; sample_copy; data_file]
           empty_db false false).
  - split; [constructor|]. split; [constructor|]. split; [simpl; lia|].
    intros f [].
  - split; [intros s []|]. intros t tb r Ht. simpl in Ht.
    rewrite lookup_empty in Ht. discriminate.
Defined.

End LineageFacts.

(* ===================================================================== *)
(** * Further facts about type inference *)
(* ===================================================================== *)

Module InferenceFacts.
Import Text TextFacts TokenShapeFacts Infer InferFacts InferShape.
Local Open Scope N_scope.

Lemma every_value_non_empty p values :
  every_value p values = forallb p (non_empty values).
Proof.
  unfold every_value, non_empty.
  induction values as [|v rest IH]; simpl; [reflexivity|].
  destruct (String.eqb v ""); simpl; [exact IH | now rewrite IH].
Qed.

Lemma forallb_Permutation {A} (p : A -> bool) (l l' : list A) :
  l ≡ₚ l' -> forallb p l = forallb p l'.
Proof.
  induction 1 as [|x l l' _ IH|x y l|l1 l2 l3 _ IH1 _ IH2]; simpl.
  - reflexivity.
  - now rewrite IH.
  - now rewrite !andb_assoc, (andb_comm (p y)).
  - congruence.
Qed.

Lemma infer_type_cases values :
  values <> [] ->
  infer_type values =
  (if forallb matches_int (non_empty values) then "bigint"
   else if forallb matches_num (non_empty values) then "numeric"
   else if forallb matches_date (non_empty values) then "timestamp"
   else "text")%string.
Proof.
  intros Hne. destruct values as [|v rest]; [congruence|].
  unfold infer_type. rewrite infer_loop_spec.
  now rewrite !every_value_non_empty.
Qed.

(** X24.  The inferred type of a non-empty sample depends only on which
    non-empty values it holds and how often: the order of the sample and
    the empty strings in it make no difference. *)
Theorem infer_type_ignores_order_and_blanks values values' :
  values <> [] -> values' <> [] ->
  non_empty values ≡ₚ non_empty values' ->
  infer_type values = infer_type values'.
Proof.
  intros H1 H2 Hp. rewrite (infer_type_cases _ H1), (infer_type_cases _ H2).
  now rewrite !(forallb_Permutation _ _ _ Hp).
Qed.

Lemma infer_type_ignores_order_and_blanks_witness :
  infer_type ["2"; ""; "1.5"]%string = infer_type ["1.5"; "2"]%string.
Proof.
  apply infer_type_ignores_order_and_blanks; [discriminate | discriminate |].
  simpl. apply perm_swap.
Defined.

(** ** A number is never a date *)

Lemma consumes_digit_in lo hi : consumes (digit_in lo hi).
Proof.
  intros q [|c s] n r; simpl; [discriminate|].
  destruct (in_range lo hi c); [|discriminate].
  intros [= _ <-] H. now apply andb_prop in H as [_ H].
Qed.

Lemma consumes_then (p1 p2 : parser) (f : N -> N -> N) :
  consumes p1 -> consumes p2 ->
  consumes (fun s => match p1 s with
                     | Some (a, r) =>
                         match p2 r with
                         | Some (b, r') => Some (f a b, r')
                         | None => None
                         end
                     | None => None
                     end).
Proof.
  intros H1 H2 q s n r. destruct (p1 s) as [[a r1]|] eqn:E1; [|discriminate].
  destruct (p2 r1) as [[b r2]|] eqn:E2; [|discriminate].
  intros [= _ <-] H. eapply H2; [exact E2|]. eapply H1; eauto.
Qed.

Lemma consumes_two a b c d : consumes (two a b c d).
Proof.
  exact (consumes_then _ _ (fun a b => 10 * a + b)
           (consumes_digit_in _ _) (consumes_digit_in _ _)).
Qed.

Lemma consumes_orelse p1 p2 : consumes p1 -> consumes p2 -> consumes (orelse p1 p2).
Proof.
  intros H1 H2 q s n r. unfold orelse. destruct (p1 s) as [[a r1]|] eqn:E1.
  - intros [= <- <-]. eauto.
  - intros E2. eauto.
Qed.

Lemma consumes_dir_Y : consumes dir_Y.
Proof.
  exact (consumes_then _ _ (fun a b => 100 * a + b)
           (consumes_two _ _ _ _) (consumes_two _ _ _ _)).
Qed.

Lemma digit_in_start lo hi s x :
  digit_in lo hi s = Some x -> 48 <= lo -> hi <= 57 -> date_start s = true.
Proof.
  destruct s as [|c s]; simpl; [discriminate|].
  unfold in_range, is_digit, in_range.
  destruct (N.leb_spec lo (code c)), (N.leb_spec (code c) hi); simpl;
    try discriminate.
  intros _ ? ?.
  destruct (N.leb_spec 48 (code c)), (N.leb_spec (code c) 57); simpl; auto; lia.
Qed.

Lemma two_start a b c d s x :
  two a b c d s = Some x -> 48 <= a -> b <= 57 -> date_start s = true.
Proof.
  unfold two. destruct (digit_in a b s) as [[n r]|] eqn:E; [|discriminate].
  intros _. now apply (digit_in_start _ _ _ _ E).
Qed.

Lemma dir_Y_start s x : dir_Y s = Some x -> date_start s = true.
Proof.
  unfold dir_Y. destruct (two 48 57 48 57 s) as [[n r]|] eqn:E; [|discriminate].
  intros _. apply (two_start _ _ _ _ _ _ E); lia.
Qed.

Lemma dir_d_start s x : dir_d s = Some x -> date_start s = true.
Proof.
  unfold dir_d, orelse.
  destruct (two 51 51 48 49 s) eqn:E1; [intros _; apply (two_start _ _ _ _ _ _ E1); lia|].
  destruct (two 49 50 48 57 s) eqn:E2; [intros _; apply (two_start _ _ _ _ _ _ E2); lia|].
  destruct (two 48 48 49 57 s) eqn:E3; [intros _; apply (two_start _ _ _ _ _ _ E3); lia|].
  destruct (digit_in 49 57 s) eqn:E4;
    [intros _; apply (digit_in_start _ _ _ _ E4); lia|].
  destruct s as [|c s]; unfold lit; [discriminate|].
  destruct (Ascii.eqb_spec " " c) as [<-|]; [intros _; reflexivity | discriminate].
Qed.

(** After a first field read from a text of number characters, no
    separator [-] or [/] can follow. *)
Lemma no_separator_after (p : parser) (sep : ascii) ps s :
  consumes p -> is_num_char sep = false ->
  all_string is_num_char s = true ->
  seq_parsers (p :: lit sep :: ps) s = None.
Proof.
  intros Hp Hsep Hs. cbn [seq_parsers].
  destruct (p s) as [[n r]|] eqn:E; [|reflexivity].
  pose proof (Hp _ _ _ _ E Hs) as Hr.
  destruct r as [|c r]; unfold lit; [reflexivity|].
  destruct (Ascii.eqb_spec sep c) as [<-|]; [|reflexivity].
  simpl in Hr. rewrite Hsep in Hr. discriminate.
Qed.

Lemma num_chars_not_date v :
  all_string is_num_char v = true -> matches_date v = false.
Proof.
  intros Hv. unfold matches_date, strptime_Ymd_dash, strptime_Ymd_HMS,
    strptime_Ymd_slash, strptime_dmY_slash, parse_all.
  rewrite !(no_separator_after dir_Y _ _ _ consumes_dir_Y) by (reflexivity || exact Hv).
  assert (Hd : consumes dir_d).
  { unfold dir_d. repeat apply consumes_orelse;
      try apply consumes_two; try apply consumes_digit_in.
    intros q s n r. destruct s as [|c s]; unfold lit; [discriminate|].
    destruct (Ascii.eqb " " c); [|discriminate].
    intros E H. apply andb_prop in H as [_ H].
    exact (consumes_digit_in _ _ _ _ _ _ E H). }
  rewrite (no_separator_after dir_d _ _ _ Hd) by (reflexivity || exact Hv).
  reflexivity.
Qed.

Lemma date_starts v : matches_date v = true -> date_start v = true.
Proof.
  unfold matches_date, strptime_Ymd_dash, strptime_Ymd_HMS,
    strptime_Ymd_slash, strptime_dmY_slash, parse_all.
  cbn [seq_parsers].
  destruct (dir_Y v) as [[y r]|] eqn:EY; [intros _; exact (dir_Y_start _ _ EY)|].
  destruct (dir_d v) as [[d r]|] eqn:ED; [intros _; exact (dir_d_start _ _ ED)|].
  discriminate.
Qed.

Lemma digits_are_num_chars s :
  all_string is_digit s = true -> all_string is_num_char s = true.
Proof.
  induction s as [|c s IH]; simpl; [auto|].
  intros H. apply andb_prop in H as [H1 H2]. rewrite (IH H2).
  unfold is_num_char. now rewrite H1.
Qed.

Lemma all_string_take_while p s : all_string p (take_while p s) = true.
Proof.
  induction s as [|c s IH]; simpl; [reflexivity|].
  destruct (p c) eqn:E; simpl; [now rewrite E | reflexivity].
Qed.

(** An unsigned number is made of digits and at most one point. *)
Lemma matches_num_chars v :
  matches_num v = true -> all_string is_num_char (skip_sign v) = true.
Proof.
  unfold matches_num. cbv zeta. set (s := skip_sign v). intros H.
  assert (Hd : all_string is_num_char (drop_while is_digit s) = true).
  { destruct (take_while is_digit s); [discriminate|].
    destruct (drop_while is_digit s) as [|c frac]; [reflexivity|].
    apply andb_prop in H as [Hc Hf]. cbn [all_string].
    unfold is_num_char at 1. rewrite Hc, orb_true_r.
    apply digits_are_num_chars. unfold digits1 in Hf.
    destruct frac; [discriminate | exact Hf]. }
  rewrite <- (take_drop_while is_digit s), all_string_app, Hd.
  now rewrite (digits_are_num_chars _ (all_string_take_while is_digit s)).
Qed.

Lemma num_is_not_date v : matches_num v = true -> matches_date v = false.
Proof.
  intros Hn. destruct (matches_date v) eqn:Hd; [|reflexivity].
  pose proof (date_starts _ Hd) as Hs.
  pose proof (matches_num_chars _ Hn) as Hc.
  assert (Hv : skip_sign v = v).
  { destruct v as [|c r]; [reflexivity|]. simpl in *. unfold is_sign.
    destruct (Ascii.eqb_spec c "-") as [->|]; [discriminate Hs|].
    destruct (Ascii.eqb_spec c "+") as [->|]; [discriminate Hs|]. reflexivity. }
  rewrite Hv in Hc. rewrite (num_chars_not_date _ Hc) in Hd. discriminate.
Qed.

Lemma matches_num_non_empty v : matches_num v = true -> v <> EmptyString.
Proof. intros H ->. discriminate. Qed.

Lemma matches_date_non_empty v : matches_date v = true -> v <> EmptyString.
Proof. intros H ->. discriminate. Qed.

Lemma forallb_In_false {A} (p : A -> bool) l x :
  In x l -> p x = false -> forallb p l = false.
Proof.
  intros Hin Hp. destruct (forallb p l) eqn:E; [|reflexivity].
  rewrite forallb_forall in E. rewrite (E x Hin) in Hp. discriminate.
Qed.

Lemma In_non_empty v values :
  In v values -> v <> EmptyString -> In v (non_empty values).
Proof.
  intros Hin Hne. apply filter_In. split; [assumption|].
  destruct (String.eqb_spec v ""); [contradiction | reflexivity].
Qed.

(** X25.  No value is both a number and a date, so a column that holds a
    number in one row and a date in another is typed [text]: neither
    [bigint], nor [numeric], nor [timestamp] fits the whole sample. *)
Theorem numbers_and_dates_give_text values a b :
  In a values -> In b values ->
  matches_num a = true -> matches_date b = true ->
  (forall v, matches_num v = true -> matches_date v = false) /\
  infer_type values = "text"%string.
Proof.
  intros Ha Hb Hna Hdb. split; [exact num_is_not_date|].
  assert (Hne : values <> []) by (intros ->; destruct Ha).
  rewrite (infer_type_cases _ Hne).
  pose proof (In_non_empty _ _ Ha (matches_num_non_empty _ Hna)) as Ia.
  pose proof (In_non_empty _ _ Hb (matches_date_non_empty _ Hdb)) as Ib.
  assert (Hnb : matches_num b = false).
  { destruct (matches_num b) eqn:E; [|reflexivity].
    rewrite (num_is_not_date _ E) in Hdb. discriminate. }
  assert (Hib : matches_int b = false).
  { destruct (matches_int b) eqn:E; [|reflexivity].
    rewrite (matches_int_num _ E) in Hnb. discriminate. }
  rewrite (forallb_In_false _ _ _ Ib Hib), (forallb_In_false _ _ _ Ib Hnb),
    (forallb_In_false _ _ _ Ia (num_is_not_date _ Hna)).
  reflexivity.
Qed.

Lemma numbers_and_dates_give_text_witness :
  infer_type ["12.5"; "2020-03-01"; ""]%string = "text"%string.
Proof.
  refine (proj2 (numbers_and_dates_give_text ["12.5"; "2020-03-01"; ""]%string
                   "12.5" "2020-03-01" _ _ _ _)).
  - now left.
  - right. now left.
  - reflexivity.
  - reflexivity.
Defined.

End InferenceFacts.

(* ===================================================================== *)
(** * Facts about payloads: what is written is what is read back *)
(* ===================================================================== *)

Module PayloadFacts.
Import Text Manifest Decode Fabricate Payload.
Local Open Scope N_scope.

Lemma code_bounded c : code c < 256.
Proof. unfold code. apply N_ascii_bounded. Qed.

(** Decoding undoes encoding, one character at a time. *)
Lemma utf8_decode_encode_char mode c rest :
  forall pos,
    exists pos',
      utf8_decode_from mode pos (utf8_encode_char c ++ rest)
      = let/r t := utf8_decode_from mode pos' rest in Ok (code c :: t).
Proof.
  intros pos. unfold utf8_encode_char. pose proof (code_bounded c) as Hb.
  destruct (N.ltb_spec (code c) 128) as [Hlt|Hge].
  - exists (pos + 1)%nat. cbn [app utf8_decode_from].
    destruct (N.ltb_spec (code c) 128); [reflexivity | lia].
  - exists (pos + 2)%nat.
    assert (H0 : 192 + code c / 64 = 194 \/ 192 + code c / 64 = 195).
    { assert (2 <= code c / 64) by (apply N.div_le_lower_bound; lia).
      assert (code c / 64 < 4) by (apply N.Div0.div_lt_upper_bound; lia). lia. }
    assert (H1 : code c mod 64 < 64) by (apply N.mod_lt; lia).
    pose proof (N.div_mod (code c) 64 ltac:(lia)) as Hdm.
    revert H0 H1 Hdm. generalize (code c / 64), (code c mod 64).
    intros hi lo H0 H1 Hdm.
    set (b0 := 192 + hi) in *. set (b1 := 128 + lo) in *.
    cbn [app utf8_decode_from].
    assert (E1 : (b0 <? 128) = false) by (apply N.ltb_ge; lia).
    assert (E2 : byte_in 194 223 b0 = true).
    { unfold byte_in. apply andb_true_intro. split; apply N.leb_le; lia. }
    assert (E3 : is_cont b1 = true).
    { unfold is_cont, byte_in, b1. apply andb_true_intro.
      split; apply N.leb_le; lia. }
    rewrite E1, E2, E3.
    replace ((b0 - 192) * 64 + (b1 - 128)) with (code c); [reflexivity|].
    unfold b0, b1. lia.
Qed.

Lemma utf8_decode_encode mode s :
  forall pos, utf8_decode_from mode pos (utf8_encode s) = Ok (codes s).
Proof.
  induction s as [|c s IH]; intros pos; [reflexivity|].
  cbn [utf8_encode]. destruct (utf8_decode_encode_char mode c (utf8_encode s) pos)
    as [pos' ->].
  rewrite IH. reflexivity.
Qed.

Section Archive.
Context {Gen : Type}.
Variable seed : string -> Gen.
Variable randbelow : Gen -> N -> N * Gen.
Variable cp1255_table : N -> option N.

Lemma write_members_payloads clock t count :
  forall g k,
    Forall (fun zi => exists sio, data zi = utf8_encode sio)
      (write_members randbelow clock t g k count).
Proof.
  induction count as [|count IH]; intros g k; cbn [write_members]; [constructor|].
  destruct (choice randbelow g tokens) as [tok g1].
  destruct (data_rows randbelow g1 0 3) as [rows g2].
  constructor; [|apply IH]. eexists. reflexivity.
Qed.

(** X26.  What is written as UTF-8 is read back as written: the decoding
    step of [normalize_and_write_csv] returns the text of any UTF-8
    encoded string at its first attempt, whatever the code page would make
    of the bytes.  Every member of a fabricated archive carries such a
    payload, so dry-run members are never decoded through a fallback. *)
Theorem written_text_is_read_back :
  (forall s, decode_text cp1255_table (utf8_encode s) = Ok (codes s)) /\
  forall clock t,
    Forall (fun zi => exists sio,
                data zi = utf8_encode sio /\
                decode_text cp1255_table (data zi) = Ok (codes sio))
      (fabricate_members seed randbelow clock t).
Proof.
  assert (R : forall s, decode_text cp1255_table (utf8_encode s) = Ok (codes s)).
  { intros s. unfold decode_text, utf8_decode.
    now rewrite utf8_decode_encode. }
  split; [exact R|]. intros clock t. unfold fabricate_members.
  destruct (randint randbelow _ 1 3) as [count g1].
  eapply Forall_impl; [apply write_members_payloads|].
  intros zi (sio & E). exists sio. split; [exact E|]. rewrite E. apply R.
Qed.
End Archive.

End PayloadFacts.

(* ===================================================================== *)
(** * Facts about member names *)
(* ===================================================================== *)

Module MembersFacts.
Import Text TextFacts TokenRegistry Manifest Fabricate Members InferenceFacts.

(** A run of digits in front of a text that matches from the year on, and
    that does not start with a digit, is the identifier. *)
Lemma match_here_digits ident rest y m t :
  all_string is_digit ident = true -> ident <> EmptyString ->
  match_here rest = None ->
  lazy_yyyy rest = Some (y, (m, t)) ->
  match_here (ident +:+ rest) = Some (mkFnameMatch ident y m t).
Proof.
  intros Hd Hne Hr Hy. induction ident as [|c ident IH]; [congruence|].
  simpl in Hd. apply andb_prop in Hd as [Hc Hd].
  cbn [String.append match_here]. rewrite Hc.
  destruct ident as [|c' ident'].
  - cbn [String.append]. rewrite Hr, Hy. reflexivity.
  - rewrite (IH Hd ltac:(discriminate)). reflexivity.
Qed.

Lemma years_read_back :
  forallb year_reads_back (seqZ 2000 100) = true.
Proof. vm_compute. reflexivity. Qed.

Lemma months_read_back :
  forallb month_reads_back (seqZ 0 100) = true.
Proof. vm_compute. reflexivity. Qed.

Lemma tokens_read_back :
  forallb token_reads_back tokens = true.
Proof. vm_compute. reflexivity. Qed.

Lemma forallb_seqZ (p : Z -> bool) a n x :
  forallb p (seqZ a n) = true -> a <= x < a + n -> p x = true.
Proof.
  intros H Hx. rewrite forallb_forall in H. apply H.
  apply list_elem_of_In, elem_of_seqZ. lia.
Qed.

(** ** What a match looks like *)

Lemma lazy_table_shape s t :
  lazy_table s = Some t -> t <> EmptyString /\ all_string is_table_char t = true.
Proof.
  induction s as [|c r IH]; cbn [lazy_table]; [discriminate|].
  destruct (is_table_char c) eqn:Ec.
  - intros [= <-]. cbn [take_while]. rewrite Ec. split; [discriminate|].
    cbn [all_string]. rewrite Ec. apply all_string_take_while.
  - destruct (is_dot c); [exact IH | discriminate].
Qed.

Lemma mm_table_shape s m t :
  mm_table s = Some (m, t) ->
  (exists a, is_digit a = true /\
     (m = String a EmptyString \/
      exists b, is_digit b = true /\ m = String a (String b EmptyString))) /\
  t <> EmptyString /\ all_string is_table_char t = true.
Proof.
  unfold mm_table. destruct s as [|a r1]; [discriminate|].
  destruct (is_digit a) eqn:Ea; [|discriminate].
  assert (One : match lazy_table r1 with
                | Some t => Some (String a EmptyString, t)
                | None => None
                end = Some (m, t) ->
                (exists a, is_digit a = true /\
                   (m = String a EmptyString \/
                    exists b, is_digit b = true /\
                              m = String a (String b EmptyString))) /\
                t <> EmptyString /\ all_string is_table_char t = true).
  { destruct (lazy_table r1) as [t1|] eqn:E1; [|discriminate].
    intros [= <- <-]. split; [exists a; auto|]. exact (lazy_table_shape _ _ E1). }
  destruct r1 as [|b r2]; [exact One|].
  destruct (is_digit b) eqn:Eb; [|exact One].
  destruct (lazy_table r2) as [t2|] eqn:E2; [|exact One].
  intros [= <- <-]. split; [|exact (lazy_table_shape _ _ E2)].
  exists a. split; [assumption|]. right. exists b. auto.
Qed.

Lemma lazy_mm_shape s m t :
  lazy_mm s = Some (m, t) ->
  (exists a, is_digit a = true /\
     (m = String a EmptyString \/
      exists b, is_digit b = true /\ m = String a (String b EmptyString))) /\
  t <> EmptyString /\ all_string is_table_char t = true.
Proof.
  induction s as [|c r IH]; cbn [lazy_mm].
  - destruct (mm_table "") as [x|] eqn:E; [|discriminate].
    intros [= ->]. exact (mm_table_shape _ _ _ E).
  - destruct (mm_table (String c r)) as [x|] eqn:E.
    + intros [= ->]. exact (mm_table_shape _ _ _ E).
    + destruct (is_dot c); [exact IH | discriminate].
Qed.

Lemma yyyy_rest_shape s y m t :
  yyyy_rest s = Some (y, (m, t)) ->
  well_shaped (mkFnameMatch "0" y m t).
Proof.
  unfold yyyy_rest. destruct s as [|a [|b [|c [|d r]]]]; try discriminate.
  destruct (Ascii.eqb_spec a "2") as [->|]; [|discriminate].
  destruct (Ascii.eqb_spec b "0") as [->|]; [|discriminate].
  destruct (is_digit c) eqn:Ec; [|discriminate].
  destruct (is_digit d) eqn:Ed; [|discriminate]. cbn [andb].
  destruct (lazy_mm r) as [[m1 t1]|] eqn:E; [|discriminate].
  intros [= <- <- <-]. destruct (lazy_mm_shape _ _ _ E) as (Hm & Ht1 & Ht2).
  unfold well_shaped. cbn [g_id g_yyyy g_mm g_table].
  split; [discriminate|]. split; [reflexivity|]. split; [exists c, d; auto|].
  auto.
Qed.

Lemma lazy_yyyy_shape s y m t :
  lazy_yyyy s = Some (y, (m, t)) ->
  well_shaped (mkFnameMatch "0" y m t).
Proof.
  induction s as [|c r IH]; cbn [lazy_yyyy].
  - destruct (yyyy_rest "") as [x|] eqn:E; [|discriminate].
    intros [= ->]. exact (yyyy_rest_shape _ _ _ _ E).
  - destruct (yyyy_rest (String c r)) as [x|] eqn:E.
    + intros [= ->]. exact (yyyy_rest_shape _ _ _ _ E).
    + destruct (is_dot c); [exact IH | discriminate].
Qed.

Lemma match_here_shape s m : match_here s = Some m -> well_shaped m.
Proof.
  revert m. induction s as [|c r IH]; intros m; cbn [match_here]; [discriminate|].
  destruct (is_digit c) eqn:Ec; [|discriminate].
  destruct (match_here r) as [m1|].
  - intros [= <-]. destruct (IH m1 eq_refl) as (_ & H2 & H3 & H4 & H5).
    unfold well_shaped. cbn [g_id g_yyyy g_mm g_table all_string].
    rewrite Ec, H2. split; [discriminate|]. split; [reflexivity|].
    split; [exact H3|]. split; [exact H4 | exact H5].
  - destruct (lazy_yyyy r) as [[y [mo t]]|] eqn:E; [|discriminate].
    intros [= <-]. destruct (lazy_yyyy_shape _ _ _ _ E) as (_ & _ & H3 & H4 & H5).
    unfold well_shaped. cbn [g_id g_yyyy g_mm g_table all_string].
    rewrite Ec. split; [discriminate|]. split; [reflexivity|].
    split; [exact H3|]. split; [exact H4 | exact H5].
Qed.

Lemma FNAME_RE_search_shape name m :
  FNAME_RE_search name = Some m -> well_shaped m.
Proof.
  induction name as [|c r IH]; cbn [FNAME_RE_search].
  - destruct (match_here "") as [x|] eqn:E; [|discriminate].
    intros [= ->]. exact (match_here_shape _ _ E).
  - destruct (match_here (String c r)) as [x|] eqn:E.
    + intros [= ->]. exact (match_here_shape _ _ E).
    + exact IH.
Qed.

Lemma match_here_needs_digit s :
  all_string (fun c => negb (is_digit c)) s = true -> match_here s = None.
Proof.
  destruct s as [|c r]; [reflexivity|]. cbn [all_string match_here].
  intros H. apply andb_prop in H as [H _]. now destruct (is_digit c).
Qed.

Lemma FNAME_RE_search_needs_digit name :
  all_string (fun c => negb (is_digit c)) name = true ->
  FNAME_RE_search name = None.
Proof.
  induction name as [|c r IH]; [reflexivity|]. intros H.
  cbn [FNAME_RE_search]. rewrite (match_here_needs_digit _ H).
  cbn [all_string] in H. apply andb_prop in H as [_ H]. auto.
Qed.

Lemma digit_value c : is_digit c = true -> (48 <= code c <= 57)%N.
Proof.
  unfold is_digit, in_range. intros H. apply andb_prop in H as [H1 H2].
  apply N.leb_le in H1, H2. lia.
Qed.

Section Member.
Variable stem : string -> string.

(** The fields of a fabricated name, read back. *)
Lemma member_fields_of_name t tok :
  all_string is_digit (id t) = true -> id t <> EmptyString ->
  2000 <= yyyy t <= 2099 -> 0 <= mm t <= 99 -> In tok tokens ->
  member_fields stem t (member_name t tok) = (id t, yyyy t, mm t, tok).
Proof.
  intros Hd Hne Hy Hm Htok.
  pose proof (forallb_seqZ _ _ _ (yyyy t) years_read_back ltac:(lia)) as Y.
  pose proof (forallb_seqZ _ _ _ (mm t) months_read_back ltac:(lia)) as M.
  assert (T : token_reads_back tok = true).
  { pose proof tokens_read_back as H. rewrite forallb_forall in H. auto. }
  unfold member_fields, member_name.
  unfold year_reads_back in Y. unfold month_reads_back in M.
  unfold token_reads_back in T.
  destruct (str_of_Z (yyyy t)) as [|a [|b [|c [|d [|]]]]] eqn:Ey; try discriminate.
  destruct (fmt_02d (mm t)) as [|ma [|mb [|]]] eqn:Em; try discriminate.
  destruct (lazy_table ("_" +:+ tok +:+ ".csv")) as [tb|] eqn:Et; [|discriminate].
  apply andb_prop in Y as [Y Y5]. apply andb_prop in Y as [Y Y4].
  apply andb_prop in Y as [Y Y3]. apply andb_prop in Y as [Y1 Y2].
  apply andb_prop in M as [M M3]. apply andb_prop in M as [M1 M2].
  apply Z.eqb_eq in Y5, M3. apply String.eqb_eq in T.
  assert (Hmm : lazy_mm ("-" +:+ String ma (String mb ("_" +:+ tok +:+ ".csv")))
                = Some (String ma (String mb EmptyString), tb)).
  { cbn [String.append lazy_mm mm_table]. cbn [is_digit in_range code].
    replace (is_digit "-") with false by reflexivity.
    replace (is_dot "-") with true by reflexivity.
    rewrite M1, M2. cbn [String.append] in Et. rewrite Et. reflexivity. }
  assert (Hyy : lazy_yyyy ("_" +:+ String a (String b (String c (String d
                  ("-" +:+ String ma (String mb ("_" +:+ tok +:+ ".csv")))))))
                = Some (String a (String b (String c (String d EmptyString))),
                        (String ma (String mb EmptyString), tb))).
  { cbn [String.append lazy_yyyy yyyy_rest].
    replace (Ascii.eqb "_" "2") with false by reflexivity. cbn [andb].
    replace (is_dot "_") with true by reflexivity.
    rewrite Y1, Y2, Y3, Y4. cbn [andb].
    cbn [String.append] in Hmm. rewrite Hmm. reflexivity. }
  assert (Hname : (id t +:+ "_" +:+ String a (String b (String c (String d "")))
                   +:+ "-" +:+ String ma (String mb "") +:+ "_" +:+ tok +:+ ".csv")%string
                  = (id t +:+ ("_" +:+ String a (String b (String c (String d
                      ("-" +:+ String ma (String mb ("_" +:+ tok +:+ ".csv")))))))
                    )%string).
  { reflexivity. }
  rewrite Hname.
  assert (Hsearch : FNAME_RE_search
            (id t +:+ ("_" +:+ String a (String b (String c (String d
               ("-" +:+ String ma (String mb ("_" +:+ tok +:+ ".csv"))))))))
          = Some (mkFnameMatch (id t)
                    (String a (String b (String c (String d EmptyString))))
                    (String ma (String mb EmptyString)) tb)).
  { pose proof (fun Hr => match_here_digits (id t) _ _ _ _ Hd Hne Hr Hyy) as H.
    specialize (H eq_refl).
    destruct (id t) as [|i0 ir]; [congruence|].
    cbn [String.append FNAME_RE_search] in *. rewrite H. reflexivity. }
  rewrite Hsearch. cbn [g_id g_yyyy g_mm g_table]. rewrite Y5, M3, T.
  reflexivity.
Qed.

(** X28.  What the member loop reads off a name.  When the pattern matches,
    the identifier is the matched run of digits, the year is read from
    [20] and two digits and so lies between 2000 and 2099, the month is
    read from one or two digits and so lies between 0 and 99 (it is not
    checked to be a month), and the token is the sanitized run of token
    characters.  A name without any digit cannot match: the task's own
    identifier, year and month are used, and the token is the last
    underscore piece of the stem. *)
Theorem member_fields_shape t name :
  (forall m,
     FNAME_RE_search name = Some m ->
     well_shaped m /\
     exists y mo,
       member_fields stem t name = (g_id m, y, mo, sanitize_token (g_table m)) /\
       2000 <= y <= 2099 /\ 0 <= mo <= 99) /\
  (all_string (fun c => negb (is_digit c)) name = true ->
   member_fields stem t name
   = (id t, yyyy t, mm t, sanitize_token (last_piece (stem name)))).
Proof.
  split.
  - intros m Hm. pose proof (FNAME_RE_search_shape _ _ Hm) as W.
    split; [exact W|]. unfold member_fields. rewrite Hm.
    eexists _, _. split; [reflexivity|].
    destruct W as (_ & _ & (c & d & Hc & Hd & ->) & (a & Ha & Hmm) & _).
    apply digit_value in Hc, Hd, Ha. split.
    + cbn [int_of_digits]. change (code "2") with 50%N. change (code "0") with 48%N.
      lia.
    + destruct Hmm as [->|(b & Hb & ->)]; cbn [int_of_digits]; [lia|].
      apply digit_value in Hb. lia.
  - intros H. unfold member_fields.
    now rewrite (FNAME_RE_search_needs_digit _ H).
Qed.

Lemma until_nul_id s :
  all_string (fun c => negb (N.eqb (code c) 0)) s = true -> until_nul s = s.
Proof.
  induction s as [|c s IH]; intros H; [reflexivity|].
  simpl in H. apply andb_prop in H as [Hc H]. cbn [until_nul].
  destruct (N.eqb (code c) 0); [discriminate|]. now rewrite IH.
Qed.

Lemma all_string_impl (p q : ascii -> bool) s :
  (forall c, p c = true -> q c = true) ->
  all_string p s = true -> all_string q s = true.
Proof.
  intros Hpq. induction s as [|c s IH]; simpl; [auto|].
  intros H. apply andb_prop in H as [Hc H]. now rewrite (Hpq c Hc), IH.
Qed.

Lemma digit_not_nul c : is_digit c = true -> negb (N.eqb (code c) 0) = true.
Proof.
  unfold is_digit, in_range. intros H. apply andb_prop in H as [H _].
  apply N.leb_le in H. destruct (N.eqb_spec (code c) 0) as [E|]; [|reflexivity].
  rewrite E in H. lia.
Qed.

Lemma years_have_digits :
  forallb (fun y => all_string is_digit (str_of_Z y)) (seqZ 2000 100) = true.
Proof. vm_compute. reflexivity. Qed.

Lemma months_have_digits :
  forallb (fun m => all_string is_digit (fmt_02d m)) (seqZ 0 100) = true.
Proof. vm_compute. reflexivity. Qed.

Lemma tokens_have_no_nul :
  forallb (all_string (fun c => negb (N.eqb (code c) 0))) tokens = true.
Proof. vm_compute. reflexivity. Qed.

(** A fabricated name holds no null character, so [ZipInfo] keeps it
    whole. *)
Lemma member_name_kept t tok :
  all_string is_digit (id t) = true ->
  2000 <= yyyy t <= 2099 -> 0 <= mm t <= 99 -> In tok tokens ->
  until_nul (member_name t tok) = member_name t tok.
Proof.
  intros Hd Hy Hm Htok. apply until_nul_id. unfold member_name.
  pose proof (forallb_seqZ _ _ _ (yyyy t) years_have_digits ltac:(lia)) as Y.
  pose proof (forallb_seqZ _ _ _ (mm t) months_have_digits ltac:(lia)) as M.
  assert (T : all_string (fun c => negb (N.eqb (code c) 0)) tok = true).
  { pose proof tokens_have_no_nul as H. rewrite forallb_forall in H. auto. }
  cbv beta in Y, M.
  rewrite !all_string_app, T.
  rewrite (all_string_impl _ _ _ digit_not_nul Hd),
    (all_string_impl _ _ _ digit_not_nul Y),
    (all_string_impl _ _ _ digit_not_nul M).
  reflexivity.
Qed.

Context {Gen : Type}.
Variable seed : string -> Gen.
Variable randbelow : Gen -> N -> N * Gen.
(** [_randbelow(n)] is below [n]. *)
Hypothesis randbelow_lt : forall g n, (0 < n)%N -> ((randbelow g n).1 < n)%N.

Lemma choice_in g l : l <> [] -> In (choice randbelow g l).1 l.
Proof.
  intros Hl. unfold choice.
  pose proof (randbelow_lt g (N.of_nat (length l))) as H.
  destruct (randbelow g (N.of_nat (length l))) as [k g']. cbn [fst] in *.
  apply nth_In. destruct l; [congruence|]. simpl in *. lia.
Qed.

Lemma write_members_names clock t count :
  all_string is_digit (id t) = true -> id t <> EmptyString ->
  2000 <= yyyy t <= 2099 -> 0 <= mm t <= 99 ->
  forall g k,
    Forall (fun zi => exists tok,
                In tok tokens /\ filename zi = member_name t tok /\
                member_fields stem t (filename zi) = (id t, yyyy t, mm t, tok))
      (write_members randbelow clock t g k count).
Proof.
  intros Hd Hne Hy Hm.
  induction count as [|count IH]; intros g k; cbn [write_members]; [constructor|].
  pose proof (choice_in g tokens ltac:(discriminate)) as Hin.
  destruct (choice randbelow g tokens) as [tok g1]. cbn [fst] in Hin.
  destruct (data_rows randbelow g1 0 3) as [rows g2].
  constructor; [|apply IH]. exists tok. cbn [filename].
  fold (member_name t tok). rewrite (member_name_kept t tok Hd Hy Hm Hin).
  split; [exact Hin|]. split; [reflexivity|].
  now apply member_fields_of_name.
Qed.

(** X27.  The names of a fabricated archive read back: for a task whose
    identifier is a non-empty run of digits, with a year from 2000 to 2099
    and a month of at most two digits, every member is named
    [<id>_<yyyy>-<mm>_<token>.csv] for one of the 35 tokens, the pattern
    matches that name, and the fields the member loop reads off it are the
    task's identifier, year and month and that very token. *)
Theorem fabricated_names_read_back clock t :
  all_string is_digit (id t) = true -> id t <> EmptyString ->
  2000 <= yyyy t <= 2099 -> 0 <= mm t <= 99 ->
  Forall (fun zi => exists tok,
              In tok tokens /\ filename zi = member_name t tok /\
              member_fields stem t (filename zi) = (id t, yyyy t, mm t, tok))
    (fabricate_members seed randbelow clock t).
Proof.
  intros Hd Hne Hy Hm. unfold fabricate_members.
  destruct (randint randbelow _ 1 3) as [count g1].
  now apply write_members_names.
Qed.

End Member.

Lemma fabricated_names_read_back_witness :
  let t := mkTask "00001" 2020 3 in
  Forall (fun zi => exists tok,
              In tok tokens /\ filename zi = member_name t tok /\
              member_fields (fun s => s) t (filename zi) = (id t, yyyy t, mm t, tok))
    (fabricate_members (fun _ => tt) (fun g _ => (0%N, g))
       (fun _ => mkDateTime 2024 1 1 0 0 0) t).
Proof.
  cbv zeta.
  apply (fabricated_names_read_back (fun s => s) (fun _ => tt) (fun g _ => (0%N, g))).
  - intros g n Hn. exact Hn.
  - reflexivity.
  - discriminate.
  - simpl; lia.
  - simpl; lia.
Defined.

Lemma member_fields_shape_witness :
  well_shaped (mkFnameMatch "12345" "2018" "03" "_tableXYZ") /\
  member_fields (fun _ => "read_me"%string) (mkTask "00007" 2021 11) "read_me.txt"
    = ("00007"%string, 2021, 11, "me"%string).
Proof.
  split.
  - exact (proj1 (proj1 (member_fields_shape (fun s => s) (mkTask "00007" 2021 11)
                           "12345_2018-03_tableXYZ.csv")
                    (mkFnameMatch "12345" "2018" "03" "_tableXYZ") eq_refl)).
  - exact (proj2 (member_fields_shape (fun _ => "read_me"%string)
                    (mkTask "00007" 2021 11) "read_me.txt") eq_refl).
Defined.

End MembersFacts.

(* ===================================================================== *)
(** * Facts about sampling and the overflow summary *)
(* ===================================================================== *)

Module SamplingFacts.
Import Infer Loader.

Lemma sample_types_fold db fid keys :
  forall (acc : gmap string string) k,
    foldl (fun types k => <[k := infer_type (sample_values db fid k)]> types)
      acc keys !! k
    = if bool_decide (k ∈ keys)
      then Some (infer_type (sample_values db fid k))
      else acc !! k.
Proof.
  induction keys as [|key rest IH]; intros acc k; cbn [foldl].
  - rewrite bool_decide_eq_false_2; [reflexivity | apply not_elem_of_nil].
  - rewrite IH. destruct (decide (k ∈ rest)) as [Hin|Hnin].
    + rewrite !bool_decide_eq_true_2; [reflexivity | now right | assumption].
    + rewrite (bool_decide_eq_false_2 _ Hnin).
      destruct (decide (k = key)) as [->|Hne].
      * rewrite lookup_insert_eq, bool_decide_eq_true_2; [reflexivity | now left].
      * rewrite lookup_insert_ne by congruence.
        rewrite bool_decide_eq_false_2; [reflexivity|].
        intros H. apply elem_of_cons in H as [?|?]; contradiction.
Qed.

Lemma omap_all_none {A B} (f : A -> option B) l :
  (forall x, In x l -> f x = None) -> omap f l = [].
Proof.
  induction l as [|x l IH]; intros H; [reflexivity|].
  cbn [omap list_omap]. rewrite (H x (or_introl eq_refl)).
  apply IH. intros y Hy. apply H. now right.
Qed.

Lemma length_omap {A B} (f : A -> option B) l :
  (length (omap f l) <= length l)%nat.
Proof.
  induction l as [|x l IH]; [reflexivity|]. cbn [omap list_omap].
  destruct (f x); simpl; lia.
Qed.

(** X29.  The types a merge works with.  Every field discovered for the
    file gets a type, the one inferred from its sample, and no other name
    gets one, so the ["text"] default of the later look-ups is never used
    for a discovered field; a sample holds at most 500 values; and a field
    that is null in every row that has it gets the type [text]. *)
Theorem merge_types_are_inferred db fid :
  let keys := discover_keys_for_file db fid in
  let types := sample_types_for_keys db fid keys in
  (forall k, In k keys ->
     types !! k = Some (infer_type (sample_values db fid k))) /\
  (forall k, ~ In k keys -> types !! k = None) /\
  (forall k, (length (sample_values db fid k) <= 500)%nat) /\
  (forall k, In k keys ->
     (forall s, In s (staged_rows_of db fid) -> rec s !! k = Some None \/
                                                 rec s !! k = None) ->
     types !! k = Some "text"%string).
Proof.
  cbv zeta. unfold sample_types_for_keys.
  assert (F : forall k, In k (discover_keys_for_file db fid) ->
     foldl (fun types k => <[k := infer_type (sample_values db fid k)]> types)
       (∅ : gmap string string) (discover_keys_for_file db fid) !! k
     = Some (infer_type (sample_values db fid k))).
  { intros k Hin. rewrite sample_types_fold, bool_decide_eq_true_2;
      [reflexivity | now apply list_elem_of_In]. }
  split; [exact F|]. split; [|split].
  - intros k Hnin. rewrite sample_types_fold, bool_decide_eq_false_2;
      [apply lookup_empty|]. intros H. apply Hnin. now apply list_elem_of_In.
  - intros k. unfold sample_values. etransitivity; [apply length_omap|].
    rewrite length_take. lia.
  - intros k Hin Hnull. rewrite (F k Hin). f_equal.
    unfold sample_values. rewrite omap_all_none; [reflexivity|].
    intros s Hs. apply list_elem_of_In, elem_of_take in Hs as (i & Hs & _).
    apply list_elem_of_lookup_2, list_elem_of_In, filter_In in Hs as [Hs _].
    destruct (Hnull s Hs) as [-> | ->]; reflexivity.
Qed.

End SamplingFacts.

Module SummaryFacts.
Import Text TokenRegistry TokenRegistryFacts Summary.

Lemma text_leb_total a b : text_leb a b = true \/ text_leb b a = true.
Proof.
  unfold text_leb. rewrite (String.compare_antisym a b).
  destruct (String.compare b a); simpl; auto.
Qed.

#[local] Instance by_canonical_total : Total by_canonical.
Proof.
  intros x y. unfold by_canonical.
  destruct (text_leb_total x.1 y.1) as [H|H]; rewrite H; simpl; auto.
Qed.

(** In a table the program built, the flagged rows are the rows after the
    first 25. *)
Lemma flagged_rows_from (l : list TypeRow) :
  forall i,
    (forall j r, l !! j = Some r -> overflow r = overflow_flag (Z.of_nat (S (i + j)))) ->
    List.filter (fun r => overflow r =? 1) l = drop (25 - i) l.
Proof.
  induction l as [|r l IH]; intros i H; [now rewrite drop_nil|].
  cbn [List.filter]. pose proof (H 0%nat r eq_refl) as H0.
  rewrite H0. unfold overflow_flag, MAX_TYPES.
  rewrite (IH (S i)).
  2:{ intros j r' Hj. rewrite (H (S j) r' Hj). do 2 f_equal. lia. }
  destruct (Z.ltb_spec 25 (Z.of_nat (S (i + 0)))) as [Hlt|Hge].
  - replace (25 - i)%nat with 0%nat by lia.
    replace (25 - S i)%nat with 0%nat by lia. reflexivity.
  - replace (25 - i)%nat with (S (25 - S i)) by lia. reflexivity.
Qed.

Lemma flagged_rows con :
  reachable con ->
  List.filter (fun r => overflow r =? 1) con = drop 25 con.
Proof.
  intros Hr. destruct (reachable_well_formed _ Hr) as [_ Hwf].
  apply (flagged_rows_from con 0). intros j r Hj.
  exact (proj2 (Hwf j r Hj)).
Qed.

(** X30.  The overflow summary of a table the program built lists the
    rows after the first 25, one line each, ordered by bucket name as text;
    it prints nothing when the table has at most 25 rows, and otherwise a
    heading and one line per bucket beyond the 25th. *)
Theorem overflow_summary_lists_later_buckets con :
  reachable con ->
  select_overflow con ≡ₚ map (fun r => (canonical r, token r)) (drop 25 con) /\
  Sorted by_canonical (select_overflow con) /\
  (print_overflow_summary con = [] <-> (length con <= 25)%nat) /\
  ((25 < length con)%nat ->
   length (print_overflow_summary con) = S (length con - 25)).
Proof.
  intros Hr. unfold print_overflow_summary, select_overflow.
  rewrite (flagged_rows _ Hr).
  set (rows := map (fun r => (canonical r, token r)) (drop 25 con)).
  pose proof (merge_sort_Permutation by_canonical rows) as Hp.
  assert (Hlen : length (merge_sort by_canonical rows) = (length con - 25)%nat).
  { rewrite Hp. unfold rows. now rewrite length_map, length_drop. }
  split; [exact Hp|]. split; [apply (Sorted_merge_sort by_canonical)|].
  destruct (merge_sort by_canonical rows) as [|x l] eqn:E.
  - simpl in Hlen. split; [split; [lia | reflexivity] | lia].
  - split; [split; [discriminate | intros ?; exfalso; simpl in Hlen; lia]|].
    intros _. cbn [length]. rewrite length_map. cbn [length] in *. lia.
Qed.

Lemma overflow_summary_lists_later_buckets_witness :
  let con := table_of_tokens "2024-01-01" (sample_tokens 27) in
  select_overflow con
    ≡ₚ map (fun r => (canonical r, token r)) (drop 25 con) /\
  length (print_overflow_summary con) = 3%nat.
Proof.
  cbv zeta.
  destruct (overflow_summary_lists_later_buckets
              (table_of_tokens "2024-01-01" (sample_tokens 27))
              (table_of_tokens_reachable _ _))
    as (H1 & _ & _ & H4).
  split; [exact H1|]. apply H4. vm_compute. lia.
Defined.

End SummaryFacts.
